(** * A shallow embedding of the CUDA debug-session mediator

    Source: [src/debugger/cudaGdbSession.ts].

    The session sits between the IDE's debug protocol and the machine
    interface of cuda-gdb.  The embedding keeps the classes of the source
    as groups of definitions over one explicit session state:

    - an [async] method becomes a function in the monad [M], a state
      transformer over [Session] that either returns a value or throws;
      state changes made before a throw persist, as they do in JavaScript;
    - the backend is an oracle [GDBBackend]: for every kind of
      machine-interface command it maps the whole list of commands written
      so far (the last one being the command to answer) to a decoded
      response or to an error.  Every command written is recorded in the
      field [sent], every response or event given to the IDE in [emitted];
    - the text of a machine-interface command is abstracted by the
      constructor of [Cmd] that names it. *)

From Stdlib Require Import ZArith List String Ascii Bool Lia Permutation.
From Stdlib Require DecimalString HexadecimalString.
Import ListNotations.

Local Open Scope string_scope.
Local Open Scope list_scope.
Local Open Scope Z_scope.

Set Implicit Arguments.

(** ** Data of [types.ts], as the session uses it *)

Module types.

(** [CudaDim]: every component is optional. *)
Record CudaDim : Type := mkCudaDim {
  x : option Z;
  y : option Z;
  z : option Z
}.

(** [CudaFocus]: a tagged union over the member [type]. *)
Inductive CudaFocus : Type :=
| software (blockIdx threadIdx : option CudaDim)
| hardware (sm warp lane : option Z).

(** A focus as the session passes it around: [number | types.CudaFocus]. *)
Inductive Focus : Type :=
| thread (id : Z)
| cuda (f : CudaFocus).

(** [RealizedFrameReference]; [frameId = None] is JavaScript's [null]. *)
Record RealizedFrameReference : Type := mkFrame {
  frameId : option Z;
  focus : option Focus
}.

End types.
Import types.

(** ** Helpers of [utils.ts] *)

Module utils.

Definition option_eqb {A} (eqb : A -> A -> bool) (a b : option A) : bool :=
  match a, b with
  | Some u, Some v => eqb u v
  | None, None => true
  | _, _ => false
  end.

Definition equalsCudaDim (a b : CudaDim) : bool :=
  option_eqb Z.eqb (x a) (x b) && option_eqb Z.eqb (y a) (y b)
  && option_eqb Z.eqb (z a) (z b).

Definition cudaFocus_eqb (a b : CudaFocus) : bool :=
  match a, b with
  | software b1 t1, software b2 t2 =>
      option_eqb equalsCudaDim b1 b2 && option_eqb equalsCudaDim t1 t2
  | hardware s1 w1 l1, hardware s2 w2 l2 =>
      option_eqb Z.eqb s1 s2 && option_eqb Z.eqb w1 w2 && option_eqb Z.eqb l1 l2
  | _, _ => false
  end.

(** Modelled from the spec: [utils.equalsCudaFocus] is not part of the
    sources at hand.  The data model says that equality of foci is
    structural across all present fields. *)
Definition equalsCudaFocus (a b : option CudaFocus) : bool :=
  option_eqb cudaFocus_eqb a b.

Definition focus_eqb (a b : Focus) : bool :=
  match a, b with
  | thread m, thread n => Z.eqb m n
  | cuda f, cuda g => cudaFocus_eqb f g
  | _, _ => false
  end.

Definition frame_eqb (a b : RealizedFrameReference) : bool :=
  option_eqb Z.eqb (frameId a) (frameId b)
  && option_eqb focus_eqb (focus a) (focus b).

(** Modelled from the spec: [utils.deepEqual] is not part of the sources
    at hand.  The focus controller compares frames and foci for
    structural equality; the three definitions below are [deepEqual] at
    the three types it is called at. *)
Definition deepEqualFrame (a b : option RealizedFrameReference) : bool :=
  option_eqb frame_eqb a b.

Definition deepEqualFocus (a b : option Focus) : bool :=
  option_eqb focus_eqb a b.

Definition deepEqualFrameId (a b : option Z) : bool :=
  option_eqb Z.eqb a b.

Definition all_present (d : option CudaDim) : bool :=
  match d with
  | Some d => match x d, y d, z d with
              | Some _, Some _, Some _ => true
              | _, _, _ => false
              end
  | None => false
  end.

(** Modelled from the spec: [utils.isCudaFocusValid] is not part of the
    sources at hand.  A focus is taken to be well-formed when it is
    present and every coordinate of its variant is present. *)
Definition isCudaFocusValid (f : option CudaFocus) : bool :=
  match f with
  | Some (software b t) => all_present b && all_present t
  | Some (hardware (Some _) (Some _) (Some _)) => true
  | _ => false
  end.

End utils.

(** ** A JavaScript [Map] with string keys

    Iteration follows insertion order; [set] on a key that is present
    replaces the value in place, [delete] removes the entry. *)

Module JSMap.

Definition t (V : Type) : Type := list (string * V).

Fixpoint set {V} (k : string) (v : V) (m : t V) : t V :=
  match m with
  | [] => [(k, v)]
  | (k', v') :: m' =>
      if String.eqb k' k then (k, v) :: m' else (k', v') :: set k v m'
  end.

Fixpoint get {V} (k : string) (m : t V) : option V :=
  match m with
  | [] => None
  | (k', v') :: m' => if String.eqb k' k then Some v' else get k m'
  end.

Definition delete {V} (k : string) (m : t V) : t V :=
  filter (fun kv => negb (String.eqb (fst kv) k)) m.

Definition values {V} (m : t V) : list V := map snd m.

Definition size {V} (m : t V) : Z := Z.of_nat (List.length m).

End JSMap.

(** ** Decoded machine-interface data (from cdt-gdb-adapter) *)

Inductive Kind : Type := watch | local.

Definition Kind_eqb (a b : Kind) : bool :=
  match a, b with
  | watch, watch | local, local => true
  | _, _ => false
  end.

Record SimplifiedVarObjType : Type := mkVarObj {
  varname : string;
  expression : string;
  numchild : string;
  value : string;
  type : string;
  kind : Kind
}.

Record VarUpdateChanges : Type := mkChange {
  ch_name : string;
  ch_value : string;
  in_scope : string;
  type_changed : string;
  has_more : string;
  new_type : string;
  new_num_children : string
}.

(** [MIVariableInfo], as [-stack-list-variables --simple-values] gives it. *)
Record MIVariableInfo : Type := mkVarInfo {
  vi_name : string;
  vi_type : string
}.

Record MIVarCreateResponse : Type := mkCreated {
  cr_name : string;
  cr_numchild : string;
  cr_value : string;
  cr_type : string
}.

(** One entry of the [stack] of a [-stack-list-frames] response. *)
Record MIFrameInfo : Type := mkFrameInfo {
  func : option string
}.

Record RegisterNameValuePair : Type := mkPair {
  number : string;
  pair_value : string
}.

(** The commands the session writes to the backend. *)
Inductive Cmd : Type :=
| StackListFrames (threadId : option Z)
    (* sendStackListFramesRequest, lowFrame 0, highFrame 0 *)
| StackListVariables (host : option (Z * Z))
    (* -stack-list-variables [--thread t --frame f] --simple-values *)
| VarCreate (expr : string)          (* sendVarCreate, frame floating *)
| VarUpdate                          (* sendVarUpdate, name '*' *)
| VarDelete (name : string)          (* -var-delete name *)
| SetCudaFocus (f : CudaFocus)       (* utils.formatSetFocusCommand(f) *)
| ThreadSelect (id : Z)              (* thread id *)
| FrameSelect (id : Z)               (* frame id *)
| DataListRegisterValues (ordinals : list Z)
    (* -data-list-register-values x o1 o2 ... *)
| CudaInfoDevices                    (* -cuda-info-devices *)
| DataDisassemble (request : string) (* sendDataDisassemble *).

Definition isVarCreate (c : Cmd) : bool :=
  match c with VarCreate _ => true | _ => false end.

Definition isVarDelete (c : Cmd) : bool :=
  match c with VarDelete _ => true | _ => false end.

Definition isStackListVariables (c : Cmd) : bool :=
  match c with StackListVariables _ => true | _ => false end.

(** ** Results, errors and the backend oracle *)

(** A JavaScript error, identified by its message. *)
Definition Error : Type := string.

Inductive Result (A : Type) : Type :=
| Ok (a : A)
| Throw (e : Error).

Arguments Ok {A} a.
Arguments Throw {A} e.

Record GDBBackend : Type := mkBackend {
  onStackListFrames : list Cmd -> Result (list MIFrameInfo);
  onStackListVariables : list Cmd -> Result (list MIVariableInfo);
  onVarCreate : list Cmd -> Result MIVarCreateResponse;
  onVarUpdate : list Cmd -> Result (list VarUpdateChanges);
  onRegisterValues : list Cmd -> Result (list RegisterNameValuePair);
  onCommand : list Cmd -> Result unit
}.

(** ** What the session gives to the IDE *)

(** [Variable] of the debug adapter ([Variable] is reserved here). *)
Record Variable_ : Type := mkVariable {
  var_name : string;
  var_value : string
}.

(** [DebugProtocol.DisassembledInstruction]. *)
Record DisassembledInstruction : Type := mkInstruction {
  address : string;
  instructionBytes : option string;
  instruction : string
}.

Inductive Body : Type :=
| NoBody
| FocusBody (f : CudaFocus)
| VariablesBody (vs : list Variable_)
| InstructionsBody (l : list DisassembledInstruction).

Inductive Output : Type :=
| SendResponse (b : Body)
| SendErrorResponse (code : Z) (message : string)
| ChangedCudaFocusEvent (f : option CudaFocus)
| InvalidatedEvent (areas : list string)
| StoppedEvent (reason : string)
| SystemInfoEvent
| BaseAsync (resultClass : string)   (* super.handleGDBAsync *).

(** ** The state of one session *)

Record ExecContext : Type := mkContext {
  ctx_threadId : option Focus;
  ctx_frameId : option Z;
  resumed : option bool;
  functionName : option string
}.

Record VariableObjectStore : Type := mkStore {
  execContext : ExecContext;
  byName : JSMap.t SimplifiedVarObjType;
  gdb : bool   (* whether [this.gdb] is defined *)
}.

Record CudaThread : Type := mkThread {
  thread_focus : option CudaFocus
}.

Record Session : Type := mkSession {
  cudaThread : CudaThread;
  uiFocusedFrame : option RealizedFrameReference;
  gdbFocusedFrame : option RealizedFrameReference;
  varStore : VariableObjectStore;
  telemetryInfoSent : bool;
  sent : list Cmd;
  emitted : list Output
}.

Definition set_cudaThread (v : CudaThread) (s : Session) : Session :=
  mkSession v (uiFocusedFrame s) (gdbFocusedFrame s) (varStore s)
            (telemetryInfoSent s) (sent s) (emitted s).

Definition set_uiFocusedFrame (v : option RealizedFrameReference) (s : Session) : Session :=
  mkSession (cudaThread s) v (gdbFocusedFrame s) (varStore s)
            (telemetryInfoSent s) (sent s) (emitted s).

Definition set_gdbFocusedFrame (v : option RealizedFrameReference) (s : Session) : Session :=
  mkSession (cudaThread s) (uiFocusedFrame s) v (varStore s)
            (telemetryInfoSent s) (sent s) (emitted s).

Definition set_varStore (v : VariableObjectStore) (s : Session) : Session :=
  mkSession (cudaThread s) (uiFocusedFrame s) (gdbFocusedFrame s) v
            (telemetryInfoSent s) (sent s) (emitted s).

Definition set_telemetryInfoSent (v : bool) (s : Session) : Session :=
  mkSession (cudaThread s) (uiFocusedFrame s) (gdbFocusedFrame s) (varStore s)
            v (sent s) (emitted s).

Definition set_sent (v : list Cmd) (s : Session) : Session :=
  mkSession (cudaThread s) (uiFocusedFrame s) (gdbFocusedFrame s) (varStore s)
            (telemetryInfoSent s) v (emitted s).

Definition set_emitted (v : list Output) (s : Session) : Session :=
  mkSession (cudaThread s) (uiFocusedFrame s) (gdbFocusedFrame s) (varStore s)
            (telemetryInfoSent s) (sent s) v.

Definition set_execContext (c : ExecContext) (st : VariableObjectStore) : VariableObjectStore :=
  mkStore c (byName st) (gdb st).

Definition set_byName (m : JSMap.t SimplifiedVarObjType) (st : VariableObjectStore)
  : VariableObjectStore :=
  mkStore (execContext st) m (gdb st).

(** The store of [new VariableObjectStore(gdb)] and a fresh session. *)
Definition newStore : VariableObjectStore :=
  mkStore (mkContext None None None None) [] true.

Definition newSession : Session :=
  mkSession (mkThread None) None None newStore false [] [].

(** ** The monad of [async] methods *)

Definition M (A : Type) : Type := Session -> Result A * Session.

Definition ret {A} (a : A) : M A := fun s => (Ok a, s).

Definition throw {A} (e : Error) : M A := fun s => (Throw e, s).

Definition bind {A B} (m : M A) (k : A -> M B) : M B :=
  fun s => match m s with
           | (Ok a, s') => k a s'
           | (Throw e, s') => (Throw e, s')
           end.

(** [try { m } catch (error) { h error }]. *)
Definition tryCatch {A} (m : M A) (h : Error -> M A) : M A :=
  fun s => match m s with
           | (Ok a, s') => (Ok a, s')
           | (Throw e, s') => h e s'
           end.

Definition get : M Session := fun s => (Ok s, s).

Definition modify (f : Session -> Session) : M unit := fun s => (Ok tt, f s).

Declare Scope monad_scope.
Delimit Scope monad_scope with monad.
Notation "x <- m ;; k" := (bind m (fun x => k))
  (at level 61, m at next level, right associativity) : monad_scope.
Notation "m ;; k" := (bind m (fun _ => k))
  (at level 61, right associativity) : monad_scope.
Local Open Scope monad_scope.

(** [gdb.sendCommand] and its typed wrappers: the command is written, the
    oracle answers for the history that ends with it. *)
Definition send {A} (oracle : list Cmd -> Result A) (c : Cmd) : M A :=
  fun s => let h := sent s ++ [c] in (oracle h, set_sent h s).

(** [gdb.sendCommands] of cdt-gdb-adapter: one command after the other,
    the first failure is thrown. *)
Fixpoint sendCommands (B : GDBBackend) (cs : list Cmd) : M unit :=
  match cs with
  | [] => ret tt
  | c :: cs' => send (onCommand B) c ;; sendCommands B cs'
  end.

Definition emit (o : Output) : M unit :=
  modify (fun s => set_emitted (emitted s ++ [o]) s).

(** A JavaScript string in a condition. *)
Definition truthy (s : string) : bool := negb (String.eqb s EmptyString).

Definition truthy_opt (s : option string) : bool :=
  match s with Some s => truthy s | None => false end.

Definition typeError : Error := "TypeError".

(** ** class VariableObjectStore *)

Section VariableObjectStore.

Variable B : GDBBackend.

Definition modifyStore (f : VariableObjectStore -> VariableObjectStore) : M unit :=
  modify (fun s => set_varStore (f (varStore s)) s).

Definition isCudaFocus (threadId : option Focus) : bool :=
  match threadId with
  | Some (cuda _) => true
  | _ => false
  end.

Definition valuesOfKind (k : Kind) (st : VariableObjectStore) : list SimplifiedVarObjType :=
  filter (fun vo => Kind_eqb (kind vo) k) (JSMap.values (byName st)).

(** [updateVarObj] (lines 432-439); the object is rebuilt, not mutated. *)
Definition updateVarObj (varObj : SimplifiedVarObjType) (update : VarUpdateChanges)
  : SimplifiedVarObjType :=
  if String.eqb (type_changed update) "true"
  then mkVarObj (varname varObj) (expression varObj) (new_num_children update)
                (ch_value update) (new_type update) (kind varObj)
  else mkVarObj (varname varObj) (expression varObj) (numchild varObj)
                (ch_value update) (type varObj) (kind varObj).

(** [sendStackListFramesRequest(this.gdb!, ...)] dereferences the backend:
    with no backend it throws before anything is written. *)
Definition getCurrentFunction (threadId : Focus) : M (option string) :=
  s <- get ;;
  let backendThreadId := match threadId with thread n => Some n | cuda _ => None end in
  if negb (gdb (varStore s)) then throw typeError else
  stack <- send (onStackListFrames B) (StackListFrames backendThreadId) ;;
  match stack with
  | frameInfo :: _ => ret (func frameInfo)
  | [] => throw typeError
  end.

(** [threadIdChanged] (lines 520-541). *)
Definition threadIdChanged (st : VariableObjectStore) (threadId : Focus) : bool :=
  match ctx_threadId (execContext st) with
  | None => true
  | Some old =>
      match threadId with
      | thread n =>
          match old with
          | thread m => negb (Z.eqb n m)
          | cuda _ => true
          end
      | cuda f =>
          match old with
          | thread _ => true
          | cuda g => negb (utils.equalsCudaFocus (Some f) (Some g))
          end
      end
  end.

(** The callback of [changes.forEach] in [update]. *)
Definition applyChange (m : JSMap.t SimplifiedVarObjType) (ch : VarUpdateChanges)
  : JSMap.t SimplifiedVarObjType :=
  match JSMap.get (ch_name ch) m with
  | Some varObj =>
      match kind varObj with
      | local => JSMap.set (ch_name ch) (updateVarObj varObj ch) m
      | watch => m
      end
  | None => m
  end.

(** [update] (lines 563-579). *)
Definition update : M (list VarUpdateChanges) :=
  s <- get ;;
  if negb (gdb (varStore s)) then throw typeError else
  changes <- send (onVarUpdate B) VarUpdate ;;
  modifyStore (fun st => set_byName (fold_left applyChange changes (byName st)) st) ;;
  ret changes.

(** [updateLocals] (lines 583-585). *)
Definition updateLocals : M unit :=
  update ;; ret tt.

(** [createLocals] (lines 543-561) and its loop. *)
Fixpoint createLocals_loop (stackLocalsList : list MIVariableInfo) : M unit :=
  match stackLocalsList with
  | [] => ret tt
  | stackLocal :: rest =>
      varCreateResp <- send (onVarCreate B) (VarCreate (vi_name stackLocal)) ;;
      let stackVarObj :=
        mkVarObj (cr_name varCreateResp) (vi_name stackLocal) (cr_numchild varCreateResp)
                 (cr_value varCreateResp) (cr_type varCreateResp) local in
      modifyStore (fun st => set_byName (JSMap.set (varname stackVarObj) stackVarObj (byName st)) st) ;;
      createLocals_loop rest
  end.

Definition createLocals (stackLocalsList : list MIVariableInfo) : M unit :=
  s <- get ;;
  if negb (gdb (varStore s)) then ret tt else createLocals_loop stackLocalsList.

(** [clear] (lines 591-595): the delete commands are sent before the
    objects leave the map. *)
Definition clear (k : Kind) : M unit :=
  s <- get ;;
  let stackVarObjects := valuesOfKind k (varStore s) in
  (if gdb (varStore s)
   then sendCommands B (map (fun vo => VarDelete (varname vo)) stackVarObjects)
   else ret tt) ;;
  modifyStore (fun st =>
    set_byName (fold_left (fun m vo => JSMap.delete (varname vo) m) stackVarObjects (byName st)) st).

Definition clearWatches : M unit := clear watch.

(** The map [oldLocals] of [validate]: the local-kind objects by expression. *)
Definition oldLocalsOf (m : JSMap.t SimplifiedVarObjType) : JSMap.t SimplifiedVarObjType :=
  fold_left (fun acc vo =>
               match kind vo with
               | local => JSMap.set (expression vo) vo acc
               | watch => acc
               end)
            (JSMap.values m) [].

(** The comparison of [oldLocals] with the fetched list (lines 487-494). *)
Definition shapeDiffers (m : JSMap.t SimplifiedVarObjType) (stackLocalsList : list MIVariableInfo)
  : bool :=
  let oldLocals := oldLocalsOf m in
  if negb (Z.eqb (JSMap.size oldLocals) (Z.of_nat (List.length stackLocalsList)))
  then true
  else negb (forallb (fun sl =>
                        match JSMap.get (vi_name sl) oldLocals with
                        | Some vo => String.eqb (type vo) (vi_type sl)
                        | None => false
                        end)
                     stackLocalsList).

(** The part of [validate] from the stack-locals command on. *)
Definition validate_fetch (threadId : Focus) (frameId : Z) (funcName : option string)
           (shouldInvalidate : bool) : M unit :=
  let getStackVarsCommand :=
    match threadId with
    | thread n => StackListVariables (Some (n, frameId))
    | cuda _ => StackListVariables None
    end in
  stackLocalsList <- send (onStackListVariables B) getStackVarsCommand ;;
  s <- get ;;
  let shouldInvalidate :=
    if negb shouldInvalidate then shapeDiffers (byName (varStore s)) stackLocalsList
    else shouldInvalidate in
  if negb shouldInvalidate then updateLocals
  else
    clear local ;;
    createLocals stackLocalsList ;;
    modifyStore (set_execContext (mkContext (Some threadId) (Some frameId) (Some false) funcName)).

(** [validate] (lines 449-511). *)
Definition validate (threadId : Focus) (frameId : Z) (funcName : option string) : M unit :=
  s <- get ;;
  let ctx := execContext (varStore s) in
  if negb (gdb (varStore s)) then ret tt
  else if threadIdChanged (varStore s) threadId
          || negb (utils.option_eqb Z.eqb (ctx_frameId ctx) (Some frameId))
  then validate_fetch threadId frameId funcName true
  else
    match resumed ctx with
    | Some false => updateLocals
    | _ =>
        validate_fetch threadId frameId funcName
          (negb (truthy_opt funcName)
           || negb (truthy_opt (functionName ctx))
           || negb (utils.option_eqb String.eqb funcName (functionName ctx)))
    end.

(** [getLocals] (lines 406-416). *)
Definition getLocals (focus : option Focus) (frameId : Z) : M (list SimplifiedVarObjType) :=
  match focus with
  | None => ret []
  | Some focus =>
      funcName <- getCurrentFunction focus ;;
      validate focus frameId funcName ;;
      s <- get ;;
      ret (valuesOfKind local (varStore s))
  end.

End VariableObjectStore.

(** ** class CudaThread *)

Definition setFocus (focus : CudaFocus) : M unit :=
  modify (set_cudaThread (mkThread (Some focus))).

Definition clearFocus : M unit :=
  modify (set_cudaThread (mkThread None)).

(** The getter [hasFocus]: its body is [return false]. *)
Definition hasFocus (t : CudaThread) : bool := false.

(** ** class CudaGdbSession: the focus controller *)

Section FocusController.

Variable B : GDBBackend.

Definition focusOf (f : option RealizedFrameReference) : option Focus :=
  match f with Some f => focus f | None => None end.

Definition frameIdOf (f : option RealizedFrameReference) : option Z :=
  match f with Some f => frameId f | None => None end.

(** The list [commands] that [focusOnFrame] builds. *)
Definition focusCommands (focus : Focus) (frameId : option Z)
           (gdbFocusedFrame : option RealizedFrameReference) : list Cmd :=
  if negb (utils.deepEqualFocus (Some focus) (focusOf gdbFocusedFrame))
  then (match focus with
        | cuda f => [SetCudaFocus f]
        | thread n => [ThreadSelect n]
        end)
       ++ (match frameId with
           | Some n => [FrameSelect n]
           | None => []
           end)
  else match frameId with
       | Some n =>
           if negb (utils.deepEqualFrameId (Some n) (frameIdOf gdbFocusedFrame))
           then [FrameSelect n] else []
       | None => []
       end.

(** [frame.focus ?? this.cudaThread.focus]. *)
Definition focusOrCurrent (frame : RealizedFrameReference) (s : Session) : option Focus :=
  match focus frame with
  | Some f => Some f
  | None => option_map cuda (thread_focus (cudaThread s))
  end.

(** [focusOnFrame] (lines 712-755) calls itself in its [catch] block;
    [fuel] bounds the depth of these calls and [None] means that the
    bound was reached. *)
Fixpoint focusOnFrame_fuel (fuel : nat) (frame : option RealizedFrameReference) (s : Session)
  : option (Result unit * Session) :=
  match fuel with
  | O => None
  | S fuel' =>
      match frame with
      | None => Some (Ok tt, s)
      | Some fr =>
          if utils.deepEqualFrame (Some fr) (gdbFocusedFrame s) then Some (Ok tt, s)
          else
            match focusOrCurrent fr s with
            | None => Some (Ok tt, s)
            | Some focus =>
                let commands := focusCommands focus (frameId fr) (gdbFocusedFrame s) in
                match (if (0 <? Z.of_nat (List.length commands))
                       then sendCommands B commands else ret tt) s with
                | (Ok _, s1) =>
                    Some (Ok tt, set_gdbFocusedFrame (Some (mkFrame (frameId fr) (Some focus))) s1)
                | (Throw error, s1) =>
                    let gdbFocusedFrame0 := gdbFocusedFrame s1 in
                    match focusOnFrame_fuel fuel' gdbFocusedFrame0 (set_gdbFocusedFrame None s1) with
                    | None => None
                    | Some (Ok _, s2) => Some (Throw error, s2)
                    | Some (Throw e2, s2) => Some (Throw e2, s2)
                    end
                end
            end
      end
  end.

(** Three nested calls are always enough (theorem [focusOnFrame_fuel_enough]). *)
Definition focusOnFrame (frame : option RealizedFrameReference) : M unit :=
  fun s => match focusOnFrame_fuel 3 frame s with
           | Some r => r
           | None => (Throw "focusOnFrame: call depth exceeded", s)
           end.

Definition focusOnThread (focus : option Focus) : M unit :=
  focusOnFrame (Some (mkFrame (Some 0) focus)).

(** One pass of [focusOnFrame] with no recovery: the commands are built
    and sent, the recorded frame is updated when they all succeed, and a
    failure is thrown as it is.  This definition follows the words of the
    specification; it is what the recovery of [focusOnFrame] is compared
    with. *)
Definition applyFrameOnce (frame : option RealizedFrameReference) : M unit :=
  match frame with
  | None => ret tt
  | Some fr =>
      s <- get ;;
      if utils.deepEqualFrame (Some fr) (gdbFocusedFrame s) then ret tt
      else match focusOrCurrent fr s with
           | None => ret tt
           | Some focus =>
               sendCommands B (focusCommands focus (frameId fr) (gdbFocusedFrame s)) ;;
               modify (set_gdbFocusedFrame (Some (mkFrame (frameId fr) (Some focus))))
           end
  end.

Definition getSystemInfo : M unit :=
  send (onCommand B) CudaInfoDevices.

(** [utils.formatSetFocusCommand] is only reached with a focus. *)
Definition resetCudaFocus : M unit :=
  s <- get ;;
  if negb (hasFocus (cudaThread s)) then ret tt
  else match thread_focus (cudaThread s) with
       | Some f => send (onCommand B) (SetCudaFocus f)
       | None => throw typeError
       end.

(** The decoded payload of an asynchronous record: the member [CudaFocus]
    with its [blockIdx] and [threadIdx] after [utils.parseCudaDim]. *)
Record AsyncData : Type := mkAsync {
  CudaFocus_member : option (option CudaDim * option CudaDim)
}.

(** [handleGDBAsync] (lines 1186-1239). *)
Definition handleGDBAsync (resultClass : string) (resultData : AsyncData) : M unit :=
  (if String.eqb resultClass "stopped"
   then
     (match CudaFocus_member resultData with
      | Some (blockIdx, threadIdx) =>
          let focus := software blockIdx threadIdx in
          s <- get ;;
          if negb (utils.equalsCudaFocus (Some focus) (thread_focus (cudaThread s)))
          then
            setFocus focus ;;
            resetCudaFocus ;;
            s' <- get ;;
            emit (ChangedCudaFocusEvent (thread_focus (cudaThread s')))
          else ret tt
      | None =>
          s <- get ;;
          if hasFocus (cudaThread s)
          then clearFocus ;; emit (ChangedCudaFocusEvent None)
          else ret tt
      end) ;;
     modifyStore (fun st =>
       set_execContext (mkContext (ctx_threadId (execContext st)) (ctx_frameId (execContext st))
                                  (Some true) (functionName (execContext st))) st)
   else ret tt) ;;
  emit (BaseAsync resultClass) ;;
  s <- get ;;
  if hasFocus (cudaThread s) && negb (telemetryInfoSent s)
  then
    modify (set_telemetryInfoSent true) ;;
    getSystemInfo ;;
    emit SystemInfoEvent
  else ret tt.

(** [localsRequest] once the frame is realized: the store is asked and
    the response is sent. *)
Definition localsRequest (realizedFrame : RealizedFrameReference) (frameId : Z) : M unit :=
  stackVarObjects <- getLocals B (focus realizedFrame) frameId ;;
  emit (SendResponse (VariablesBody
          (map (fun vo => mkVariable (expression vo) (value vo)) stackVarObjects))).

(** [dim1?.c ?? dim2?.c ?? 0] for one component [c]. *)
Definition coerceComponent (c : CudaDim -> option Z) (dim1 dim2 : option CudaDim) : Z :=
  match match dim1 with Some d => c d | None => None end with
  | Some v => v
  | None =>
      match match dim2 with Some d => c d | None => None end with
      | Some v => v
      | None => 0
      end
  end.

Definition coerceDim (dim1 dim2 : option CudaDim) : CudaDim :=
  mkCudaDim (Some (coerceComponent x dim1 dim2))
            (Some (coerceComponent y dim1 dim2))
            (Some (coerceComponent z dim1 dim2)).

(** [a ?? b ?? 0]. *)
Definition coalesce0 (a b : option Z) : Z :=
  match a with
  | Some v => v
  | None => match b with Some v => v | None => 0 end
  end.

Definition mixingMessage : string :=
  "Mixing hardware and software coordinates to change focus is not supported.".

Definition invalidateAreas (areas : list string) : M unit :=
  emit (InvalidatedEvent areas).

Definition invalidateState : M unit :=
  emit (StoppedEvent "Refreshing State").

(** [changeCudaFocusRequest] (lines 2208-2260). *)
Definition changeCudaFocusRequest (focus : CudaFocus) : M unit :=
  tryCatch
    (focusOnThread (Some (cuda focus)) ;;
     s <- get ;;
     newFocus <-
       (match focus, thread_focus (cudaThread s) with
        | software fb ft, Some (software cb ct) =>
            ret (Some (software (Some (coerceDim fb cb)) (Some (coerceDim ft ct))))
        | hardware fs fw fl, Some (hardware cs cw cl) =>
            ret (Some (hardware (Some (coalesce0 fs cs)) (Some (coalesce0 fw cw))
                                (Some (coalesce0 fl cl))))
        | _, _ =>
            emit (SendErrorResponse 1 mixingMessage) ;;
            ret None
        end) ;;
     match newFocus with
     | Some newFocus =>
         setFocus newFocus ;;
         s' <- get ;;
         (match uiFocusedFrame s' with
          | Some ui =>
              if isCudaFocus (types.focus ui)
              then modify (set_uiFocusedFrame (Some (mkFrame (Some 0) (Some (cuda newFocus)))))
              else ret tt
          | None => ret tt
          end) ;;
         emit (SendResponse (FocusBody newFocus)) ;;
         emit (ChangedCudaFocusEvent (Some newFocus)) ;;
         invalidateAreas ["stacks"; "variables"] ;;
         invalidateState
     | None => ret tt
     end)
    (fun error =>
       emit (SendErrorResponse 1 error) ;;
       s <- get ;;
       focusOnFrame (uiFocusedFrame s)).

End FocusController.

(** ** JavaScript numbers as the register view uses them

    A number is [Some v] for the integer [v] and [None] for [NaN].  The
    model is exact for the safe integers, those below 2^53 in absolute
    value, which covers every register value of at most 53 bits: there
    [Number.parseInt] reads the integer without rounding and [toString]
    prints its digits.  From 2^53 on the code works on a rounded double
    ([Number.parseInt] of [0xffffffffffffffff] is 2^64), and from 1e21 on
    [toString] prints an exponent; the model, which keeps the integer as
    it is written, does not follow the code there.  The properties of the
    code that depend on the value of a number are therefore stated for
    safe integers; the treatment of [NaN] does not depend on the range. *)

Definition isWhiteSpace (c : ascii) : bool :=
  let n := nat_of_ascii c in
  (Nat.eqb n 32 || Nat.eqb n 9 || Nat.eqb n 10 || Nat.eqb n 11 || Nat.eqb n 12 || Nat.eqb n 13)%bool.

Fixpoint trimStart (s : string) : string :=
  match s with
  | String c s' => if isWhiteSpace c then trimStart s' else s
  | EmptyString => s
  end.

Definition digitValue (c : ascii) : option Z :=
  let n := Z.of_nat (nat_of_ascii c) in
  if (48 <=? n) && (n <=? 57) then Some (n - 48)
  else if (97 <=? n) && (n <=? 122) then Some (n - 97 + 10)
  else if (65 <=? n) && (n <=? 90) then Some (n - 65 + 10)
  else None.

(** The longest prefix of digits of the radix; [acc] is [None] until a
    digit was read. *)
Fixpoint parseDigits (radix : Z) (s : string) (acc : option Z) : option Z :=
  match s with
  | EmptyString => acc
  | String c s' =>
      match digitValue c with
      | Some d =>
          if d <? radix
          then parseDigits radix s' (Some (radix * (match acc with Some a => a | None => 0 end) + d))
          else acc
      | None => acc
      end
  end.

(** [Number.parseInt(s)] with no radix. *)
Definition parseInt (s : string) : option Z :=
  let s := trimStart s in
  let '(sign, s) :=
    match s with
    | String "-" s' => (-1, s')
    | String "+" s' => (1, s')
    | _ => (1, s)
    end in
  let '(radix, s) :=
    match s with
    | String "0" (String "x" s') => (16, s')
    | String "0" (String "X" s') => (16, s')
    | _ => (10, s)
    end in
  option_map (Z.mul sign) (parseDigits radix s None).

Definition isNaN (n : option Z) : bool :=
  match n with None => true | Some _ => false end.

(** [n.toString()] and [n.toString(16)]. *)
Definition toString (n : option Z) : string :=
  match n with
  | None => "NaN"
  | Some v => DecimalString.NilZero.string_of_int (Z.to_int v)
  end.

Definition toString16 (n : option Z) : string :=
  match n with
  | None => "NaN"
  | Some v => HexadecimalString.NilZero.string_of_int (Z.to_hex_int v)
  end.

Fixpoint repeatString (s : string) (n : nat) : string :=
  match n with
  | O => EmptyString
  | S n' => String.append s (repeatString s n')
  end.

(** [toFixedHex] (lines 2294-2304). *)
Definition toFixedHex (value : option Z) (width : Z) : string :=
  let hexStr := toString16 value in
  if String.eqb hexStr "NaN" then hexStr
  else
    let paddingSize := Z.max 0 (width - Z.of_nat (String.length hexStr)) in
    String.append "0x" (String.append (repeatString "0" (Z.to_nat paddingSize)) hexStr).

(** ** The register view *)

Record Register : Type := mkRegister {
  ordinal : Z;
  reg_name : string
}.

Record RegisterGroup : Type := mkGroup {
  groupName : string;
  isPredicate : bool;
  isHidden : bool;
  registers : list Register
}.

(** [formatRegister] (lines 2290-2292). *)
Definition formatRegister (value : option Z) (registerGroup : RegisterGroup) : string :=
  toFixedHex value 8.

(** [registerValuesMap], a [Map<number, string>] that is only written
    with [set] and read with [get]: the newest entry of a key is in front. *)
Definition NumberMap : Type := list (option Z * string).

Definition numberMap_set (k : option Z) (v : string) (m : NumberMap) : NumberMap :=
  (k, v) :: m.

Fixpoint numberMap_get (k : Z) (m : NumberMap) : option string :=
  match m with
  | [] => None
  | (Some k', v) :: m' => if Z.eqb k' k then Some v else numberMap_get k m'
  | (None, _) :: m' => numberMap_get k m'
  end.

Definition recordPairs (pairs : list RegisterNameValuePair) (m : NumberMap) : NumberMap :=
  fold_left (fun m pair => numberMap_set (parseInt (number pair)) (pair_value pair) m) pairs m.

(** The body of [group.registers.forEach] at the end of the group branch:
    the variables one register adds to the response. *)
Definition registerVariables (group : RegisterGroup) (registerValuesMap : NumberMap)
           (reg : Register) : list Variable_ :=
  match numberMap_get (ordinal reg) registerValuesMap with
  | Some rawRegisterValue =>
      if truthy rawRegisterValue
      then
        let numericalValue := parseInt rawRegisterValue in
        (if isNaN numericalValue
         then [mkVariable (reg_name reg) rawRegisterValue]
         else [])
        ++ (if isPredicate group
            then [mkVariable (reg_name reg) (toString numericalValue)]
            else [mkVariable (reg_name reg) (formatRegister numericalValue group)])
      else []
  | None => []
  end.

Section Registers.

Variable B : GDBBackend.

(** The [catch] block of the group branch: one request per register. *)
Fixpoint fetchOneByOne (regs : list Register) (m : NumberMap) : M NumberMap :=
  match regs with
  | [] => ret m
  | reg :: rest =>
      m' <- tryCatch
              (registerValue <- send (onRegisterValues B) (DataListRegisterValues [ordinal reg]) ;;
               ret (recordPairs registerValue m))
              (fun _ => ret (numberMap_set (Some (ordinal reg)) "N/A" m)) ;;
      fetchOneByOne rest m'
  end.

(** [registersRequest] for a reference that carries a register group
    (lines 1706-1759 and the final [sendResponse]). *)
Definition registersRequest (group : RegisterGroup) : M unit :=
  registerValuesMap <-
    tryCatch
      (registerValues <- send (onRegisterValues B)
                              (DataListRegisterValues (map ordinal (registers group))) ;;
       ret (recordPairs registerValues []))
      (fun _ => fetchOneByOne (registers group) []) ;;
  emit (SendResponse (VariablesBody
          (flat_map (registerVariables group registerValuesMap) (registers group)))).

End Registers.

(** ** The disassembly request *)

Record CDTDisassembleArguments : Type := mkDisassembleArgs {
  memoryReference : string;
  offset : option Z;
  instructionOffset : option Z;
  instructionCount : Z;
  excludeRawOpcodes : option bool
}.

Definition invalidAddress : string := "??".

Definition dummyInstruction : DisassembledInstruction :=
  mkInstruction invalidAddress None "??".

(** [new Array(n).fill(v)]: a [RangeError] unless [n] is an array length. *)
Definition newArrayFill {A} (n : Z) (v : A) : M (list A) :=
  if (0 <=? n) && (n <? 2 ^ 32) then ret (repeat v (Z.to_nat n))
  else throw "RangeError: Invalid array length".

Definition unsupportedOffset : string :=
  String.append "Unsupported argument "
    (String.append (String "034"%char "Offset") (String "034"%char EmptyString)).

Section Disassemble.

(** The body of [disassembleRequest] after the test of the sentinel
    address (from the declaration of [currentInstruction] on): it is reached
    only with a reference address that is not the sentinel and is kept
    abstract here. *)
Variable disassembleFrom : CDTDisassembleArguments -> M unit.

(** [disassembleRequest] (lines 1968-1986, then [disassembleFrom]). *)
Definition disassembleRequest (args : CDTDisassembleArguments) : M unit :=
  s <- get ;;
  let args :=
    if hasFocus (cudaThread s)
    then mkDisassembleArgs (memoryReference args) (offset args) (instructionOffset args)
                           (instructionCount args) (Some true)
    else args in
  if (match offset args with Some o => negb (Z.eqb o 0) | None => false end)
  then emit (SendErrorResponse 1 unsupportedOffset)
  else if String.eqb (memoryReference args) invalidAddress
  then
    instructions <- newArrayFill (instructionCount args) dummyInstruction ;;
    emit (SendResponse (InstructionsBody instructions))
  else disassembleFrom args.

End Disassemble.

(** ** class ExecutionQueue

    The queue lives on the JavaScript event loop.  A state of the model
    holds the arrays allocated so far (the array of [this.queue] is shared
    between the field and the [for ... of] loop that walks it), the
    reference held by [this.queue], and the activations of [processQueue]
    that are suspended at their [await].  Two things happen from outside:
    a caller invokes [execute], or the promise a suspended activation
    waits for settles.  [log] records the calls of the task functions and
    of the [resolve] and [reject] callbacks, in the order they are made. *)

Module ExecutionQueue.

(** A queued item, identified by the number of its task. *)
Definition Item : Type := nat.

Inductive Outcome : Type :=
| Fulfilled (result : Z)
| Rejected (error : Error).

Inductive Action : Type :=
| Call (task : Item)                      (* fn() *)
| Resolve (task : Item) (result : Z)      (* resolve(result) *)
| Reject (task : Item) (error : Error)    (* reject(error) *).

(** A suspended activation of [processQueue]: the array it iterates and
    the index of the item whose [fn()] it awaits. *)
Record Activation : Type := mkActivation {
  array : nat;
  index : nat
}.

Record State : Type := mkState {
  heap : list (list Item);
  queue : nat;
  activations : list Activation;
  log : list Action
}.

(** [new ExecutionQueue()]: the field holds a fresh empty array. *)
Definition init : State := mkState [[]] 0 [] [].

Inductive Event : Type :=
| Execute (task : Item)
| Settle (activation : nat) (o : Outcome).

Fixpoint store {A} (i : nat) (v : A) (l : list A) : list A :=
  match l, i with
  | [], _ => []
  | _ :: l', O => v :: l'
  | a :: l', S i' => a :: store i' v l'
  end.

Fixpoint remove_nth {A} (i : nat) (l : list A) : list A :=
  match l, i with
  | [], _ => []
  | _ :: l', O => l'
  | a :: l', S i' => a :: remove_nth i' l'
  end.

Definition deliver (task : Item) (o : Outcome) : Action :=
  match o with
  | Fulfilled result => Resolve task result
  | Rejected error => Reject task error
  end.

(** One turn of the loop of [processQueue] at position [i] of array [a]:
    either the next task function is called and the activation suspends
    again, or the iteration is over, [this.queue] gets a fresh array and
    the activation ends.  [others] are the other suspended activations. *)
Definition advance (a i : nat) (others : list Activation) (insertAt : nat) (s : State)
  : option State :=
  match nth_error (heap s) a with
  | None => None
  | Some items =>
      match nth_error items i with
      | Some task =>
          Some (mkState (heap s) (queue s)
                        (firstn insertAt others ++ mkActivation a i :: skipn insertAt others)
                        (log s ++ [Call task]))
      | None =>
          Some (mkState (heap s ++ [[]]) (List.length (heap s)) others (log s))
      end
  end.

(** [execute(fn)]: the executor of the promise pushes the item and starts
    [processQueue] when the array then has length one. *)
Definition execute (task : Item) (s : State) : option State :=
  match nth_error (heap s) (queue s) with
  | None => None
  | Some items =>
      let items' := items ++ [task] in
      let s' := mkState (store (queue s) items' (heap s)) (queue s) (activations s) (log s) in
      if Nat.eqb (List.length items') 1
      then advance (queue s) 0 (activations s) (List.length (activations s)) s'
      else Some s'
  end.

(** The awaited promise of activation [k] settles: the outcome goes to the
    callbacks of the item, and the loop takes its next turn. *)
Definition settle (k : nat) (o : Outcome) (s : State) : option State :=
  match nth_error (activations s) k with
  | None => None
  | Some act =>
      match nth_error (heap s) (array act) with
      | None => None
      | Some items =>
          match nth_error items (index act) with
          | None => None
          | Some task =>
              advance (array act) (S (index act)) (remove_nth k (activations s)) k
                      (mkState (heap s) (queue s) (activations s) (log s ++ [deliver task o]))
          end
      end
  end.

Definition step (e : Event) (s : State) : option State :=
  match e with
  | Execute task => execute task s
  | Settle k o => settle k o s
  end.

(** A run of events; [None] when an event cannot happen (a settlement
    with no activation waiting for it). *)
Fixpoint run (es : list Event) (s : State) : option State :=
  match es with
  | [] => Some s
  | e :: es' =>
      match step e s with
      | Some s' => run es' s'
      | None => None
      end
  end.

(** The tasks submitted and the outcomes delivered by a list of events,
    in order. *)
Definition submitted (es : list Event) : list Item :=
  flat_map (fun e => match e with Execute t => [t] | Settle _ _ => [] end) es.

Definition outcomes (es : list Event) : list Outcome :=
  flat_map (fun e => match e with Execute _ => [] | Settle _ o => [o] end) es.

(** The log of a strictly sequential queue, in the words of the
    specification: the tasks are taken in arrival order, each one is
    called only after the outcome of the one before it was delivered to
    its own callbacks, and the first task without an outcome is running. *)
Fixpoint sequential (tasks : list Item) (os : list Outcome) : list Action :=
  match tasks with
  | [] => []
  | t :: tasks' =>
      match os with
      | [] => [Call t]
      | o :: os' => Call t :: deliver t o :: sequential tasks' os'
      end
  end.

(** The invariant of the reachable states.

    The tasks submitted so far are those of the batches already drained
    followed by the array of [this.queue]; either that array is empty and
    no activation is suspended, or exactly one activation iterates it and
    awaits the first task without an outcome. *)
Definition Inv (s : State) (ts : list Item) (os : list Outcome) : Prop :=
  log s = sequential ts os
  /\ exists drained items,
      ts = drained ++ items
      /\ nth_error (heap s) (queue s) = Some items
      /\ ((items = [] /\ activations s = [] /\ List.length os = List.length drained)
          \/ (exists i, activations s = [mkActivation (queue s) i]
                        /\ (i < List.length items)%nat
                        /\ List.length os = (List.length drained + i)%nat)).

End ExecutionQueue.

(** ** Sequences of stops and locals requests *)

(** What a store sees between two resumes: the session handles a
    [stopped] record of the backend, or the IDE asks for the locals of a
    frame.  The backend met by each event is part of the event. *)
Inductive StoreEvent : Type :=
| Stopped (B : GDBBackend) (resultData : AsyncData)
| LocalsRequest (B : GDBBackend) (focus : option Focus) (frameId : Z).

Definition happen (e : StoreEvent) (s : Session) : Session :=
  match e with
  | Stopped B resultData => snd (handleGDBAsync B "stopped" resultData s)
  | LocalsRequest B focus frameId => snd (getLocals B focus frameId s)
  end.

Definition happenAll (es : list StoreEvent) (s : Session) : Session :=
  fold_left (fun s e => happen e s) es s.

(** The number of variable-object create and delete commands in a log. *)
Definition varObjectOps (l : list Cmd) : nat :=
  List.length (filter (fun c => isVarCreate c || isVarDelete c) l).

Definition localsOf (s : Session) : list SimplifiedVarObjType :=
  valuesOfKind local (varStore s).

(** The fetched list has the names and types of the stored local objects. *)
Definition sameShape (fetched : list MIVariableInfo) (objs : list SimplifiedVarObjType) : Prop :=
  Permutation (map (fun sl => (vi_name sl, vi_type sl)) fetched)
              (map (fun vo => (expression vo, type vo)) objs).

Definition framesCmd (focus : Focus) : Cmd :=
  StackListFrames (match focus with thread n => Some n | cuda _ => None end).

Definition localsCmd (focus : Focus) (frameId : Z) : Cmd :=
  match focus with
  | thread n => StackListVariables (Some (n, frameId))
  | cuda _ => StackListVariables None
  end.

(** A locals request that changes nothing: focus, frame and function name
    are those of the execution context, and the list the backend would
    give has the shape of the stored locals.  [nameOk] and [listOk] are
    further conditions on the resolved name and on the list. *)
Definition unchanged (nameOk : option string -> Prop) (listOk : list MIVariableInfo -> Prop)
           (B : GDBBackend) (focus : Focus) (frameId : Z) (s : Session) : Prop :=
  threadIdChanged (varStore s) focus = false
  /\ ctx_frameId (execContext (varStore s)) = Some frameId
  /\ (forall frameInfo rest,
        onStackListFrames B (sent s ++ [framesCmd focus]) = Ok (frameInfo :: rest) ->
        func frameInfo = functionName (execContext (varStore s)) /\ nameOk (func frameInfo))
  /\ (forall fetched,
        onStackListVariables B (sent s ++ [framesCmd focus] ++ [localsCmd focus frameId]) = Ok fetched ->
        sameShape fetched (localsOf s) /\ listOk fetched).

Definition unchangedEvent (nameOk : option string -> Prop) (listOk : list MIVariableInfo -> Prop)
           (e : StoreEvent) (s : Session) : Prop :=
  match e with
  | LocalsRequest B (Some focus) frameId => unchanged nameOk listOk B focus frameId s
  | _ => True
  end.

Fixpoint unchangedRun (nameOk : option string -> Prop) (listOk : list MIVariableInfo -> Prop)
         (es : list StoreEvent) (s : Session) : Prop :=
  match es with
  | [] => True
  | e :: es' => unchangedEvent nameOk listOk e s /\ unchangedRun nameOk listOk es' (happen e s)
  end.

(** The claim as it is worded puts no further condition. *)
Definition anyName (n : option string) : Prop := True.
Definition anyList (l : list MIVariableInfo) : Prop := True.

(** What the code needs in addition: a function name that is defined and
    not empty, and a list without repeated names. *)
Definition knownName (n : option string) : Prop := truthy_opt n = true.
Definition distinctNames (l : list MIVariableInfo) : Prop := NoDup (map vi_name l).

(** A backend that always gives the same answers. *)
Definition constantBackend (stack : Result (list MIFrameInfo))
           (locals : Result (list MIVariableInfo))
           (created : Result MIVarCreateResponse)
           (changes : Result (list VarUpdateChanges))
           (plain : Result unit) : GDBBackend :=
  mkBackend (fun _ => stack) (fun _ => locals) (fun _ => created) (fun _ => changes)
            (fun _ => Throw "no registers") (fun _ => plain).

(** A frame with no function name and one local [i] of type [int]. *)
Definition anonymousFrameBackend : GDBBackend :=
  constantBackend (Ok [mkFrameInfo None]) (Ok [mkVarInfo "i" "int"])
                  (Ok (mkCreated "var1" "0" "7" "int")) (Ok []) (Ok tt).

(** The same in a function [main]. *)
Definition mainFrameBackend : GDBBackend :=
  constantBackend (Ok [mkFrameInfo (Some "main")]) (Ok [mkVarInfo "i" "int"])
                  (Ok (mkCreated "var1" "0" "7" "int")) (Ok []) (Ok tt).

(** The commands a computation writes when it is run from [s]. *)
Definition issuedBy {A} (m : M A) (s : Session) : list Cmd :=
  skipn (List.length (sent s)) (sent (snd (m s))).

(** The test that lets [validate] return after [updateLocals] alone. *)
Definition takesShortCut (st : VariableObjectStore) (focus : Focus) (frameId : Z) : bool :=
  negb (threadIdChanged st focus)
  && utils.option_eqb Z.eqb (ctx_frameId (execContext st)) (Some frameId)
  && match resumed (execContext st) with
     | Some false => true
     | _ => false
     end.

(** ** The update path of a locals request *)

(** A list of commands is the beginning of another. *)
Definition startOf (l full : list Cmd) : Prop := exists rest, full = l ++ rest.

(** The commands of a locals request that only updates: the stack-frames
    command, the stack-locals command unless [validate] takes the short
    cut, and the update command. *)
Definition updateCommands (focus : Focus) (frameId : Z) (s : Session) : list Cmd :=
  framesCmd focus
  :: (if takesShortCut (varStore s) focus frameId then [] else [localsCmd focus frameId])
  ++ [VarUpdate].

(** A locals request that runs the update path and nothing else.  When
    it returns it has written [updateCommands], the map of the store is
    the map before with the changes the backend reported applied by
    [update], the execution context is as before, and the result is the
    list of the local objects.  When it fails it has written a beginning
    of [updateCommands] and the store is as before. *)
Definition updatePath (B : GDBBackend) (focus : Focus) (frameId : Z) (s : Session) : Prop :=
  let s' := snd (getLocals B (Some focus) frameId s) in
  match fst (getLocals B (Some focus) frameId s) with
  | Ok result =>
      issuedBy (getLocals B (Some focus) frameId) s = updateCommands focus frameId s
      /\ (exists changes,
             onVarUpdate B (sent s') = Ok changes
             /\ byName (varStore s') = fold_left applyChange changes (byName (varStore s)))
      /\ execContext (varStore s') = execContext (varStore s)
      /\ result = localsOf s'
  | Throw _ =>
      startOf (issuedBy (getLocals B (Some focus) frameId) s) (updateCommands focus frameId s)
      /\ varStore s' = varStore s
  end.

Definition updatePathEvent (e : StoreEvent) (s : Session) : Prop :=
  match e with
  | LocalsRequest B (Some focus) frameId => updatePath B focus frameId s
  | _ => True
  end.

(** Every locals request of a run is on the update path. *)
Fixpoint updatePathRun (es : list StoreEvent) (s : Session) : Prop :=
  match es with
  | [] => True
  | e :: es' => updatePathEvent e s /\ updatePathRun es' (happen e s)
  end.

(** The session after the locals of frame 0 of thread 1 were asked for
    once, in [main] and in a frame with no function name. *)
Definition materializedMain : Session :=
  happen (LocalsRequest mainFrameBackend (Some (thread 1)) 0) newSession.

Definition materializedAnonymous : Session :=
  happen (LocalsRequest anonymousFrameBackend (Some (thread 1)) 0) newSession.

(** ** The commands of a focus switch *)

(** The commands that select a focus and a frame on a backend of which
    no frame is recorded: the focus command and, with a frame id, the
    frame command. *)
Definition selectCommands (focus : Focus) (frameId : option Z) : list Cmd :=
  (match focus with
   | cuda f => [SetCudaFocus f]
   | thread n => [ThreadSelect n]
   end)
  ++ (match frameId with
      | Some n => [FrameSelect n]
      | None => []
      end).

(** ** Concrete backends and sessions for the focus controller *)

(** A backend that accepts every command, and one that rejects exactly
    the commands [bad]. *)
Definition acceptingBackend : GDBBackend :=
  constantBackend (Ok [mkFrameInfo (Some "main")]) (Ok []) (Throw "no variable") (Ok []) (Ok tt).

Definition rejectingBackend (bad : Cmd -> bool) : GDBBackend :=
  mkBackend (fun _ => Ok [mkFrameInfo (Some "main")]) (fun _ => Ok [])
            (fun _ => Throw "no variable") (fun _ => Ok [])
            (fun _ => Throw "no registers")
            (fun h => match rev h with
                      | c :: _ => if bad c then Throw "rejected" else Ok tt
                      | [] => Ok tt
                      end).

Definition isThreadSelect (n : Z) (c : Cmd) : bool :=
  match c with ThreadSelect m => Z.eqb m n | _ => false end.

(** A session whose backend is known to be at frame 0 of thread 1. *)
Definition onThread1 : Session :=
  set_gdbFocusedFrame (Some (mkFrame (Some 0) (Some (thread 1)))) newSession.

Definition origin : CudaDim := mkCudaDim (Some 0) (Some 0) (Some 0).

Definition softwareOrigin : CudaFocus := software (Some origin) (Some origin).

(** A session stopped on the device at block (0,0,0), thread (0,0,0),
    with the backend focused there. *)
Definition onDevice : Session :=
  set_gdbFocusedFrame (Some (mkFrame (Some 0) (Some (cuda softwareOrigin))))
    (set_cudaThread (mkThread (Some softwareOrigin)) newSession).

(** A session stopped on the device at block (1,2,3), thread (4,5,6),
    with the backend focused there. *)
Definition block123 : CudaDim := mkCudaDim (Some 1) (Some 2) (Some 3).

Definition thread456 : CudaDim := mkCudaDim (Some 4) (Some 5) (Some 6).

Definition software123456 : CudaFocus := software (Some block123) (Some thread456).

Definition onDeviceAt : Session :=
  set_gdbFocusedFrame (Some (mkFrame (Some 0) (Some (cuda software123456))))
    (set_cudaThread (mkThread (Some software123456)) newSession).

(** A request that names [threadIdx.x] alone. *)
Definition threadIdxX (v : Z) : CudaFocus :=
  software None (Some (mkCudaDim (Some v) None None)).

(** A backend that has no thread of index 7 in a block: it rejects the
    focus command of a software focus whose [threadIdx.x] is 7 and
    accepts every other command. *)
Definition isFocusOnThreadX (v : Z) (c : Cmd) : bool :=
  match c with
  | SetCudaFocus (software _ (Some d)) =>
      match x d with
      | Some w => Z.eqb w v
      | None => false
      end
  | _ => false
  end.

Definition noThread7Backend : GDBBackend := rejectingBackend (isFocusOnThreadX 7).

(** ** The merge of a focus request, in the words of the specification *)

Definition component (c : CudaDim -> option Z) (d : option CudaDim) : option Z :=
  match d with Some d => c d | None => None end.

(** The requested value if there is one, else the current one, else 0. *)
Definition inherit (requested current : option Z) : Z :=
  match requested, current with
  | Some v, _ => v
  | None, Some v => v
  | None, None => 0
  end.

Definition mergedDim (requested current : option CudaDim) : CudaDim :=
  mkCudaDim (Some (inherit (component x requested) (component x current)))
            (Some (inherit (component y requested) (component y current)))
            (Some (inherit (component z requested) (component z current))).

(** ** Concrete register groups *)

Definition generalGroup : RegisterGroup :=
  mkGroup "R" false false [mkRegister 0 "R0"].

Definition predicateGroup : RegisterGroup :=
  mkGroup "P" true false [mkRegister 7 "P0"].

(** A backend whose register values cannot be read: every register-value
    request fails. *)
Definition noRegistersBackend : GDBBackend := acceptingBackend.

(** A backend that answers every register-value request with [pairs]. *)
Definition registersBackend (pairs : list RegisterNameValuePair) : GDBBackend :=
  mkBackend (fun _ => Ok []) (fun _ => Ok []) (fun _ => Throw "no variable") (fun _ => Ok [])
            (fun _ => Ok pairs) (fun _ => Ok tt).

(** A frame of [main] with two locals of the same name [i] (a block that
    shadows a local of the enclosing block); the backend numbers the
    variable objects it creates. *)
Definition shadowingBackend : GDBBackend :=
  mkBackend (fun _ => Ok [mkFrameInfo (Some "main")])
            (fun _ => Ok [mkVarInfo "i" "int"; mkVarInfo "i" "int"])
            (fun h => Ok (mkCreated
                            (String.append "var"
                               (DecimalString.NilZero.string_of_uint
                                  (Nat.to_uint (List.length (filter isVarCreate h)))))
                            "0" "7" "int"))
            (fun _ => Ok [])
            (fun _ => Throw "no registers")
            (fun _ => Ok tt).

Definition materializedShadowing : Session :=
  happen (LocalsRequest shadowingBackend (Some (thread 1)) 0) newSession.

(** ** Auxiliary notions of the proofs *)

(** A computation only appends to the log of commands. *)
Definition appends {A} (m : M A) : Prop :=
  forall s, exists l, sent (snd (m s)) = sent s ++ l.

(** Two sessions that differ at most in the commands written and in the
    recorded backend frame. *)
Definition sameButBackendFocus (s s' : Session) : Prop :=
  cudaThread s' = cudaThread s /\ uiFocusedFrame s' = uiFocusedFrame s
  /\ varStore s' = varStore s /\ emitted s' = emitted s.

From Stdlib Require Import Sorted.
From Stdlib Require DecimalPos HexadecimalPos.


(** ** More of class VariableObjectStore *)

Section VariableObjectStoreMore.

Variable B : GDBBackend.

(** [evaluate] (lines 380-404); the call of [logger.error] leaves no
    trace in the session. *)
Definition evaluate (expression : string) : M (option SimplifiedVarObjType) :=
  s <- get ;;
  if negb (gdb (varStore s)) then ret None
  else
    tryCatch
      (varCreateResp <- send (onVarCreate B) (VarCreate expression) ;;
       let varObj :=
         mkVarObj (cr_name varCreateResp) expression (cr_numchild varCreateResp)
                  (cr_value varCreateResp) (cr_type varCreateResp) watch in
       modifyStore (fun st => set_byName (JSMap.set (varname varObj) varObj (byName st)) st) ;;
       ret (Some varObj))
      (fun _ => ret None).

(** [getLocalByName] (lines 418-420). *)
Definition getLocalByName (localName : string) (st : VariableObjectStore)
  : option SimplifiedVarObjType :=
  hd_error (filter (fun vo => String.eqb (expression vo) localName) (JSMap.values (byName st))).

(** [updateLocal] (lines 422-430). *)
Definition updateLocal (varObjName : string) (update : VarUpdateChanges)
  : M (option SimplifiedVarObjType) :=
  s <- get ;;
  match JSMap.get varObjName (byName (varStore s)) with
  | Some varObj =>
      let varObj' := updateVarObj varObj update in
      modifyStore (fun st => set_byName (JSMap.set varObjName varObj' (byName st)) st) ;;
      ret (Some varObj')
  | None => ret None
  end.

End VariableObjectStoreMore.

(** What can happen to the store of a session: the requests that reach
    it and the stop records of the backend. *)
Inductive StoreOp : Type :=
| OpEvaluate (B : GDBBackend) (expression : string)
| OpGetLocals (B : GDBBackend) (focus : option Focus) (frameId : Z)
| OpUpdate (B : GDBBackend)
| OpUpdateLocal (varObjName : string) (update : VarUpdateChanges)
| OpClearWatches (B : GDBBackend)
| OpStopped (B : GDBBackend) (resultData : AsyncData).

Definition perform (op : StoreOp) (s : Session) : Session :=
  match op with
  | OpEvaluate B expression => snd (evaluate B expression s)
  | OpGetLocals B focus frameId => snd (getLocals B focus frameId s)
  | OpUpdate B => snd (update B s)
  | OpUpdateLocal varObjName change => snd (updateLocal varObjName change s)
  | OpClearWatches B => snd (clearWatches B s)
  | OpStopped B resultData => snd (handleGDBAsync B "stopped" resultData s)
  end.

Definition performAll (ops : list StoreOp) (s : Session) : Session :=
  fold_left (fun s op => perform op s) ops s.

(** The map [byName] is a map (no key twice) and every object is filed
    under its own [varname]. *)
Definition filedByName (m : JSMap.t SimplifiedVarObjType) : Prop :=
  NoDup (map fst m) /\ Forall (fun kv => fst kv = varname (snd kv)) m.

(** A property of sessions that a computation keeps. *)
Definition keeps {A} (P : Session -> Prop) (m : M A) : Prop :=
  forall s, P s -> P (snd (m s)).

(** A property of the map of variable objects, as a property of sessions. *)
Definition onMap (Q : JSMap.t SimplifiedVarObjType -> Prop) (s : Session) : Prop :=
  Q (byName (varStore s)).

(** What [update] cannot change in an object. *)
Definition identityOf (vo : SimplifiedVarObjType) : string * string * Kind :=
  (varname vo, expression vo, kind vo).

Definition isKind (k : Kind) (vo : SimplifiedVarObjType) : bool := Kind_eqb (kind vo) k.

(** A backend with one watch-able expression and numbered objects, for
    the examples: it creates [var1], [var2], ... *)
Definition numberingBackend (locals : list MIVariableInfo) (deletes : list Cmd -> Result unit)
  : GDBBackend :=
  mkBackend (fun _ => Ok [mkFrameInfo (Some "main")])
            (fun _ => Ok locals)
            (fun h => Ok (mkCreated
                            (String.append "var"
                               (DecimalString.NilZero.string_of_uint
                                  (Nat.to_uint (List.length (filter isVarCreate h)))))
                            "0" "7" "int"))
            (fun _ => Ok [])
            (fun _ => Throw "no registers")
            deletes.

(** A session with two locals [a], [b] and one watch [a + b]. *)
Definition twoLocalsOneWatch : Session :=
  performAll [OpGetLocals (numberingBackend [mkVarInfo "a" "int"; mkVarInfo "b" "int"]
                                            (fun _ => Ok tt))
                          (Some (thread 1)) 0;
              OpEvaluate (numberingBackend [] (fun _ => Ok tt)) "a + b"]
             newSession.

(** A property of the store, as a property of sessions. *)
Definition onStore (R : VariableObjectStore -> Prop) (s : Session) : Prop :=
  R (varStore s).

Definition deleteCommands (k : Kind) (s : Session) : list Cmd :=
  map (fun vo => VarDelete (varname vo)) (valuesOfKind k (varStore s)).

(** A backend that accepts the first [n] delete commands of a session
    and rejects every later one. *)
Definition fewDeletesBackend (n : nat) : GDBBackend :=
  numberingBackend []
    (fun h => if Nat.leb (List.length (filter isVarDelete h)) n then Ok tt
              else Throw "variable object not found").

(** The key and the identity of every entry of a map, in order. *)
Definition skeleton (m : JSMap.t SimplifiedVarObjType) : list (string * (string * string * Kind)) :=
  map (fun kv => (fst kv, identityOf (snd kv))) m.

(** A backend whose update reports a change of value and type for the
    objects [var1] and [var3]. *)
Definition changingBackend : GDBBackend :=
  mkBackend (fun _ => Ok [mkFrameInfo (Some "main")]) (fun _ => Ok [])
            (fun _ => Throw "-var-create: unable to create variable object")
            (fun _ => Ok [mkChange "var1" "8" "true" "true" "0" "long" "0";
                          mkChange "var3" "9" "true" "false" "0" "" ""])
            (fun _ => Throw "no registers") (fun _ => Ok tt).

Definition createCommands (fetched : list MIVariableInfo) : list Cmd :=
  map (fun sl => VarCreate (vi_name sl)) fetched.

(** The focus or the frame id of a request is not that of the context. *)
Definition contextChanged (st : VariableObjectStore) (focus : Focus) (frameId : Z) : bool :=
  threadIdChanged st focus
  || negb (utils.option_eqb Z.eqb (ctx_frameId (execContext st)) (Some frameId)).

(** An entry of a fetched list that no stored local matches in name and
    type. *)
Definition unmatched (sl : MIVariableInfo) (locals : list SimplifiedVarObjType) : Prop :=
  forall vo, In vo locals -> expression vo = vi_name sl -> type vo <> vi_type sl.

(** The session of [materializedShadowing], which holds two locals of the
    name [i], after a stop record; and a backend whose frame has one
    local [i] left. *)
Definition shadowingStopped : Session :=
  happen (Stopped shadowingBackend (mkAsync None)) materializedShadowing.

Definition oneLocalBackend : GDBBackend :=
  constantBackend (Ok [mkFrameInfo (Some "main")]) (Ok [mkVarInfo "i" "int"])
                  (Ok (mkCreated "var9" "0" "7" "int")) (Ok []) (Ok tt).

(** The session of [twoLocalsOneWatch] after a stop record. *)
Definition twoLocalsStopped : Session :=
  perform (OpStopped (numberingBackend [] (fun _ => Ok tt)) (mkAsync None)) twoLocalsOneWatch.

(** ** More on the execution queue *)

Module ExecutionQueueCounts.

Import ExecutionQueue.

Definition isCall (a : Action) : bool :=
  match a with Call _ => true | _ => false end.

(** The calls of task functions and the outcomes delivered in a log. *)
Definition calls (l : list Action) : nat := List.length (filter isCall l).

Definition delivered (l : list Action) : nat :=
  List.length (filter (fun a => negb (isCall a)) l).

End ExecutionQueueCounts.

(** ** class InvalidationCompleteTrigger (lines 598-617)

    [expectedRequests] is a [Set] of strings, kept in insertion order;
    the callback [onceComplete] is represented by the count of its calls. *)

Module InvalidationCompleteTrigger.

Definition set_has (x : string) (l : list string) : bool :=
  existsb (String.eqb x) l.

Definition set_add (l : list string) (x : string) : list string :=
  if set_has x l then l else l ++ [x].

Definition set_delete (x : string) (l : list string) : list string :=
  filter (fun y => negb (String.eqb x y)) l.

Record State : Type := mkTrigger {
  expectedRequests : list string;
  completions : nat
}.

(** The constructor: [new Set(expectedRequests)]. *)
Definition make (expected : list string) : State :=
  mkTrigger (fold_left set_add expected []) 0.

(** [resolve(request)]: the result and the state after it. *)
Definition resolve (request : string) (t : State) : bool * State :=
  let expected := set_has request (expectedRequests t) in
  let remaining := set_delete request (expectedRequests t) in
  if expected && Nat.eqb (List.length remaining) 0
  then (true, mkTrigger remaining (S (completions t)))
  else (false, mkTrigger remaining (completions t)).

(** Calls of [resolve] one after the other: the results and the final
    state. *)
Fixpoint resolveAll (requests : list string) (t : State) : list bool * State :=
  match requests with
  | [] => ([], t)
  | r :: rest =>
      let '(b, t') := resolve r t in
      let '(bs, t'') := resolveAll rest t' in
      (b :: bs, t'')
  end.

(** Every expected request was resolved, and there was one at least. *)
Definition allResolved (expected requests : list string) : bool :=
  negb (Nat.eqb (List.length expected) 0)
  && forallb (fun x => set_has x requests) expected.

(** [expectedRequests.size === 0]. *)
Definition isEmpty (l : list string) : bool := Nat.eqb (List.length l) 0.

(** The count of completions at any time: one if a set that was not
    empty has been emptied, none otherwise. *)
Definition counted (nonEmptyAtStart : bool) (t : State) : Prop :=
  completions t = (if nonEmptyAtStart && isEmpty (expectedRequests t) then 1 else 0)%nat
  /\ (nonEmptyAtStart = false -> expectedRequests t = []).

(** The number of [true] in a list of answers. *)
Fixpoint countTrue (bs : list bool) : nat :=
  match bs with
  | [] => 0
  | b :: bs' => ((if b then 1 else 0) + countTrue bs')%nat
  end.

End InvalidationCompleteTrigger.

(** ** More of the session *)

Section SessionMore.

Variable B : GDBBackend.

(** [resetSelectedFocusRequest] (lines 2263-2269). *)
Definition resetSelectedFocusRequest : M unit :=
  tryCatch
    (s <- get ;; focusOnFrame B (uiFocusedFrame s))
    (fun error => emit (SendErrorResponse 1 error)).

End SessionMore.

(** What reaches a session: records of the backend and requests of the
    IDE, each with the backend it meets. *)
Inductive SessionEvent : Type :=
| EvAsync (B : GDBBackend) (resultClass : string) (resultData : AsyncData)
| EvChangeCudaFocus (B : GDBBackend) (focus : CudaFocus)
| EvResetSelectedFocus (B : GDBBackend)
| EvFocusOnFrame (B : GDBBackend) (frame : option RealizedFrameReference)
| EvLocals (B : GDBBackend) (realizedFrame : RealizedFrameReference) (frameId : Z)
| EvRegisters (B : GDBBackend) (group : RegisterGroup)
| EvStore (op : StoreOp).

Definition occur (e : SessionEvent) (s : Session) : Session :=
  match e with
  | EvAsync B resultClass resultData => snd (handleGDBAsync B resultClass resultData s)
  | EvChangeCudaFocus B focus => snd (changeCudaFocusRequest B focus s)
  | EvResetSelectedFocus B => snd (resetSelectedFocusRequest B s)
  | EvFocusOnFrame B frame => snd (focusOnFrame B frame s)
  | EvLocals B realizedFrame frameId => snd (localsRequest B realizedFrame frameId s)
  | EvRegisters B group => snd (registersRequest B group s)
  | EvStore op => perform op s
  end.

Definition occurAll (es : list SessionEvent) (s : Session) : Session :=
  fold_left (fun s e => occur e s) es s.

(** The pseudo-thread has no focus or a focus in software coordinates. *)
Definition notHardware (f : option CudaFocus) : Prop :=
  match f with
  | Some (hardware _ _ _) => False
  | _ => True
  end.

Definition isFocusResponse (o : Output) : bool :=
  match o with
  | SendResponse (FocusBody _) => true
  | _ => false
  end.

(** The outputs a computation gives when it is run from [s]. *)
Definition emittedBy {A} (m : M A) (s : Session) : list Output :=
  skipn (List.length (emitted s)) (emitted (snd (m s))).

(** ** The register grouper (lines 1774-1829 of [registersRequest])

    [matches pattern name] stands for the test
    [registerName.match(group.groupPattern)] of a name against the
    regular expression built from the pattern of a group definition; the
    definitions of [deviceRegisterGroups.json] are a parameter. *)

Record RegisterGroupDefinition : Type := mkGroupDefinition {
  def_groupName : string;
  def_groupPattern : string;
  def_isPredicate : bool;
  def_isHidden : bool
}.

Section RegisterGrouper.

Variable matches : string -> string -> bool.

(** A group under construction: its pattern and the group. *)
Definition newRegisterGroup (def : RegisterGroupDefinition) : string * RegisterGroup :=
  (def_groupPattern def,
   mkGroup (def_groupName def) (def_isPredicate def) (def_isHidden def) []).

(** The loop over [registerGroups] with its [break]: the index of the
    first group whose pattern matches. *)
Fixpoint findGroup (groups : list (string * RegisterGroup)) (registerName : string)
  : option nat :=
  match groups with
  | [] => None
  | (groupPattern, _) :: rest =>
      if matches groupPattern registerName then Some O
      else option_map S (findGroup rest registerName)
  end.

(** [matchingGroup.registers.push(register)] for the group at index [i]. *)
Fixpoint pushRegister (i : nat) (register : Register) (groups : list (string * RegisterGroup))
  : list (string * RegisterGroup) :=
  match groups, i with
  | [], _ => []
  | (p, g) :: rest, O =>
      (p, mkGroup (groupName g) (isPredicate g) (isHidden g) (registers g ++ [register])) :: rest
  | pg :: rest, S i' => pg :: pushRegister i' register rest
  end.

(** The state of the loop over the register names: the groups, the set
    [recordedRegisterNames] and the index of the next name. *)
Definition GrouperState : Type := list (string * RegisterGroup) * list string * nat.

(** The callback of [parsedRegNames.forEach]. *)
Definition classifyName (isCUDA : bool) (st : GrouperState) (registerName : string)
  : GrouperState :=
  let '(groups, recorded, ordinal) := st in
  if Nat.eqb (String.length registerName) 0 then (groups, recorded, S ordinal)
  else if isCUDA && InvalidationCompleteTrigger.set_has registerName recorded
  then (groups, recorded, S ordinal)
  else
    let recorded' :=
      if isCUDA then InvalidationCompleteTrigger.set_add recorded registerName else recorded in
    match findGroup groups registerName with
    | Some i =>
        (pushRegister i (mkRegister (Z.of_nat ordinal) registerName) groups, recorded', S ordinal)
    | None => (groups, recorded', S ordinal)
    end.

Definition classifyFrom (isCUDA : bool) (names : list string) (st : GrouperState)
  : GrouperState :=
  fold_left (classifyName isCUDA) names st.

(** The groups of [reference.registerData] for the names the backend
    lists. *)
Definition classify (isCUDA : bool) (definitions : list RegisterGroupDefinition)
           (parsedRegNames : list string) : list RegisterGroup :=
  map snd (fst (fst (classifyFrom isCUDA parsedRegNames
                       (map newRegisterGroup definitions, [], O)))).

(** The variables of the response: one for every group that has
    registers and is not hidden. *)
Definition groupVariables (groups : list RegisterGroup) : list Variable_ :=
  map (fun g => mkVariable (groupName g) EmptyString)
      (filter (fun g => (0 <? Z.of_nat (List.length (registers g))) && negb (isHidden g)) groups).

Definition registersAt (i : nat) (groups : list (string * RegisterGroup)) : list Register :=
  match nth_error groups i with
  | Some (_, g) => registers g
  | None => []
  end.

(** The name at position [k] of the list is taken: it is not empty and,
    for a device, it does not occur before [k]. *)
Definition taken (isCUDA : bool) (names : list string) (k : nat) (name : string) : Prop :=
  nth_error names k = Some name
  /\ name <> EmptyString
  /\ (isCUDA = true -> forall j, (j < k)%nat -> nth_error names j <> Some name).

(** Pattern [i] is the first one that matches the name. *)
Definition firstMatch (patterns : list string) (name : string) (i : nat) : Prop :=
  (exists p, nth_error patterns i = Some p /\ matches p name = true)
  /\ forall j q, (j < i)%nat -> nth_error patterns j = Some q -> matches q name = false.

(** The invariant of the loop after the names [seen]. *)
Definition grouped (isCUDA : bool) (patterns : list string) (seen : list string)
           (st : GrouperState) : Prop :=
  let '(groups, recorded, next) := st in
  next = List.length seen
  /\ map fst groups = patterns
  /\ (isCUDA = true ->
      forall x, InvalidationCompleteTrigger.set_has x recorded = true
                <-> (x <> EmptyString /\ In x seen))
  /\ (forall i r,
        In r (registersAt i groups)
        <-> exists k, ordinal r = Z.of_nat k /\ taken isCUDA seen k (reg_name r)
                      /\ findGroup groups (reg_name r) = Some i)
  /\ (forall i, StronglySorted (fun a b => ordinal a < ordinal b) (registersAt i groups)).

End RegisterGrouper.

(** ** Disassembling backward (lines 1895-1966)

    [sendDataDisassemble] and [flattenDisassembledInstructions] are not
    part of the sources.  The first is a command to the backend whose
    answer comes from an oracle of its own; the request of the command
    is written as the options of [-data-disassemble]: [-a] with an
    address, or [-s] and [-e] with the two ends of a range.  The second
    is a parameter: it is given the instructions of the answer, the
    array to fill and the number of instructions to skip, and the model
    takes the content it leaves in the array. *)

Definition addressRequest (address : string) : Cmd :=
  DataDisassemble (String.append "-a " address).

Definition rangeRequest (startAddress endAddress : string) : Cmd :=
  DataDisassemble
    (String.append "-s " (String.append startAddress (String.append " -e " endAddress))).

Definition numberOfBackwardDisassembleSteps : nat := 16.

(** The template string of [addressToTry]. *)
Definition addressToTry (address : string) (backwardDisassembleStepSize : Z) (i : nat) : string :=
  String.append "("
    (String.append address
       (String.append ")-" (toString (Some (Z.of_nat i * backwardDisassembleStepSize))))).

Section DisassembleBackward.

Variable AsmInsns : Type.
Variable onDataDisassemble : list Cmd -> Result AsmInsns.
Variable flattenDisassembledInstructions :
  AsmInsns -> list DisassembledInstruction -> Z -> list DisassembledInstruction.
Variable getSassInstructionSize : M (option Z).

(** [getInstructionSizeEstimate] (lines 1895-1903). *)
Definition getInstructionSizeEstimate : M (option Z) :=
  s <- get ;;
  if hasFocus (cudaThread s) then getSassInstructionSize
  else ret (Some 4).

(** A number in a condition, and a product with a number that may be
    [undefined]. *)
Definition truthyNumber (n : option Z) : bool :=
  match n with Some v => negb (Z.eqb v 0) | None => false end.

(** [getBackwardDisassembleStepSize] (lines 1914-1925). *)
Definition getBackwardDisassembleStepSize : M (option Z) :=
  s <- get ;;
  if hasFocus (cudaThread s)
  then
    sassInstructionSize <- getSassInstructionSize ;;
    ret (if truthyNumber sassInstructionSize
         then option_map (fun size => size * 16) sassInstructionSize
         else None)
  else
    instructionSizeEstimate <- getInstructionSizeEstimate ;;
    ret (if truthyNumber instructionSizeEstimate
         then option_map (fun size => 16 * size) instructionSizeEstimate
         else None).

(** The loop of [disassembleBackward] from step [i] on, with [steps]
    steps to go. *)
Fixpoint tryBackward (address : string) (backwardDisassembleStepSize : Z)
         (i steps : nat) : M (option AsmInsns) :=
  match steps with
  | O => ret None
  | S steps' =>
      result <- tryCatch
                  (r <- send onDataDisassemble
                             (addressRequest (addressToTry address backwardDisassembleStepSize i)) ;;
                   ret (Some r))
                  (fun _ => ret None) ;;
      match result with
      | Some r => ret (Some r)
      | None => tryBackward address backwardDisassembleStepSize (S i) steps'
      end
  end.

(** [instructions.at(-1)?.address]. *)
Definition lastAddress (instructions : list DisassembledInstruction) : option string :=
  option_map address (List.last (map Some instructions) None).

(** [disassembleBackward] (lines 1929-1966); the result is the content of
    the array [instructions] when the call returns. *)
Definition disassembleBackward (instructions : list DisassembledInstruction)
           (address : string) (backwardDisassembleStepSize : Z)
  : M (list DisassembledInstruction) :=
  result <- tryBackward address backwardDisassembleStepSize 1
                        numberOfBackwardDisassembleSteps ;;
  match result with
  | Some r =>
      let instructions := flattenDisassembledInstructions r instructions 0 in
      match lastAddress instructions with
      | Some lastInstructionFetched =>
          result <- tryCatch
                      (r <- send onDataDisassemble
                                 (rangeRequest lastInstructionFetched address) ;;
                       ret (Some r))
                      (fun _ => ret None) ;;
          match result with
          | Some r => ret (flattenDisassembledInstructions r instructions 1)
          | None => ret instructions
          end
      | None => ret instructions
      end
  | None => ret instructions
  end.

End DisassembleBackward.

(** The requests of the steps [i], [i + 1], ... of the loop. *)
Definition attempts (address : string) (backwardDisassembleStepSize : Z) (i k : nat)
  : list Cmd :=
  map (fun j => addressRequest (addressToTry address backwardDisassembleStepSize j)) (seq i k).

Definition failed {A} (r : Result A) : bool :=
  match r with Ok _ => false | Throw _ => true end.

(** The accumulator of [parseDigits] read as a number. *)
Definition startValue (acc : option Z) : Z :=
  match acc with Some a => a | None => 0 end.

(** The integers for which the model of numbers is exact: every integer
    of this range is a double, [Number.parseInt] reads it without
    rounding and [toString] prints its digits (the safe integers of
    JavaScript). *)
Definition safeInteger (v : Z) : Prop := - 2 ^ 53 < v < 2 ^ 53.

(** ** The file of launch environment variables (lines 1061-1105)

    Strings are read character by character; the white space of [trim]
    is the white space of the ASCII range.  Reading the file is a
    parameter of [getLaunchEnvVars]: the content of the file at the
    resolved path, or the error of [fs.readFileSync]. *)

Inductive LaunchEnvVarType : Type := set_ | unset_.

Record LaunchEnvVarSpec : Type := mkSpec {
  spec_type : LaunchEnvVarType;
  spec_name : string;
  spec_value : option string
}.

Definition LF : ascii := "010"%char.
Definition CR : ascii := "013"%char.

(** [s.split(/\r?\n/)]; [line] holds the characters of the line read so
    far, the last one in front. *)
Fixpoint rev_string (acc s : string) : string :=
  match s with
  | EmptyString => acc
  | String c s' => rev_string (String c acc) s'
  end.

Fixpoint splitLines (line : string) (s : string) : list string :=
  match s with
  | EmptyString => [rev_string EmptyString line]
  | String c rest =>
      if Ascii.eqb c LF then rev_string EmptyString line :: splitLines EmptyString rest
      else
        match rest with
        | String c' rest' =>
            if Ascii.eqb c CR && Ascii.eqb c' LF
            then rev_string EmptyString line :: splitLines EmptyString rest'
            else splitLines (String c line) rest
        | EmptyString => splitLines (String c line) rest
        end
  end.

Definition isEmptyString (s : string) : bool :=
  Nat.eqb (String.length s) 0.

Fixpoint trimEnd (s : string) : string :=
  match s with
  | EmptyString => EmptyString
  | String c s' =>
      let t := trimEnd s' in
      if isEmptyString t && isWhiteSpace c then EmptyString else String c t
  end.

Definition trim (s : string) : string := trimEnd (trimStart s).

Fixpoint take (n : nat) (s : string) : string :=
  match n, s with
  | S n', String c s' => String c (take n' s')
  | _, _ => EmptyString
  end.

Fixpoint drop (n : nat) (s : string) : string :=
  match n, s with
  | S n', String _ s' => drop n' s'
  | _, _ => s
  end.

(** [s.slice(from, to)] and [s.slice(from)] for indices that are not
    negative. *)
Definition slice (from to : nat) (s : string) : string := take (to - from) (drop from s).

Fixpoint indexOf (c : ascii) (s : string) : option nat :=
  match s with
  | EmptyString => None
  | String c' s' => if Ascii.eqb c' c then Some O else option_map S (indexOf c s')
  end.

Definition startsWith (prefix s : string) : bool := String.prefix prefix s.

Definition unsetString : string := "unset".

(** The callback of [envFileLines.forEach]: the specification a line
    adds, if any. *)
Definition readEnvLine (line : string) : option LaunchEnvVarSpec :=
  let line := trim line in
  if isEmptyString line || startsWith "#" line then None
  else
    match indexOf "=" line with
    | Some eqIdx =>
        let name := trim (slice 0 eqIdx line) in
        if Nat.ltb 0 (String.length name)
        then
          let value := trim (drop (eqIdx + 1) line) in
          Some (mkSpec set_ name (Some value))
        else None
    | None =>
        if startsWith unsetString line
           && Nat.ltb (String.length unsetString) (String.length line)
        then
          if isEmptyString
               (trim (slice (String.length unsetString) (String.length unsetString + 1) line))
          then
            let name := trim (drop (String.length unsetString + 1) line) in
            if Nat.ltb 0 (String.length name)
            then Some (mkSpec unset_ name None)
            else None
          else None
        else None
    end.

Definition optionToList {A} (o : option A) : list A :=
  match o with Some a => [a] | None => [] end.

Definition readEnvFile (envFileContents : string) : list LaunchEnvVarSpec :=
  flat_map (fun line => optionToList (readEnvLine line)) (splitLines EmptyString envFileContents).

Definition getLaunchEnvVars (readFileSync : Result string) : Result (list LaunchEnvVarSpec) :=
  match readFileSync with
  | Throw message =>
      Throw (String.append "Unable to read launch environment variables file:"
                           (String LF message))
  | Ok envFileContents => Ok (readEnvFile envFileContents)
  end.

(** The command [configureLaunch] makes of a specification
    (line 1123). *)
Definition envCommand (spec : LaunchEnvVarSpec) : string :=
  match spec_type spec with
  | set_ =>
      String.append "set env "
        (String.append (spec_name spec)
           (String.append "="
              (match spec_value spec with Some v => v | None => "undefined" end)))
  | unset_ => String.append "unset env " (spec_name spec)
  end.

(** A text without surrounding white space. *)
Definition isTrimmed (s : string) : Prop := trim s = s.

Fixpoint contains (c : ascii) (s : string) : bool :=
  match s with
  | EmptyString => false
  | String c' s' => Ascii.eqb c' c || contains c s'
  end.

(** The line of the file that states a specification. *)
Definition envLine (spec : LaunchEnvVarSpec) : string :=
  match spec_type spec with
  | set_ =>
      String.append (spec_name spec)
        (String.append "=" (match spec_value spec with Some v => v | None => EmptyString end))
  | unset_ => String.append "unset " (spec_name spec)
  end.

Fixpoint joinLines (lines : list string) : string :=
  match lines with
  | [] => EmptyString
  | [line] => line
  | line :: rest => String.append line (String LF (joinLines rest))
  end.

(** A specification as [readEnvLine] gives it: a name that is not empty,
    has no surrounding white space and no [=]; a value that is there for
    [set] only, without surrounding white space. *)
Definition wellFormed (spec : LaunchEnvVarSpec) : Prop :=
  spec_name spec <> EmptyString
  /\ isTrimmed (spec_name spec)
  /\ match spec_type spec with
     | set_ => contains "=" (spec_name spec) = false
               /\ exists v, spec_value spec = Some v /\ isTrimmed v
     | unset_ => contains "=" (spec_name spec) = false /\ spec_value spec = None
     end.

Fixpoint isASCIIText (s : string) : bool :=
  match s with
  | EmptyString => true
  | String c s' => Nat.ltb (nat_of_ascii c) 128 && isASCIIText s'
  end.

(** What a specification needs beyond [wellFormed] to be read back from
    its line: no line feed in the line, and a line that is not a
    comment; the line is ASCII text, where the white space of [trim] is
    the one of the model. *)
Definition writable (spec : LaunchEnvVarSpec) : Prop :=
  wellFormed spec
  /\ contains LF (envLine spec) = false
  /\ startsWith "#" (envLine spec) = false
  /\ isASCIIText (envLine spec) = true.

(** The first and the last character of a text are not white space. *)
Definition headOK (s : string) : bool :=
  match s with
  | EmptyString => true
  | String c _ => negb (isWhiteSpace c)
  end.

Fixpoint lastOK (s : string) : bool :=
  match s with
  | EmptyString => true
  | String c EmptyString => negb (isWhiteSpace c)
  | String _ s' => lastOK s'
  end.

(** ** Properties of stores and sessions used as invariants *)

(** The execution context and the backend flag of a store. *)
Definition contextIs (c : ExecContext) (g : bool) (st : VariableObjectStore) : Prop :=
  execContext st = c /\ gdb st = g.

(** A local of the store is a local of one of the names. *)
Definition localsAmong (names : list string) (kv : string * SimplifiedVarObjType) : Prop :=
  kind (snd kv) = local -> In (expression (snd kv)) names.

(** The focus of the pseudo-thread as a property of sessions. *)
Definition threadFocusIs (f : option CudaFocus) (s : Session) : Prop :=
  thread_focus (cudaThread s) = f.


(** ** class CudaGdbBackend: [sendCommand] (lines 255-264)

    The command goes to [sendCommand] of the base class, which is a
    parameter here. *)

Module CudaGdbBackend.

Definition miPrefixBreakInsert : string := "-break-insert".

Definition flagF : string := "-f".

Definition sendCommand {T : Type} (superSendCommand : string -> T) (command : string) : T :=
  let command :=
    if startsWith miPrefixBreakInsert command
    then
      let breakInsert := slice 0 (String.length miPrefixBreakInsert) command in
      let breakPointInfo := drop (String.length miPrefixBreakInsert) command in
      String.append breakInsert
        (String.append " " (String.append flagF (String.append " " breakPointInfo)))
    else command in
  superSendCommand command.

(** The command a text of the backend was made of. *)
Definition original (text : string) : string :=
  if startsWith "-break-insert -f " text
  then String.append miPrefixBreakInsert (drop (String.length "-break-insert -f ") text)
  else text.

End CudaGdbBackend.

(** A file with a comment, a line to set and a line to unset a variable,
    and a line without a name. *)
Definition sampleEnvFile : string :=
  joinLines ["# devices"; " CUDA_VISIBLE_DEVICES = 0"; "unset LD_PRELOAD"; "=x"].

(** Every coordinate of a focus is there. *)
Definition dimGiven (d : option CudaDim) : bool :=
  match d with
  | Some (mkCudaDim (Some _) (Some _) (Some _)) => true
  | _ => false
  end.

Definition fullyGiven (f : CudaFocus) : bool :=
  match f with
  | software blockIdx threadIdx => dimGiven blockIdx && dimGiven threadIdx
  | hardware (Some _) (Some _) (Some _) => true
  | hardware _ _ _ => false
  end.

(** ** The loop of [disassembleRequest] that makes up for the
    instructions missing at the beginning (lines 2053-2076)

    Every turn of the loop that does not leave it lowers
    [instructionDeficit] by at least one; [fuel] bounds the number of
    turns. *)

Section DisassembleDeficit.

Variable AsmInsns : Type.
Variable onDataDisassemble : list Cmd -> Result AsmInsns.
Variable flattenDisassembledInstructions :
  AsmInsns -> list DisassembledInstruction -> Z -> list DisassembledInstruction.

(** [a.slice(-n)] for a positive [n]. *)
Definition sliceLast {A} (n : Z) (a : list A) : list A :=
  skipn (List.length a - Z.to_nat n) a.

Fixpoint disassembleDeficit (fuel : nat) (instructions : list DisassembledInstruction)
         (instructionDeficit backwardDisassembleStepSize : Z)
  : M (list DisassembledInstruction) :=
  if instructionDeficit <=? 0 then ret instructions
  else
    match fuel with
    | O => throw "out of fuel"
    | S fuel' =>
        match instructions with
        | [] => throw typeError
        | first :: _ =>
            priorInstructions <-
              disassembleBackward onDataDisassemble flattenDisassembledInstructions
                                  [] (address first) backwardDisassembleStepSize ;;
            if Nat.eqb (List.length priorInstructions) 0
            then
              dummies <- newArrayFill instructionDeficit dummyInstruction ;;
              ret (dummies ++ instructions)
            else if Z.of_nat (List.length priorInstructions) <=? instructionDeficit
            then
              disassembleDeficit fuel' (priorInstructions ++ instructions)
                (instructionDeficit - Z.of_nat (List.length priorInstructions))
                backwardDisassembleStepSize
            else ret (sliceLast instructionDeficit priorInstructions ++ instructions)
        end
    end.

End DisassembleDeficit.

(** * Properties *)

(** ** The variable object store *)

(** C10: [getLocals] with an undefined focus returns the empty list at
    once: no command is written and the session, with the execution
    context and the stored variable objects, is left as it was. *)
Theorem getLocals_undefined_focus :
  forall (B : GDBBackend) (frameId : Z) (s : Session),
    getLocals B None frameId s = (Ok [], s).
Proof.
  intros B frameId s. reflexivity.
Qed.

(** *** The map [oldLocals] when the local expressions are distinct *)

Lemma oldLocalsOf_filter :
  forall (l : list SimplifiedVarObjType) (acc : JSMap.t SimplifiedVarObjType),
    fold_left (fun acc vo =>
                 match kind vo with
                 | local => JSMap.set (expression vo) vo acc
                 | watch => acc
                 end) l acc
    = fold_left (fun acc vo => JSMap.set (expression vo) vo acc)
                (filter (fun vo => Kind_eqb (kind vo) local) l) acc.
Proof.
  induction l as [|vo l IH]; intros acc; simpl; [reflexivity|].
  destruct (kind vo); simpl; apply IH.
Qed.

Lemma JSMap_set_fresh :
  forall (V : Type) (k : string) (v : V) (m : JSMap.t V),
    ~ In k (map fst m) -> JSMap.set k v m = m ++ [(k, v)].
Proof.
  induction m as [|[k' v'] m IH]; simpl; intros Hk; [reflexivity|].
  destruct (String.eqb_spec k' k) as [->|Hne].
  - exfalso. apply Hk. now left.
  - rewrite IH; [reflexivity|]. intros Hin. apply Hk. now right.
Qed.

Lemma fold_set_distinct :
  forall (l : list SimplifiedVarObjType) (acc : JSMap.t SimplifiedVarObjType),
    NoDup (map fst acc ++ map expression l) ->
    fold_left (fun acc vo => JSMap.set (expression vo) vo acc) l acc
    = acc ++ map (fun vo => (expression vo, vo)) l.
Proof.
  induction l as [|vo l IH]; intros acc Hnd; simpl.
  - now rewrite app_nil_r.
  - simpl in Hnd.
    assert (Hfresh : ~ In (expression vo) (map fst acc)).
    { apply NoDup_remove_2 in Hnd. intros Hin. apply Hnd, in_or_app. now left. }
    rewrite JSMap_set_fresh by exact Hfresh.
    rewrite IH.
    + now rewrite <- app_assoc.
    + rewrite map_app, <- app_assoc. exact Hnd.
Qed.

Lemma get_of_distinct :
  forall (l : list SimplifiedVarObjType) (vo : SimplifiedVarObjType),
    NoDup (map expression l) -> In vo l ->
    JSMap.get (expression vo) (map (fun vo => (expression vo, vo)) l) = Some vo.
Proof.
  induction l as [|a l IH]; intros vo Hnd Hin; [contradiction|].
  simpl. inversion Hnd as [|? ? Hnotin Hnd']; subst.
  destruct Hin as [->|Hin].
  - now rewrite String.eqb_refl.
  - destruct (String.eqb_spec (expression a) (expression vo)) as [Heq|_].
    + exfalso. apply Hnotin. rewrite Heq. now apply in_map.
    + now apply IH.
Qed.

Lemma shapeDiffers_same :
  forall (m : JSMap.t SimplifiedVarObjType) (fetched : list MIVariableInfo),
    NoDup (map vi_name fetched) ->
    sameShape fetched (filter (fun vo => Kind_eqb (kind vo) local) (JSMap.values m)) ->
    shapeDiffers m fetched = false.
Proof.
  intros m fetched Hnd Hperm. unfold sameShape in Hperm.
  set (L := filter (fun vo => Kind_eqb (kind vo) local) (JSMap.values m)) in *.
  assert (Hkeys : Permutation (map vi_name fetched) (map expression L)).
  { apply (Permutation_map fst) in Hperm. now rewrite !map_map in Hperm. }
  assert (HndL : NoDup (map expression L)) by (eapply Permutation_NoDup; eassumption).
  assert (Hold : oldLocalsOf m = map (fun vo => (expression vo, vo)) L).
  { unfold oldLocalsOf. rewrite oldLocalsOf_filter. fold L.
    now rewrite fold_set_distinct. }
  unfold shapeDiffers. rewrite Hold. unfold JSMap.size.
  rewrite length_map.
  assert (Hlen : List.length fetched = List.length L).
  { apply Permutation_length in Hkeys. now rewrite !length_map in Hkeys. }
  rewrite Hlen, Z.eqb_refl. simpl.
  apply negb_false_iff, forallb_forall. intros sl Hsl.
  assert (Hin : In (vi_name sl, vi_type sl) (map (fun vo => (expression vo, type vo)) L)).
  { eapply Permutation_in; [exact Hperm|].
    apply (in_map (fun sl => (vi_name sl, vi_type sl))). exact Hsl. }
  apply in_map_iff in Hin. destruct Hin as [vo [Heq HvoL]].
  injection Heq as Hname Htype. cbv beta.
  rewrite <- Hname, get_of_distinct by assumption.
  rewrite Htype. apply String.eqb_refl.
Qed.

(** *** Commands that neither create nor delete a variable object *)

Lemma varObjectOps_app :
  forall l l' : list Cmd, varObjectOps (l ++ l') = (varObjectOps l + varObjectOps l')%nat.
Proof.
  intros l l'. unfold varObjectOps. now rewrite filter_app, length_app.
Qed.

Lemma update_ops :
  forall (B : GDBBackend) (s : Session),
    varObjectOps (sent (snd (update B s))) = varObjectOps (sent s).
Proof.
  intros B s. unfold update, bind, get, throw, send, modifyStore, modify, ret. simpl.
  destruct (gdb (varStore s)); simpl; [|reflexivity].
  destruct (onVarUpdate B (sent s ++ [VarUpdate])); simpl;
    rewrite varObjectOps_app; apply Nat.add_0_r.
Qed.

Lemma updateLocals_ops :
  forall (B : GDBBackend) (s : Session),
    varObjectOps (sent (snd (updateLocals B s))) = varObjectOps (sent s).
Proof.
  intros B s. unfold updateLocals, bind, ret.
  pose proof (update_ops B s) as H.
  destruct (update B s) as [[changes|e] s']; simpl in *; exact H.
Qed.

Lemma option_eqb_string_refl :
  forall o : option string, utils.option_eqb String.eqb o o = true.
Proof.
  destruct o as [a|]; simpl; [apply String.eqb_refl | reflexivity].
Qed.

Lemma localsCmd_ops :
  forall (focus : Focus) (frameId : Z) (l : list Cmd),
    varObjectOps (l ++ [localsCmd focus frameId]) = varObjectOps l.
Proof.
  intros focus frameId l. rewrite varObjectOps_app.
  destruct focus; apply Nat.add_0_r.
Qed.

(** The second half of [validate] when nothing asks for an invalidation. *)
Lemma validate_fetch_ops :
  forall (B : GDBBackend) (focus : Focus) (frameId : Z) (funcName : option string) (s : Session),
    (forall fetched,
        onStackListVariables B (sent s ++ [localsCmd focus frameId]) = Ok fetched ->
        sameShape fetched (localsOf s) /\ distinctNames fetched) ->
    varObjectOps (sent (snd (validate_fetch B focus frameId funcName false s)))
    = varObjectOps (sent s).
Proof.
  intros B focus frameId funcName s Hlist.
  unfold validate_fetch, bind, send, get.
  fold (localsCmd focus frameId).
  destruct (onStackListVariables B (sent s ++ [localsCmd focus frameId]))
    as [fetched|e] eqn:Hresp; simpl.
  - destruct (Hlist fetched eq_refl) as [Hshape Hnd].
    rewrite (shapeDiffers_same (byName (varStore s)) Hnd Hshape). simpl.
    rewrite updateLocals_ops. simpl. apply localsCmd_ops.
  - apply localsCmd_ops.
Qed.

Lemma validate_ops :
  forall (B : GDBBackend) (focus : Focus) (frameId : Z) (funcName : option string) (s : Session),
    threadIdChanged (varStore s) focus = false ->
    ctx_frameId (execContext (varStore s)) = Some frameId ->
    funcName = functionName (execContext (varStore s)) ->
    truthy_opt funcName = true ->
    (forall fetched,
        onStackListVariables B (sent s ++ [localsCmd focus frameId]) = Ok fetched ->
        sameShape fetched (localsOf s) /\ distinctNames fetched) ->
    varObjectOps (sent (snd (validate B focus frameId funcName s))) = varObjectOps (sent s).
Proof.
  intros B focus frameId funcName s Hthread Hframe Hname Hknown Hlist.
  unfold validate, bind, get, ret. simpl.
  destruct (gdb (varStore s)); simpl; [|reflexivity].
  rewrite Hthread, Hframe. simpl. rewrite Z.eqb_refl. simpl.
  assert (Hflag : negb (truthy_opt funcName)
                  || negb (truthy_opt (functionName (execContext (varStore s))))
                  || negb (utils.option_eqb String.eqb funcName
                             (functionName (execContext (varStore s)))) = false).
  { rewrite <- Hname, Hknown, option_eqb_string_refl. reflexivity. }
  rewrite Hflag.
  destruct (resumed (execContext (varStore s))) as [[|]|].
  - now apply validate_fetch_ops.
  - apply updateLocals_ops.
  - now apply validate_fetch_ops.
Qed.

(** One locals request that changes nothing issues no create and no delete. *)
Lemma getLocals_unchanged_ops :
  forall (B : GDBBackend) (focus : Focus) (frameId : Z) (s : Session),
    unchanged knownName distinctNames B focus frameId s ->
    varObjectOps (sent (snd (getLocals B (Some focus) frameId s))) = varObjectOps (sent s).
Proof.
  intros B focus frameId s (Hthread & Hframe & Hname & Hlist).
  unfold getLocals, getCurrentFunction, bind, get, throw, send, ret.
  fold (framesCmd focus).
  destruct (gdb (varStore s)) eqn:Hgdb; simpl; [|reflexivity].
  assert (Hframes : varObjectOps (sent s ++ [framesCmd focus]) = varObjectOps (sent s)).
  { rewrite varObjectOps_app. apply Nat.add_0_r. }
  destruct (onStackListFrames B (sent s ++ [framesCmd focus])) as [[|frameInfo rest]|e] eqn:Hresp;
    simpl; try exact Hframes.
  destruct (Hname frameInfo rest eq_refl) as [Hfn Hknown].
  pose proof (@validate_ops B focus frameId (func frameInfo)
                (set_sent (sent s ++ [framesCmd focus]) s)
                Hthread Hframe Hfn Hknown) as Hv.
  simpl in Hv.
  assert (Hl : forall fetched,
             onStackListVariables B ((sent s ++ [framesCmd focus]) ++ [localsCmd focus frameId])
             = Ok fetched ->
             sameShape fetched (localsOf (set_sent (sent s ++ [framesCmd focus]) s))
             /\ distinctNames fetched).
  { intros fetched Hf. apply Hlist. now rewrite <- app_assoc in Hf. }
  specialize (Hv Hl).
  destruct (validate B focus frameId (func frameInfo) (set_sent (sent s ++ [framesCmd focus]) s))
    as [[u|e] s'] eqn:Hval; simpl in *; now rewrite Hv.
Qed.

(** *** Computations only append to the log of commands *)

Lemma appends_ret : forall (A : Type) (a : A), appends (ret a).
Proof. intros A a s. exists []. simpl. now rewrite app_nil_r. Qed.

Lemma appends_throw : forall (A : Type) (e : Error), appends (@throw A e).
Proof. intros A e s. exists []. simpl. now rewrite app_nil_r. Qed.

Lemma appends_get : appends get.
Proof. intros s. exists []. simpl. now rewrite app_nil_r. Qed.

Lemma appends_send :
  forall (A : Type) (oracle : list Cmd -> Result A) (c : Cmd), appends (send oracle c).
Proof. intros A oracle c s. exists [c]. reflexivity. Qed.

Lemma appends_modify :
  forall f : Session -> Session, (forall s, sent (f s) = sent s) -> appends (modify f).
Proof. intros f Hf s. exists []. simpl. now rewrite app_nil_r, Hf. Qed.

Lemma appends_bind :
  forall (A C : Type) (m : M A) (k : A -> M C),
    appends m -> (forall a, appends (k a)) -> appends (bind m k).
Proof.
  intros A C m k Hm Hk s. unfold bind.
  destruct (Hm s) as [l Hl].
  destruct (m s) as [[a|e] s1]; simpl in *.
  - destruct (Hk a s1) as [l' Hl']. exists (l ++ l'). now rewrite Hl', Hl, app_assoc.
  - now exists l.
Qed.

Lemma appends_tryCatch :
  forall (A : Type) (m : M A) (h : Error -> M A),
    appends m -> (forall e, appends (h e)) -> appends (tryCatch m h).
Proof.
  intros A m h Hm Hh s. unfold tryCatch.
  destruct (Hm s) as [l Hl].
  destruct (m s) as [[a|e] s1]; simpl in *.
  - now exists l.
  - destruct (Hh e s1) as [l' Hl']. exists (l ++ l'). now rewrite Hl', Hl, app_assoc.
Qed.

Lemma appends_modifyStore :
  forall f : VariableObjectStore -> VariableObjectStore, appends (modifyStore f).
Proof. intros f. apply appends_modify. reflexivity. Qed.

Lemma appends_emit : forall o : Output, appends (emit o).
Proof. intros o. apply appends_modify. reflexivity. Qed.

Lemma appends_sendCommands :
  forall (B : GDBBackend) (cs : list Cmd), appends (sendCommands B cs).
Proof.
  induction cs as [|c cs IH]; simpl.
  - apply appends_ret.
  - apply appends_bind; [apply appends_send | intros _; exact IH].
Qed.

Lemma appends_update : forall B : GDBBackend, appends (update B).
Proof.
  intros B. unfold update.
  apply appends_bind; [apply appends_get | intros s].
  destruct (negb (gdb (varStore s))); [apply appends_throw|].
  apply appends_bind; [apply appends_send | intros changes].
  apply appends_bind; [apply appends_modifyStore | intros _; apply appends_ret].
Qed.

Lemma appends_updateLocals : forall B : GDBBackend, appends (updateLocals B).
Proof.
  intros B. unfold updateLocals.
  apply appends_bind; [apply appends_update | intros _; apply appends_ret].
Qed.

Lemma appends_clear : forall (B : GDBBackend) (k : Kind), appends (clear B k).
Proof.
  intros B k. unfold clear.
  apply appends_bind; [apply appends_get | intros s].
  apply appends_bind; [|intros _; apply appends_modifyStore].
  destruct (gdb (varStore s)); [apply appends_sendCommands | apply appends_ret].
Qed.

Lemma appends_createLocals :
  forall (B : GDBBackend) (l : list MIVariableInfo), appends (createLocals B l).
Proof.
  intros B l. unfold createLocals.
  apply appends_bind; [apply appends_get | intros s].
  destruct (negb (gdb (varStore s))); [apply appends_ret|].
  induction l as [|sl l IH]; simpl; [apply appends_ret|].
  apply appends_bind; [apply appends_send | intros resp].
  apply appends_bind; [apply appends_modifyStore | intros _; exact IH].
Qed.

Lemma issuedBy_appended :
  forall (A : Type) (m : M A) (s : Session) (l : list Cmd),
    sent (snd (m s)) = sent s ++ l -> issuedBy m s = l.
Proof.
  intros A m s l H. unfold issuedBy. rewrite H.
  rewrite skipn_app, skipn_all, Nat.sub_diag. reflexivity.
Qed.

(** From the stack-locals command on, [validate] first writes that command. *)
Lemma validate_fetch_first :
  forall (B : GDBBackend) (focus : Focus) (frameId : Z) (funcName : option string)
         (flag : bool) (s : Session),
    exists rest,
      sent (snd (validate_fetch B focus frameId funcName flag s))
      = sent s ++ localsCmd focus frameId :: rest.
Proof.
  intros B focus frameId funcName flag s.
  unfold validate_fetch. fold (localsCmd focus frameId).
  unfold bind at 1. unfold send at 1.
  destruct (onStackListVariables B (sent s ++ [localsCmd focus frameId])) as [fetched|e].
  - match goal with
    | |- context [snd (?k ?st)] =>
        assert (Hk : exists l, sent (snd (k st)) = sent st ++ l)
    end.
    { apply (@appends_bind _ _ get); [apply appends_get | intros s1].
      destruct (negb _).
      - apply appends_updateLocals.
      - apply appends_bind; [apply appends_clear | intros _].
        apply appends_bind; [apply appends_createLocals | intros _].
        apply appends_modifyStore. }
    destruct Hk as [l Hl]. exists l. rewrite Hl. simpl.
    now rewrite <- app_assoc.
  - exists []. reflexivity.
Qed.

Lemma handleGDBAsync_stopped_sent :
  forall (B : GDBBackend) (resultData : AsyncData) (s : Session),
    sent (snd (handleGDBAsync B "stopped" resultData s)) = sent s.
Proof.
  intros B [[[blockIdx threadIdx]|]] s;
    unfold handleGDBAsync, bind, get, ret, emit, modifyStore, modify, setFocus,
      resetCudaFocus, hasFocus; simpl.
  - match goal with
    | |- context [if ?c then _ else _] => destruct c
    end; reflexivity.
  - reflexivity.
Qed.

(** *** A request that changes nothing runs the update path *)

Lemma skipn_appended :
  forall (l l' : list Cmd), skipn (List.length l) (l ++ l') = l'.
Proof.
  intros l l'. now rewrite skipn_app, skipn_all, Nat.sub_diag.
Qed.

Lemma updateLocals_run :
  forall (B : GDBBackend) (s : Session),
    gdb (varStore s) = true ->
    updateLocals B s
    = match onVarUpdate B (sent s ++ [VarUpdate]) with
      | Ok changes =>
          (Ok tt,
           set_varStore (set_byName (fold_left applyChange changes (byName (varStore s)))
                                    (varStore s))
                        (set_sent (sent s ++ [VarUpdate]) s))
      | Throw e => (Throw e, set_sent (sent s ++ [VarUpdate]) s)
      end.
Proof.
  intros B s Hgdb.
  unfold updateLocals, update, bind, get, throw, send, modifyStore, modify, ret.
  rewrite Hgdb. simpl.
  destruct (onVarUpdate B (sent s ++ [VarUpdate])); reflexivity.
Qed.

Lemma validate_unchanged_run :
  forall (B : GDBBackend) (focus : Focus) (frameId : Z) (funcName : option string) (s : Session),
    gdb (varStore s) = true ->
    threadIdChanged (varStore s) focus = false ->
    ctx_frameId (execContext (varStore s)) = Some frameId ->
    funcName = functionName (execContext (varStore s)) ->
    truthy_opt funcName = true ->
    (forall fetched,
        onStackListVariables B (sent s ++ [localsCmd focus frameId]) = Ok fetched ->
        sameShape fetched (localsOf s) /\ distinctNames fetched) ->
    validate B focus frameId funcName s
    = if takesShortCut (varStore s) focus frameId then updateLocals B s
      else match onStackListVariables B (sent s ++ [localsCmd focus frameId]) with
           | Ok _ => updateLocals B (set_sent (sent s ++ [localsCmd focus frameId]) s)
           | Throw e => (Throw e, set_sent (sent s ++ [localsCmd focus frameId]) s)
           end.
Proof.
  intros B focus frameId funcName s Hgdb Hthread Hframe Hname Hknown Hlist.
  assert (Hflag : negb (truthy_opt funcName)
                  || negb (truthy_opt (functionName (execContext (varStore s))))
                  || negb (utils.option_eqb String.eqb funcName
                             (functionName (execContext (varStore s)))) = false).
  { rewrite <- Hname, Hknown, option_eqb_string_refl. reflexivity. }
  assert (Hfetch : validate_fetch B focus frameId funcName false s
                   = match onStackListVariables B (sent s ++ [localsCmd focus frameId]) with
                     | Ok _ => updateLocals B (set_sent (sent s ++ [localsCmd focus frameId]) s)
                     | Throw e => (Throw e, set_sent (sent s ++ [localsCmd focus frameId]) s)
                     end).
  { unfold validate_fetch, bind, send, get. fold (localsCmd focus frameId).
    destruct (onStackListVariables B (sent s ++ [localsCmd focus frameId]))
      as [fetched|e] eqn:Hresp; [|reflexivity].
    destruct (Hlist fetched eq_refl) as [Hshape Hnd]. simpl.
    rewrite (shapeDiffers_same (byName (varStore s)) Hnd Hshape). reflexivity. }
  unfold validate, bind, get, takesShortCut. simpl.
  rewrite Hgdb, Hthread, Hframe. simpl. rewrite Z.eqb_refl. simpl. rewrite Hflag.
  destruct (resumed (execContext (varStore s))) as [[|]|]; first [exact Hfetch | reflexivity].
Qed.

Lemma getLocals_unchanged_updatePath :
  forall (B : GDBBackend) (focus : Focus) (frameId : Z) (s : Session),
    unchanged knownName distinctNames B focus frameId s ->
    updatePath B focus frameId s.
Proof.
  intros B focus frameId s (Hthread & Hframe & Hname & Hlist).
  unfold updatePath, issuedBy, updateCommands. cbv zeta.
  destruct (gdb (varStore s)) eqn:Hgdb.
  2: { assert (Hrun : getLocals B (Some focus) frameId s = (Throw typeError, s)).
       { unfold getLocals, getCurrentFunction, bind, get, throw. now rewrite Hgdb. }
       rewrite Hrun. simpl. rewrite skipn_all. split; [|reflexivity].
       eexists. reflexivity. }
  set (s1 := set_sent (sent s ++ [framesCmd focus]) s).
  assert (Hs1 : sent s1 = sent s ++ [framesCmd focus]) by reflexivity.
  assert (Hrun : getLocals B (Some focus) frameId s
                 = match onStackListFrames B (sent s ++ [framesCmd focus]) with
                   | Ok (frameInfo :: _) =>
                       match validate B focus frameId (func frameInfo) s1 with
                       | (Ok _, s2) => (Ok (valuesOfKind local (varStore s2)), s2)
                       | (Throw e, s2) => (Throw e, s2)
                       end
                   | Ok [] => (Throw typeError, s1)
                   | Throw e => (Throw e, s1)
                   end).
  { unfold getLocals, getCurrentFunction, bind, get, throw, send, ret.
    fold (framesCmd focus). rewrite Hgdb. simpl. fold s1.
    destruct (onStackListFrames B (sent s ++ [framesCmd focus])) as [[|frameInfo rest]|e];
      try reflexivity;
      destruct (validate B focus frameId (func frameInfo) s1) as [[u|e] s2]; reflexivity. }
  rewrite Hrun. clear Hrun.
  destruct (onStackListFrames B (sent s ++ [framesCmd focus])) as [[|frameInfo rest]|e]
    eqn:Hresp.
  - simpl. rewrite skipn_appended. split; [|reflexivity]. eexists. reflexivity.
  - destruct (Hname frameInfo rest eq_refl) as [Hfn Hknown].
    assert (Hl : forall fetched,
               onStackListVariables B (sent s1 ++ [localsCmd focus frameId]) = Ok fetched ->
               sameShape fetched (localsOf s1) /\ distinctNames fetched).
    { intros fetched Hf. apply Hlist. rewrite Hs1 in Hf. now rewrite <- app_assoc in Hf. }
    rewrite (@validate_unchanged_run B focus frameId (func frameInfo) s1
               Hgdb Hthread Hframe Hfn Hknown Hl).
    change (varStore s1) with (varStore s).
    destruct (takesShortCut (varStore s) focus frameId).
    + rewrite (updateLocals_run B s1 Hgdb).
      destruct (onVarUpdate B (sent s1 ++ [VarUpdate])) as [changes|e] eqn:Hupd; simpl.
      * rewrite <- app_assoc, skipn_appended.
        split; [reflexivity|]. split; [|split; reflexivity].
        exists changes. split; [|reflexivity].
        rewrite Hs1, <- ?app_assoc in Hupd. rewrite <- ?app_assoc. exact Hupd.
      * rewrite <- app_assoc, skipn_appended. split; [|reflexivity].
        exists []. reflexivity.
    + destruct (onStackListVariables B (sent s1 ++ [localsCmd focus frameId]))
        as [fetched|e] eqn:Hvars.
      * set (s2 := set_sent (sent s1 ++ [localsCmd focus frameId]) s1).
        assert (Hgdb2 : gdb (varStore s2) = true) by exact Hgdb.
        rewrite (updateLocals_run B s2 Hgdb2).
        destruct (onVarUpdate B (sent s2 ++ [VarUpdate])) as [changes|e] eqn:Hupd; simpl.
        -- rewrite <- !app_assoc, skipn_appended.
           split; [reflexivity|]. split; [|split; reflexivity].
           exists changes. split; [|reflexivity].
           simpl in Hupd. rewrite <- ?app_assoc in Hupd. rewrite <- ?app_assoc. exact Hupd.
        -- rewrite <- !app_assoc, skipn_appended. split; [|reflexivity].
           exists []. reflexivity.
      * simpl. rewrite <- !app_assoc, skipn_appended. split; [|reflexivity].
        exists [VarUpdate]. reflexivity.
  - simpl. rewrite skipn_appended. split; [|reflexivity]. eexists. reflexivity.
Qed.

(** The conditions of [unchanged] for a backend with constant answers. *)
Ltac unchanged_constant :=
  unfold unchangedEvent, unchanged;
  split; [vm_compute; reflexivity|];
  split; [vm_compute; reflexivity|];
  split;
  [ intros frameInfo rest Heq; cbn in Heq; injection Heq as <- _;
    split; [vm_compute; reflexivity | first [exact I | vm_compute; reflexivity]]
  | intros fetched Heq; cbn in Heq; injection Heq as <-;
    split; [vm_compute; apply Permutation_refl
           | first [exact I | constructor; [intros [] | constructor]]] ].

(** C1 (as amended): over every sequence of stops and locals requests in
    which each request finds the focus, the frame id and the resolved
    function name of the execution context, the name being defined and
    not empty, and a stack-locals list with pairwise distinct names that
    has the names and types of the stored local objects, the store writes
    no variable-object create and no delete command, and every request
    runs the update path and nothing else: it writes the stack-frames
    command, the stack-locals command unless it takes the short cut, and
    the update command, and it leaves the store with the reported
    changes applied by [update]. *)
Theorem unchanged_locals_never_recreated :
  forall (es : list StoreEvent) (s : Session),
    unchangedRun knownName distinctNames es s ->
    varObjectOps (sent (happenAll es s)) = varObjectOps (sent s)
    /\ updatePathRun es s.
Proof.
  induction es as [|e es IH]; intros s Hrun; [split; [reflexivity | exact I]|].
  destruct Hrun as [He Hrest].
  change (happenAll (e :: es) s) with (happenAll es (happen e s)).
  destruct (IH _ Hrest) as [Hops Hpath]. rewrite Hops.
  split.
  - destruct e as [B resultData|B [focus|] frameId]; simpl.
    + now rewrite handleGDBAsync_stopped_sent.
    + now apply getLocals_unchanged_ops.
    + reflexivity.
  - split; [|exact Hpath].
    destruct e as [B resultData|B [focus|] frameId]; simpl; try exact I.
    now apply getLocals_unchanged_updatePath.
Qed.

Lemma unchanged_locals_never_recreated_witness :
  let es := [LocalsRequest mainFrameBackend (Some (thread 1)) 0;
             Stopped mainFrameBackend (mkAsync None);
             LocalsRequest mainFrameBackend (Some (thread 1)) 0] in
  unchangedRun knownName distinctNames es materializedMain
  /\ varObjectOps (sent (happenAll es materializedMain)) = varObjectOps (sent materializedMain)
  /\ updatePathRun es materializedMain.
Proof.
  assert (H : unchangedRun knownName distinctNames
                [LocalsRequest mainFrameBackend (Some (thread 1)) 0;
                 Stopped mainFrameBackend (mkAsync None);
                 LocalsRequest mainFrameBackend (Some (thread 1)) 0] materializedMain).
  { split; [unchanged_constant|]. split; [exact I|]. split; [unchanged_constant|]. exact I. }
  split; [exact H | exact (unchanged_locals_never_recreated _ _ H)].
Defined.

(** The two requests of the run above: the first one takes the short
    cut, the second one, after the stop, fetches the stack-locals list;
    both update and neither creates or deletes. *)
Example unchanged_locals_update_run :
  sent (happenAll [LocalsRequest mainFrameBackend (Some (thread 1)) 0;
                   Stopped mainFrameBackend (mkAsync None);
                   LocalsRequest mainFrameBackend (Some (thread 1)) 0] materializedMain)
  = sent materializedMain
    ++ [StackListFrames (Some 1); VarUpdate;
        StackListFrames (Some 1); StackListVariables (Some (1, 0)); VarUpdate].
Proof. reflexivity. Qed.

(** C1, counterexample: in a frame whose function name the backend does
    not give, a locals request after a stop finds focus, frame, function
    name and locals as they were stored, and yet the store deletes and
    creates the variable object again. *)
Lemma unchanged_locals_recreated_without_name :
  ~ (forall (es : list StoreEvent) (s : Session),
        unchangedRun anyName anyList es s ->
        varObjectOps (sent (happenAll es s)) = varObjectOps (sent s)).
Proof.
  intros H.
  specialize (H [Stopped anonymousFrameBackend (mkAsync None);
                 LocalsRequest anonymousFrameBackend (Some (thread 1)) 0]
                materializedAnonymous).
  assert (Hrun : unchangedRun anyName anyList
                   [Stopped anonymousFrameBackend (mkAsync None);
                    LocalsRequest anonymousFrameBackend (Some (thread 1)) 0]
                   materializedAnonymous).
  { split; [exact I|]. split; [unchanged_constant|]. exact I. }
  specialize (H Hrun). vm_compute in H. discriminate H.
Qed.

(** Why the names have to be distinct: with two locals of the same name
    the stored objects and the fetched list agree, and the store still
    deletes and creates both objects at the request that follows a stop. *)
Example shadowed_locals_recreated :
  let es := [Stopped shadowingBackend (mkAsync None);
             LocalsRequest shadowingBackend (Some (thread 1)) 0] in
  unchangedRun knownName anyList es materializedShadowing
  /\ map expression (localsOf materializedShadowing) = ["i"; "i"]
  /\ varObjectOps (sent (happenAll es materializedShadowing))
     = (varObjectOps (sent materializedShadowing) + 4)%nat.
Proof.
  split; [|split; reflexivity].
  split; [exact I|]. split; [|exact I].
  unfold unchangedEvent, unchanged.
  split; [vm_compute; reflexivity|].
  split; [vm_compute; reflexivity|].
  split.
  - intros frameInfo rest Heq. cbn in Heq. injection Heq as <- _.
    split; vm_compute; reflexivity.
  - intros fetched Heq. cbn in Heq. injection Heq as <-.
    split; [vm_compute; apply Permutation_refl | exact I].
Qed.

(** C2 (as amended): with a backend, a validation pass that does not take
    the short cut (focus or frame id differ from the execution context,
    or the context is not marked as not resumed) writes the stack-locals
    command before any other command; a pass that takes the short cut
    writes the update command alone and fetches no stack-locals list. *)
Theorem validate_fetches_unless_short_cut :
  forall (B : GDBBackend) (focus : Focus) (frameId : Z) (funcName : option string) (s : Session),
    gdb (varStore s) = true ->
    if takesShortCut (varStore s) focus frameId
    then issuedBy (validate B focus frameId funcName) s = [VarUpdate]
    else exists rest,
        issuedBy (validate B focus frameId funcName) s = localsCmd focus frameId :: rest.
Proof.
  intros B focus frameId funcName s Hgdb.
  unfold takesShortCut.
  destruct (threadIdChanged (varStore s) focus) eqn:Hthread; simpl.
  { destruct (validate_fetch_first B focus frameId funcName true s) as [rest Hrest].
    exists rest. apply issuedBy_appended.
    unfold validate, bind, get. simpl. rewrite Hgdb, Hthread. simpl. exact Hrest. }
  destruct (utils.option_eqb Z.eqb (ctx_frameId (execContext (varStore s))) (Some frameId))
    eqn:Hframe; simpl.
  2: { destruct (validate_fetch_first B focus frameId funcName true s) as [rest Hrest].
       exists rest. apply issuedBy_appended.
       unfold validate, bind, get. simpl. rewrite Hgdb, Hthread, Hframe. simpl. exact Hrest. }
  destruct (resumed (execContext (varStore s))) as [[|]|] eqn:Hres.
  - match goal with
    | |- exists rest, _ = _ :: rest =>
        destruct (validate_fetch_first B focus frameId funcName
                    (negb (truthy_opt funcName)
                     || negb (truthy_opt (functionName (execContext (varStore s))))
                     || negb (utils.option_eqb String.eqb funcName
                                (functionName (execContext (varStore s))))) s) as [rest Hrest]
    end.
    exists rest. apply issuedBy_appended.
    unfold validate, bind, get. simpl. rewrite Hgdb, Hthread, Hframe, Hres. simpl. exact Hrest.
  - apply issuedBy_appended.
    unfold validate, bind, get. simpl. rewrite Hgdb, Hthread, Hframe, Hres. simpl.
    unfold updateLocals, update, bind, get, send, modifyStore, modify, ret. simpl.
    rewrite Hgdb. simpl.
    destruct (onVarUpdate B (sent s ++ [VarUpdate])); reflexivity.
  - match goal with
    | |- exists rest, _ = _ :: rest =>
        destruct (validate_fetch_first B focus frameId funcName
                    (negb (truthy_opt funcName)
                     || negb (truthy_opt (functionName (execContext (varStore s))))
                     || negb (utils.option_eqb String.eqb funcName
                                (functionName (execContext (varStore s))))) s) as [rest Hrest]
    end.
    exists rest. apply issuedBy_appended.
    unfold validate, bind, get. simpl. rewrite Hgdb, Hthread, Hframe, Hres. simpl. exact Hrest.
Qed.

Lemma validate_fetches_unless_short_cut_witness :
  (gdb (varStore materializedMain) = true)
  /\ issuedBy (validate mainFrameBackend (thread 1) 0 (Some "main")) materializedMain = [VarUpdate]
  /\ exists rest,
      issuedBy (validate mainFrameBackend (thread 2) 0 (Some "main")) materializedMain
      = localsCmd (thread 2) 0 :: rest.
Proof.
  split; [reflexivity|]. split.
  - exact (@validate_fetches_unless_short_cut mainFrameBackend (thread 1) 0 (Some "main")
             materializedMain eq_refl).
  - exact (@validate_fetches_unless_short_cut mainFrameBackend (thread 2) 0 (Some "main")
             materializedMain eq_refl).
Defined.

(** C2, counterexample: right after the locals were materialized, a second
    validation pass for the same focus and frame fetches no stack-locals
    list at all. *)
Lemma validate_short_cut_skips_fetch :
  ~ (forall (B : GDBBackend) (focus : Focus) (frameId : Z) (funcName : option string)
            (s : Session),
        gdb (varStore s) = true ->
        existsb isStackListVariables (issuedBy (validate B focus frameId funcName) s) = true).
Proof.
  intros H.
  specialize (H mainFrameBackend (thread 1) 0 (Some "main") materializedMain eq_refl).
  vm_compute in H. discriminate H.
Qed.

(** ** The focus controller *)

Section FocusOnFrame.

Variable B : GDBBackend.

Lemma sendCommands_only_sent :
  forall (cs : list Cmd) (s : Session),
    snd (sendCommands B cs s) = set_sent (sent (snd (sendCommands B cs s))) s.
Proof.
  induction cs as [|c cs IH]; intros s; simpl.
  - destruct s; reflexivity.
  - unfold bind, send.
    destruct (onCommand B (sent s ++ [c])); simpl.
    + rewrite IH at 1. reflexivity.
    + reflexivity.
Qed.

Lemma sendCommands_gdbFocusedFrame :
  forall (cs : list Cmd) (s : Session),
    gdbFocusedFrame (snd (sendCommands B cs s)) = gdbFocusedFrame s.
Proof.
  intros cs s. rewrite sendCommands_only_sent. reflexivity.
Qed.

Lemma sendCommands_guard :
  forall cs : list Cmd,
    (if 0 <? Z.of_nat (List.length cs) then sendCommands B cs else ret tt) = sendCommands B cs.
Proof.
  destruct cs; reflexivity.
Qed.

Lemma set_gdbFocusedFrame_None_id :
  forall s : Session, gdbFocusedFrame s = None -> set_gdbFocusedFrame None s = s.
Proof.
  intros [] H. simpl in H. subst. reflexivity.
Qed.

(** With no frame recorded, a call is one pass and nothing more: if the
    pass fails, the nested call gets an undefined frame and returns. *)
Lemma focusOnFrame_fuel_unrecorded :
  forall (n : nat) (frame : option RealizedFrameReference) (s : Session),
    gdbFocusedFrame s = None ->
    focusOnFrame_fuel B (S (S n)) frame s = Some (applyFrameOnce B frame s).
Proof.
  intros n [fr|] s Hnone; [|reflexivity].
  cbn [focusOnFrame_fuel applyFrameOnce]. unfold bind at 1, get at 1.
  destruct (utils.deepEqualFrame (Some fr) (gdbFocusedFrame s)); [reflexivity|].
  destruct (focusOrCurrent fr s) as [focus|]; [|reflexivity].
  rewrite sendCommands_guard. unfold bind, modify.
  pose proof (sendCommands_gdbFocusedFrame
                (focusCommands focus (frameId fr) (gdbFocusedFrame s)) s) as Hkeep.
  destruct (sendCommands B (focusCommands focus (frameId fr) (gdbFocusedFrame s)) s)
    as [[u|e] s1]; simpl in *.
  - reflexivity.
  - rewrite Hkeep, Hnone.
    rewrite set_gdbFocusedFrame_None_id by (now rewrite Hkeep). reflexivity.
Qed.

Lemma applyFrameOnce_failure_keeps_frame :
  forall (frame : option RealizedFrameReference) (s : Session) (e : Error),
    fst (applyFrameOnce B frame s) = Throw e ->
    gdbFocusedFrame (snd (applyFrameOnce B frame s)) = gdbFocusedFrame s.
Proof.
  intros [fr|] s e; [|discriminate].
  unfold applyFrameOnce, bind, get, modify, ret.
  destruct (utils.deepEqualFrame (Some fr) (gdbFocusedFrame s)); [discriminate|].
  destruct (focusOrCurrent fr s) as [focus|]; [|discriminate].
  pose proof (sendCommands_gdbFocusedFrame
                (focusCommands focus (frameId fr) (gdbFocusedFrame s)) s) as Hkeep.
  destruct (sendCommands B (focusCommands focus (frameId fr) (gdbFocusedFrame s)) s)
    as [[u|e'] s1]; simpl in *; [discriminate|].
  intros _. exact Hkeep.
Qed.

Lemma focusOnFrame_fuel_step :
  forall (n : nat) (fr : RealizedFrameReference) (s : Session),
    focusOnFrame_fuel B (S n) (Some fr) s
    = if utils.deepEqualFrame (Some fr) (gdbFocusedFrame s) then Some (Ok tt, s)
      else
        match focusOrCurrent fr s with
        | None => Some (Ok tt, s)
        | Some focus =>
            let commands := focusCommands focus (frameId fr) (gdbFocusedFrame s) in
            match (if (0 <? Z.of_nat (List.length commands))
                   then sendCommands B commands else ret tt) s with
            | (Ok _, s1) =>
                Some (Ok tt, set_gdbFocusedFrame (Some (mkFrame (frameId fr) (Some focus))) s1)
            | (Throw error, s1) =>
                match focusOnFrame_fuel B n (gdbFocusedFrame s1) (set_gdbFocusedFrame None s1) with
                | None => None
                | Some (Ok _, s2) => Some (Throw error, s2)
                | Some (Throw e2, s2) => Some (Throw e2, s2)
                end
            end
        end.
Proof. reflexivity. Qed.

(** The result of a call whose commands fail, for every bound of three
    or more. *)
Lemma focusOnFrame_fuel_failure :
  forall (n : nat) (fr : RealizedFrameReference) (focus : Focus) (e : Error) (s : Session),
    utils.deepEqualFrame (Some fr) (gdbFocusedFrame s) = false ->
    focusOrCurrent fr s = Some focus ->
    fst (sendCommands B (focusCommands focus (frameId fr) (gdbFocusedFrame s)) s) = Throw e ->
    let failed :=
      set_gdbFocusedFrame None
        (snd (sendCommands B (focusCommands focus (frameId fr) (gdbFocusedFrame s)) s)) in
    let recovery := applyFrameOnce B (gdbFocusedFrame s) failed in
    focusOnFrame_fuel B (3 + n) (Some fr) s
    = Some (match fst recovery with
            | Ok _ => Throw e
            | Throw e' => Throw e'
            end, snd recovery).
Proof.
  intros n fr focus e s Hdiff Hfocus Hfail failed recovery.
  change (3 + n)%nat with (S (S (S n))).
  rewrite focusOnFrame_fuel_step, Hdiff, Hfocus. cbv zeta.
  rewrite sendCommands_guard.
  pose proof (sendCommands_gdbFocusedFrame
                (focusCommands focus (frameId fr) (gdbFocusedFrame s)) s) as Hkeep.
  subst recovery failed.
  destruct (sendCommands B (focusCommands focus (frameId fr) (gdbFocusedFrame s)) s)
    as [[u|e0] s1]; simpl in Hfail; [discriminate|].
  injection Hfail as ->. simpl in Hkeep. cbn [snd].
  rewrite focusOnFrame_fuel_unrecorded by reflexivity.
  rewrite Hkeep.
  destruct (applyFrameOnce B (gdbFocusedFrame s) (set_gdbFocusedFrame None s1))
    as [[u|e'] s2]; reflexivity.
Qed.

Lemma sendCommands_state :
  forall (cs : list Cmd) (s : Session),
    snd (sendCommands B cs s)
    = mkSession (cudaThread s) (uiFocusedFrame s) (gdbFocusedFrame s) (varStore s)
                (telemetryInfoSent s) (sent s ++ issuedBy (sendCommands B cs) s) (emitted s).
Proof.
  intros cs s. rewrite sendCommands_only_sent at 1.
  destruct (appends_sendCommands B cs s) as [l Hl].
  rewrite (@issuedBy_appended unit (sendCommands B cs) s l Hl), Hl.
  now destruct s.
Qed.

Lemma selectCommands_unrecorded :
  forall (focus : Focus) (frameId : option Z),
    focusCommands focus frameId None = selectCommands focus frameId.
Proof. intros focus frameId. reflexivity. Qed.

(** C3: when the commands of a focus switch fail with [e], the call
    ends (any bound of three or more on the nested calls gives the same
    result) and has done this and nothing more.  The recorded frame was
    set to undefined: the frame recorded before, if it has a focus, was
    applied again with the full commands for a backend of which no frame
    is recorded, written once after the commands of the failed switch.
    If these commands are accepted, the frame recorded before is
    recorded again and [e] is thrown; if one is rejected, its error is
    thrown, nothing more is written and no frame is recorded.  With no
    frame recorded before, [e] is thrown and no frame is recorded. *)
Theorem focusOnFrame_recovers_once :
  forall (fuel : nat) (fr : RealizedFrameReference) (focus : Focus) (e : Error) (s : Session),
    (3 <= fuel)%nat ->
    utils.deepEqualFrame (Some fr) (gdbFocusedFrame s) = false ->
    focusOrCurrent fr s = Some focus ->
    fst (sendCommands B (focusCommands focus (frameId fr) (gdbFocusedFrame s)) s) = Throw e ->
    let attempted :=
      issuedBy (sendCommands B (focusCommands focus (frameId fr) (gdbFocusedFrame s))) s in
    let unrecorded :=
      mkSession (cudaThread s) (uiFocusedFrame s) None (varStore s)
                (telemetryInfoSent s) (sent s ++ attempted) (emitted s) in
    exists (r : Result unit) (s' : Session),
      focusOnFrame_fuel B fuel (Some fr) s = Some (r, s')
      /\ sameButBackendFocus s s'
      /\ match gdbFocusedFrame s with
         | None =>
             r = Throw e /\ sent s' = sent s ++ attempted /\ gdbFocusedFrame s' = None
         | Some previous =>
             match focusOrCurrent previous s with
             | None =>
                 r = Throw e /\ sent s' = sent s ++ attempted /\ gdbFocusedFrame s' = None
             | Some previousFocus =>
                 let again := selectCommands previousFocus (frameId previous) in
                 sent s' = sent s ++ attempted ++ issuedBy (sendCommands B again) unrecorded
                 /\ match fst (sendCommands B again unrecorded) with
                    | Ok _ =>
                        r = Throw e
                        /\ gdbFocusedFrame s'
                           = Some (mkFrame (frameId previous) (Some previousFocus))
                    | Throw e' => r = Throw e' /\ gdbFocusedFrame s' = None
                    end
             end
         end.
Proof.
  intros fuel fr focus e s Hfuel Hdiff Hfocus Hfail attempted unrecorded.
  replace fuel with (3 + (fuel - 3))%nat by lia.
  rewrite (@focusOnFrame_fuel_failure (fuel - 3) fr focus e s Hdiff Hfocus Hfail).
  rewrite sendCommands_state. fold attempted.
  change (set_gdbFocusedFrame None
            (mkSession (cudaThread s) (uiFocusedFrame s) (gdbFocusedFrame s) (varStore s)
                       (telemetryInfoSent s) (sent s ++ attempted) (emitted s)))
    with unrecorded.
  eexists. eexists. split; [reflexivity|].
  destruct (gdbFocusedFrame s) as [previous|] eqn:Hprev.
  2: { cbn. repeat split. }
  unfold applyFrameOnce, bind, get.
  change (utils.deepEqualFrame (Some previous) (gdbFocusedFrame unrecorded)) with false.
  cbv iota.
  change (focusOrCurrent previous unrecorded) with (focusOrCurrent previous s).
  destruct (focusOrCurrent previous s) as [previousFocus|].
  2: { cbn. repeat split. }
  change (gdbFocusedFrame unrecorded) with (@None RealizedFrameReference).
  rewrite selectCommands_unrecorded. cbv zeta.
  pose proof (sendCommands_state (selectCommands previousFocus (frameId previous)) unrecorded)
    as Hstate.
  destruct (sendCommands B (selectCommands previousFocus (frameId previous)) unrecorded)
    as [[u|e'] s2]; cbn [fst snd] in Hstate |- *; subst s2.
  - unfold modify. cbn. rewrite <- app_assoc. repeat split.
  - cbn. rewrite <- app_assoc. repeat split.
Qed.

(** The nested calls of [focusOnFrame] end within three levels. *)
Lemma focusOnFrame_fuel_enough :
  forall (n : nat) (frame : option RealizedFrameReference) (s : Session),
    focusOnFrame_fuel B (3 + n) frame s = Some (focusOnFrame B frame s).
Proof.
  intros n [fr|] s; [|reflexivity].
  unfold focusOnFrame.
  destruct (utils.deepEqualFrame (Some fr) (gdbFocusedFrame s)) eqn:Hdiff.
  { change (3 + n)%nat with (S (S (S n))). change 3%nat with (S (S (S O))).
    now rewrite !focusOnFrame_fuel_step, Hdiff. }
  destruct (focusOrCurrent fr s) as [focus|] eqn:Hfocus.
  { destruct (sendCommands B (focusCommands focus (frameId fr) (gdbFocusedFrame s)) s)
      as [[u|e] s1] eqn:Hsend.
    - change (3 + n)%nat with (S (S (S n))). change 3%nat with (S (S (S O))).
      rewrite !focusOnFrame_fuel_step, Hdiff, Hfocus. cbv zeta.
      now rewrite sendCommands_guard, Hsend.
    - assert (Hfail : fst (sendCommands B (focusCommands focus (frameId fr) (gdbFocusedFrame s)) s)
                      = Throw e) by now rewrite Hsend.
      rewrite (@focusOnFrame_fuel_failure n fr focus e s Hdiff Hfocus Hfail).
      change 3%nat with (3 + 0)%nat.
      now rewrite (@focusOnFrame_fuel_failure 0 fr focus e s Hdiff Hfocus Hfail). }
  change (3 + n)%nat with (S (S (S n))). change 3%nat with (S (S (S O))).
  now rewrite !focusOnFrame_fuel_step, Hdiff, Hfocus.
Qed.

End FocusOnFrame.

Lemma focusOnFrame_recovers_once_witness :
  let B := rejectingBackend (isThreadSelect 2) in
  let fr := mkFrame (Some 0) (Some (thread 2)) in
  let attempted :=
    issuedBy (sendCommands B (focusCommands (thread 2) (frameId fr) (gdbFocusedFrame onThread1)))
             onThread1 in
  let unrecorded :=
    mkSession (cudaThread onThread1) (uiFocusedFrame onThread1) None (varStore onThread1)
              (telemetryInfoSent onThread1) (sent onThread1 ++ attempted) (emitted onThread1) in
  exists (r : Result unit) (s' : Session),
    focusOnFrame_fuel B 3 (Some fr) onThread1 = Some (r, s')
    /\ sameButBackendFocus onThread1 s'
    /\ match gdbFocusedFrame onThread1 with
       | None =>
           r = Throw "rejected" /\ sent s' = sent onThread1 ++ attempted
           /\ gdbFocusedFrame s' = None
       | Some previous =>
           match focusOrCurrent previous onThread1 with
           | None =>
               r = Throw "rejected" /\ sent s' = sent onThread1 ++ attempted
               /\ gdbFocusedFrame s' = None
           | Some previousFocus =>
               let again := selectCommands previousFocus (frameId previous) in
               sent s' = sent onThread1 ++ attempted
                         ++ issuedBy (sendCommands B again) unrecorded
               /\ match fst (sendCommands B again unrecorded) with
                  | Ok _ =>
                      r = Throw "rejected"
                      /\ gdbFocusedFrame s'
                         = Some (mkFrame (frameId previous) (Some previousFocus))
                  | Throw e' => r = Throw e' /\ gdbFocusedFrame s' = None
                  end
           end
       end.
Proof.
  exact (@focusOnFrame_recovers_once (rejectingBackend (isThreadSelect 2)) 3
           (mkFrame (Some 0) (Some (thread 2))) (thread 2) "rejected" onThread1
           (le_n 3) eq_refl eq_refl eq_refl).
Defined.

(** The recovery at work: thread 2 is rejected, thread 1 is selected again
    and recorded, and the first error reaches the caller. *)
Example focusOnFrame_recovery_run :
  focusOnFrame (rejectingBackend (isThreadSelect 2))
               (Some (mkFrame (Some 0) (Some (thread 2)))) onThread1
  = (Throw "rejected",
     set_sent [ThreadSelect 2; ThreadSelect 1; FrameSelect 0] onThread1).
Proof. reflexivity. Qed.

(** When the recovery fails too, its error is thrown and no frame stays
    recorded. *)
Example focusOnFrame_recovery_fails_run :
  focusOnFrame (rejectingBackend (fun _ => true))
               (Some (mkFrame (Some 0) (Some (thread 2)))) onThread1
  = (Throw "rejected",
     set_gdbFocusedFrame None (set_sent [ThreadSelect 2; ThreadSelect 1] onThread1)).
Proof. reflexivity. Qed.

(** *** What a focus switch leaves alone *)

Section FocusPreserves.

Variable B : GDBBackend.

Lemma sameButBackendFocus_refl : forall s, sameButBackendFocus s s.
Proof. intros s. now repeat split. Qed.

Lemma focusOnFrame_fuel_same :
  forall (fuel : nat) (frame : option RealizedFrameReference) (s : Session)
         (r : Result unit) (s' : Session),
    focusOnFrame_fuel B fuel frame s = Some (r, s') -> sameButBackendFocus s s'.
Proof.
  induction fuel as [|fuel IH]; intros frame s r s' H; [discriminate|].
  destruct frame as [fr|]; [|injection H as _ <-; apply sameButBackendFocus_refl].
  rewrite focusOnFrame_fuel_step in H.
  destruct (utils.deepEqualFrame (Some fr) (gdbFocusedFrame s));
    [injection H as _ <-; apply sameButBackendFocus_refl|].
  destruct (focusOrCurrent fr s) as [focus|];
    [|injection H as _ <-; apply sameButBackendFocus_refl].
  cbv zeta in H. rewrite sendCommands_guard in H.
  pose proof (sendCommands_only_sent B
                (focusCommands focus (frameId fr) (gdbFocusedFrame s)) s) as Honly.
  destruct (sendCommands B (focusCommands focus (frameId fr) (gdbFocusedFrame s)) s)
    as [[u|e] s1]; simpl in Honly.
  - injection H as _ <-. rewrite Honly. now repeat split.
  - destruct (focusOnFrame_fuel B fuel (gdbFocusedFrame s1) (set_gdbFocusedFrame None s1))
      as [[[u|e2] s2]|] eqn:Hrec; try discriminate;
      injection H as _ <-; apply IH in Hrec;
      destruct Hrec as (H1 & H2 & H3 & H4); rewrite Honly in H1, H2, H3, H4;
      now repeat split.
Qed.

Lemma focusOnFrame_same :
  forall (frame : option RealizedFrameReference) (s : Session),
    sameButBackendFocus s (snd (focusOnFrame B frame s)).
Proof.
  intros frame s.
  pose proof (focusOnFrame_fuel_enough B 0 frame s) as H.
  destruct (focusOnFrame B frame s) as [r s'].
  apply (focusOnFrame_fuel_same _ _ _ H).
Qed.

End FocusPreserves.

Lemma coerceDim_merged :
  forall requested current : option CudaDim,
    coerceDim requested current = mergedDim requested current.
Proof.
  intros [[[?|] [?|] [?|]]|] [[[?|] [?|] [?|]]|]; reflexivity.
Qed.

(** C6 (as amended): a focus-change request with software coordinates, made while the
    pseudo-thread has a software focus and accepted by the backend, sets
    the focus of the pseudo-thread to the dimension-wise merge: each
    component of [blockIdx] and [threadIdx] is the requested one if
    given, else the current one, else 0; the response carries this focus. *)
Theorem changeCudaFocus_software_merges :
  forall (B : GDBBackend) (fb ft cb ct : option CudaDim) (s : Session),
    thread_focus (cudaThread s) = Some (software cb ct) ->
    fst (focusOnThread B (Some (cuda (software fb ft))) s) = Ok tt ->
    let s' := snd (changeCudaFocusRequest B (software fb ft) s) in
    let merged := software (Some (mergedDim fb cb)) (Some (mergedDim ft ct)) in
    thread_focus (cudaThread s') = Some merged
    /\ emitted s' = emitted s ++ [SendResponse (FocusBody merged);
                                  ChangedCudaFocusEvent (Some merged);
                                  InvalidatedEvent ["stacks"; "variables"];
                                  StoppedEvent "Refreshing State"].
Proof.
  intros B fb ft cb ct s Hcur Hok s' merged. subst s' merged.
  unfold changeCudaFocusRequest, tryCatch, bind, focusOnThread in *.
  pose proof (focusOnFrame_same B (Some (mkFrame (Some 0) (Some (cuda (software fb ft))))) s)
    as (Hthread & Hui & _ & Hemit).
  destruct (focusOnFrame B (Some (mkFrame (Some 0) (Some (cuda (software fb ft))))) s)
    as [[u|e] s1]; simpl in Hok, Hthread, Hui, Hemit; [|discriminate].
  unfold get, ret, setFocus, modify, emit, invalidateAreas, invalidateState. simpl.
  rewrite Hthread, Hcur. simpl.
  rewrite (coerceDim_merged fb cb), (coerceDim_merged ft ct).
  destruct (uiFocusedFrame s1) as [ui|]; simpl.
  - destruct (isCudaFocus (focus ui)); simpl; rewrite Hemit, <- !app_assoc; split; reflexivity.
  - rewrite Hemit, <- !app_assoc. split; reflexivity.
Qed.

Lemma changeCudaFocus_software_merges_witness :
  let s' := snd (changeCudaFocusRequest acceptingBackend (threadIdxX 7) onDeviceAt) in
  let merged := software (Some (mergedDim None (Some block123)))
                         (Some (mergedDim (Some (mkCudaDim (Some 7) None None))
                                          (Some thread456))) in
  thread_focus (cudaThread s') = Some merged
  /\ emitted s' = emitted onDeviceAt ++ [SendResponse (FocusBody merged);
                                         ChangedCudaFocusEvent (Some merged);
                                         InvalidatedEvent ["stacks"; "variables"];
                                         StoppedEvent "Refreshing State"].
Proof.
  exact (@changeCudaFocus_software_merges acceptingBackend None
           (Some (mkCudaDim (Some 7) None None)) (Some block123) (Some thread456) onDeviceAt
           eq_refl eq_refl).
Defined.

(** Only [threadIdx.x] is requested: the block index and the other two
    components of the thread index are those of the current focus. *)
Example changeCudaFocus_threadIdx_x :
  thread_focus (cudaThread (snd (changeCudaFocusRequest acceptingBackend (threadIdxX 7)
                                                        onDeviceAt)))
  = Some (software (Some (mkCudaDim (Some 1) (Some 2) (Some 3)))
                   (Some (mkCudaDim (Some 7) (Some 5) (Some 6)))).
Proof. reflexivity. Qed.

(** Components absent from the request and from the current focus are 0. *)
Example changeCudaFocus_defaults_to_zero :
  thread_focus (cudaThread (snd (changeCudaFocusRequest acceptingBackend (threadIdxX 7)
      (set_cudaThread (mkThread (Some (software None (Some (mkCudaDim None (Some 5) None)))))
                      newSession))))
  = Some (software (Some (mkCudaDim (Some 0) (Some 0) (Some 0)))
                   (Some (mkCudaDim (Some 7) (Some 5) (Some 0)))).
Proof. reflexivity. Qed.

(** C6, counterexample: the claim as worded, for every request in
    software mode, fails when the backend rejects the focus switch.  The
    pseudo-thread is at block (1,2,3), thread (4,5,6); the request names
    [threadIdx.x = 7], and the backend rejects that focus.  The focus of
    the pseudo-thread is not the merge: it stays as it was, the request is
    answered with an error response, and the backend is put back on the
    focus it had. *)
Lemma changeCudaFocus_rejected_not_merged :
  ~ (forall (B : GDBBackend) (fb ft cb ct : option CudaDim) (s : Session),
        thread_focus (cudaThread s) = Some (software cb ct) ->
        thread_focus (cudaThread (snd (changeCudaFocusRequest B (software fb ft) s)))
        = Some (software (Some (mergedDim fb cb)) (Some (mergedDim ft ct)))).
Proof.
  intros H.
  specialize (H noThread7Backend None (Some (mkCudaDim (Some 7) None None))
                (Some block123) (Some thread456) onDeviceAt eq_refl).
  vm_compute in H. discriminate H.
Qed.

Example changeCudaFocus_rejected_run :
  let s' := snd (changeCudaFocusRequest noThread7Backend (threadIdxX 7) onDeviceAt) in
  thread_focus (cudaThread s') = Some software123456
  /\ emitted s' = [SendErrorResponse 1 "rejected"]
  /\ sent s' = [SetCudaFocus (threadIdxX 7); SetCudaFocus software123456; FrameSelect 0]
  /\ gdbFocusedFrame s' = Some (mkFrame (Some 0) (Some (cuda software123456))).
Proof. repeat split. Qed.

(** A request that mixes the variants leaves the focus of the
    pseudo-thread and the UI frame alone and ends with an error response. *)
Lemma changeCudaFocus_mixed_keeps_thread_focus :
  forall (B : GDBBackend) (fs fw fl : option Z) (cb ct : option CudaDim) (s : Session),
    thread_focus (cudaThread s) = Some (software cb ct) ->
    fst (focusOnThread B (Some (cuda (hardware fs fw fl))) s) = Ok tt ->
    let s' := snd (changeCudaFocusRequest B (hardware fs fw fl) s) in
    thread_focus (cudaThread s') = Some (software cb ct)
    /\ uiFocusedFrame s' = uiFocusedFrame s
    /\ emitted s' = emitted s ++ [SendErrorResponse 1 mixingMessage].
Proof.
  intros B fs fw fl cb ct s Hcur Hok s'. subst s'.
  unfold changeCudaFocusRequest, tryCatch, bind, focusOnThread in *.
  pose proof (focusOnFrame_same B (Some (mkFrame (Some 0) (Some (cuda (hardware fs fw fl))))) s)
    as (Hthread & Hui & _ & Hemit).
  destruct (focusOnFrame B (Some (mkFrame (Some 0) (Some (cuda (hardware fs fw fl))))) s)
    as [[u|e] s1]; simpl in Hok, Hthread, Hui, Hemit; [|discriminate].
  unfold get, ret, emit, modify. simpl.
  rewrite Hthread, Hcur. simpl. rewrite Hemit, Hthread, Hcur, Hui. now repeat split.
Qed.

(** C5, the failing input: the pseudo-thread has a software focus and the
    request names hardware coordinates.  The request is answered with the
    error and the focus of the pseudo-thread stays, but the focus command
    for the hardware coordinates was written to the backend and the
    recorded backend frame now is the requested one. *)
Theorem changeCudaFocus_mixed_switches_backend :
  let requested := hardware (Some 1) (Some 0) (Some 0) in
  let s' := snd (changeCudaFocusRequest acceptingBackend requested onDevice) in
  emitted s' = [SendErrorResponse 1 mixingMessage]
  /\ thread_focus (cudaThread s') = thread_focus (cudaThread onDevice)
  /\ sent s' = [SetCudaFocus requested; FrameSelect 0]
  /\ gdbFocusedFrame onDevice = Some (mkFrame (Some 0) (Some (cuda softwareOrigin)))
  /\ gdbFocusedFrame s' = Some (mkFrame (Some 0) (Some (cuda requested))).
Proof.
  repeat split.
Qed.

(** ** The pseudo-thread *)

#[local] Arguments utils.equalsCudaFocus : simpl never.

Lemma equalsCudaDim_refl : forall d, utils.equalsCudaDim d d = true.
Proof.
  intros [[?|] [?|] [?|]]; unfold utils.equalsCudaDim; simpl;
    rewrite ?Z.eqb_refl; reflexivity.
Qed.

Lemma cudaFocus_eqb_refl : forall f, utils.cudaFocus_eqb f f = true.
Proof.
  intros [[b|] [t|] | [?|] [?|] [?|]]; simpl;
    rewrite ?equalsCudaDim_refl, ?Z.eqb_refl; reflexivity.
Qed.

(** C8 (as amended): [hasFocus] is false in every state.  A stop record
    with device-location fields leaves the focus parsed from the fields
    on the pseudo-thread, and [hasFocus] is false all the same; no focus
    command is written on the way. *)
Theorem hasFocus_always_false :
  forall (B : GDBBackend) (blockIdx threadIdx : option CudaDim) (s : Session),
    let s' := snd (handleGDBAsync B "stopped" (mkAsync (Some (blockIdx, threadIdx))) s) in
    hasFocus (cudaThread s) = false
    /\ hasFocus (cudaThread s') = false
    /\ utils.equalsCudaFocus (Some (software blockIdx threadIdx))
                             (thread_focus (cudaThread s')) = true
    /\ sent s' = sent s.
Proof.
  intros B blockIdx threadIdx s s'. subst s'.
  split; [reflexivity|]. split; [reflexivity|].
  split; [|apply handleGDBAsync_stopped_sent].
  unfold handleGDBAsync, bind, get, ret, emit, modifyStore, modify, setFocus,
    resetCudaFocus, hasFocus. simpl.
  destruct (utils.equalsCudaFocus (Some (software blockIdx threadIdx))
              (thread_focus (cudaThread s))) eqn:Heq; simpl.
  - exact Heq.
  - apply cudaFocus_eqb_refl.
Qed.

(** C8, counterexample: a stop at block (0,0,0), thread (0,0,0) sets a
    focus with every coordinate present, and [hasFocus] does not reflect
    it. *)
Lemma hasFocus_ignores_confirmed_focus :
  ~ (forall (B : GDBBackend) (blockIdx threadIdx : option CudaDim) (s : Session),
        let s' := snd (handleGDBAsync B "stopped" (mkAsync (Some (blockIdx, threadIdx))) s) in
        hasFocus (cudaThread s') = utils.isCudaFocusValid (thread_focus (cudaThread s'))).
Proof.
  intros H.
  specialize (H acceptingBackend (Some origin) (Some origin) newSession).
  vm_compute in H. discriminate H.
Qed.

(** A stop with no device-location fields does not clear the focus. *)
Example stop_on_host_keeps_focus :
  thread_focus (cudaThread (snd (handleGDBAsync acceptingBackend "stopped" (mkAsync None) onDevice)))
  = Some softwareOrigin.
Proof. reflexivity. Qed.

(** ** The disassembly request *)

Lemma repeat_all :
  forall (A : Type) (a : A) (n : nat), Forall (fun b => b = a) (repeat a n).
Proof.
  intros A a n. induction n; simpl; constructor; auto.
Qed.

(** C7 (as amended): a disassemble request whose memory reference is the
    sentinel address, whose byte offset is absent or zero and whose
    instruction count is an array length answers with exactly
    [instructionCount] copies of the dummy instruction, none of which has
    raw opcode bytes; no command is written and the rest of the request
    body is not run. *)
Theorem disassemble_sentinel_reference :
  forall (disassembleFrom : CDTDisassembleArguments -> M unit)
         (args : CDTDisassembleArguments) (s : Session),
    memoryReference args = invalidAddress ->
    offset args = None \/ offset args = Some 0 ->
    0 <= instructionCount args < 2 ^ 32 ->
    exists instructions,
      disassembleRequest disassembleFrom args s
      = (Ok tt, set_emitted (emitted s ++ [SendResponse (InstructionsBody instructions)]) s)
      /\ Z.of_nat (List.length instructions) = instructionCount args
      /\ Forall (fun i => i = dummyInstruction) instructions
      /\ Forall (fun i => instructionBytes i = None) instructions.
Proof.
  intros disassembleFrom args s Href Hoff Hcount.
  exists (repeat dummyInstruction (Z.to_nat (instructionCount args))).
  split; [|split; [|split]].
  - unfold disassembleRequest, bind, get, hasFocus. simpl.
    assert (Hno : match offset args with
                  | Some o => negb (o =? 0)
                  | None => false
                  end = false) by (destruct Hoff as [-> | ->]; reflexivity).
    rewrite Hno, Href. simpl.
    unfold newArrayFill.
    assert (Hin : (0 <=? instructionCount args) && (instructionCount args <? 2 ^ 32) = true).
    { apply andb_true_iff. split; [apply Z.leb_le | apply Z.ltb_lt]; lia. }
    rewrite Hin. reflexivity.
  - rewrite repeat_length. lia.
  - apply repeat_all.
  - apply Forall_forall. intros i Hi. apply repeat_spec in Hi. now subst i.
Qed.

Lemma disassemble_sentinel_reference_witness :
  exists instructions,
    disassembleRequest (fun _ => ret tt) (mkDisassembleArgs invalidAddress None (Some (-2)) 3 None)
                       newSession
    = (Ok tt, set_emitted (emitted newSession ++ [SendResponse (InstructionsBody instructions)])
                          newSession)
    /\ Z.of_nat (List.length instructions) = 3
    /\ Forall (fun i => i = dummyInstruction) instructions
    /\ Forall (fun i => instructionBytes i = None) instructions.
Proof.
  apply (@disassemble_sentinel_reference (fun _ => ret tt)
           (mkDisassembleArgs invalidAddress None (Some (-2)) 3 None) newSession).
  - reflexivity.
  - left. reflexivity.
  - simpl. lia.
Defined.

(** C7, counterexample: with a byte offset of 4 the request for the
    sentinel address is answered with an error and no instruction. *)
Lemma disassemble_sentinel_with_offset :
  ~ (forall (disassembleFrom : CDTDisassembleArguments -> M unit)
            (args : CDTDisassembleArguments) (s : Session),
        memoryReference args = invalidAddress ->
        0 <= instructionCount args < 2 ^ 32 ->
        exists instructions,
          emitted (snd (disassembleRequest disassembleFrom args s))
          = emitted s ++ [SendResponse (InstructionsBody instructions)]
          /\ Z.of_nat (List.length instructions) = instructionCount args).
Proof.
  intros H.
  destruct (H (fun _ => ret tt) (mkDisassembleArgs invalidAddress (Some 4) None 3 None)
              newSession eq_refl) as [instructions [Hemitted _]].
  - simpl. lia.
  - vm_compute in Hemitted. discriminate Hemitted.
Qed.

Example disassemble_sentinel_with_offset_run :
  emitted (snd (disassembleRequest (fun _ => ret tt)
                  (mkDisassembleArgs invalidAddress (Some 4) None 3 None) newSession))
  = [SendErrorResponse 1 unsupportedOffset].
Proof. reflexivity. Qed.

(** ** The register view *)

(** A raw value that is not empty and does not parse as a number adds two
    variables: the raw string, and the string [NaN]. *)
Lemma registerVariables_not_numeric :
  forall (group : RegisterGroup) (m : NumberMap) (reg : Register) (raw : string),
    numberMap_get (ordinal reg) m = Some raw ->
    truthy raw = true ->
    parseInt raw = None ->
    registerVariables group m reg
    = [mkVariable (reg_name reg) raw; mkVariable (reg_name reg) "NaN"].
Proof.
  intros group m reg raw Hget Hraw Hnan.
  unfold registerVariables. rewrite Hget, Hraw, Hnan. simpl.
  destruct (isPredicate group); reflexivity.
Qed.

(** A raw value that parses as a number adds one variable: the decimal
    string in a predicate group, the output of [toFixedHex] at width 8
    otherwise. *)
Lemma registerVariables_numeric :
  forall (group : RegisterGroup) (m : NumberMap) (reg : Register) (raw : string) (v : Z),
    numberMap_get (ordinal reg) m = Some raw ->
    truthy raw = true ->
    parseInt raw = Some v ->
    registerVariables group m reg
    = [mkVariable (reg_name reg)
                  (if isPredicate group then toString (Some v) else toFixedHex (Some v) 8)].
Proof.
  intros group m reg raw v Hget Hraw Hnum.
  unfold registerVariables. rewrite Hget, Hraw, Hnum. simpl.
  destruct (isPredicate group); reflexivity.
Qed.

(** The hexadecimal rendering never is the string [NaN], so a number is
    always padded: the digits after [0x] are those of the value, filled
    with zeros on the left up to eight. *)
Lemma toString16_not_NaN :
  forall v : Z, String.eqb (toString16 (Some v)) "NaN" = false.
Proof.
  intros [|p|p]; unfold toString16, Z.to_hex_int; simpl.
  - reflexivity.
  - destruct (Pos.to_hex_uint p); reflexivity.
  - destruct (Pos.to_hex_uint p); reflexivity.
Qed.

Lemma length_append :
  forall a b : string,
    String.length (String.append a b) = (String.length a + String.length b)%nat.
Proof.
  induction a as [|c a IH]; simpl; intros b; [reflexivity | now rewrite IH].
Qed.

Lemma length_repeatString_zero :
  forall n : nat, String.length (repeatString "0" n) = n.
Proof.
  induction n as [|n IH]; simpl; [reflexivity | now rewrite IH].
Qed.

Lemma toFixedHex_width :
  forall v : Z,
    exists digits,
      toFixedHex (Some v) 8 = String.append "0x" digits
      /\ String.length digits = Nat.max 8 (String.length (toString16 (Some v))).
Proof.
  intros v. unfold toFixedHex. rewrite toString16_not_NaN.
  eexists. split; [reflexivity|].
  rewrite length_append, length_repeatString_zero. lia.
Qed.

Example register_hex_run :
  emitted (snd (registersRequest (registersBackend [mkPair "0" "0x1f"]) generalGroup newSession))
  = [SendResponse (VariablesBody [mkVariable "R0" "0x0000001f"])].
Proof. reflexivity. Qed.

Example register_predicate_run :
  emitted (snd (registersRequest (registersBackend [mkPair "7" "0x1"]) predicateGroup newSession))
  = [SendResponse (VariablesBody [mkVariable "P0" "1"])].
Proof. reflexivity. Qed.

(** C9, the failing input: the backend cannot read the register values,
    so the request records the raw value [N/A] for register [R0]; the
    response then holds two variables for [R0], the raw string and the
    string [NaN], where the claim has exactly one. *)
Theorem registers_not_numeric_twice :
  emitted (snd (registersRequest noRegistersBackend generalGroup newSession))
  = [SendResponse (VariablesBody [mkVariable "R0" "N/A"; mkVariable "R0" "NaN"])]
  /\ emitted (snd (registersRequest (registersBackend [mkPair "7" "<unavailable>"])
                                    predicateGroup newSession))
     = [SendResponse (VariablesBody [mkVariable "P0" "<unavailable>"; mkVariable "P0" "NaN"])].
Proof.
  split; reflexivity.
Qed.

(** ** The execution queue *)

Module ExecutionQueueFacts.

Import ExecutionQueue.

Lemma run_app :
  forall (es es' : list Event) (s : State),
    run (es ++ es') s = match run es s with
                        | Some s' => run es' s'
                        | None => None
                        end.
Proof.
  induction es as [|e es IH]; intros es' s; simpl; [reflexivity|].
  destruct (step e s); [apply IH | reflexivity].
Qed.

Lemma nth_error_store :
  forall (A : Type) (l : list A) (i : nat) (v a : A),
    nth_error l i = Some a -> nth_error (store i v l) i = Some v.
Proof.
  induction l as [|b l IH]; intros [|i] v a H; simpl in *; try discriminate; eauto.
Qed.

(** *** The sequential log under a new task and under a new outcome *)

Lemma sequential_snoc_idle :
  forall (ts : list Item) (os : list Outcome) (t : Item),
    List.length os = List.length ts ->
    sequential (ts ++ [t]) os = sequential ts os ++ [Call t].
Proof.
  induction ts as [|t0 ts IH]; intros [|o os] t Hlen; simpl in *; try discriminate.
  - reflexivity.
  - rewrite IH by (now injection Hlen). reflexivity.
Qed.

Lemma sequential_snoc_busy :
  forall (ts : list Item) (os : list Outcome) (t : Item),
    (List.length os < List.length ts)%nat ->
    sequential (ts ++ [t]) os = sequential ts os.
Proof.
  induction ts as [|t0 ts IH]; intros [|o os] t Hlen; simpl in *; try lia.
  - reflexivity.
  - rewrite IH by lia. reflexivity.
Qed.

Lemma sequential_settle_next :
  forall (ts : list Item) (os : list Outcome) (o : Outcome) (t t' : Item),
    nth_error ts (List.length os) = Some t ->
    nth_error ts (S (List.length os)) = Some t' ->
    sequential ts (os ++ [o]) = sequential ts os ++ [deliver t o; Call t'].
Proof.
  induction ts as [|t0 ts IH]; intros [|o0 os] o t t' Ht Ht'; simpl in *; try discriminate.
  - injection Ht as ->. destruct ts as [|t1 ts]; [discriminate|].
    simpl in Ht'. injection Ht' as ->. reflexivity.
  - rewrite (IH os o t t') by assumption. reflexivity.
Qed.

Lemma sequential_settle_last :
  forall (ts : list Item) (os : list Outcome) (o : Outcome) (t : Item),
    nth_error ts (List.length os) = Some t ->
    S (List.length os) = List.length ts ->
    sequential ts (os ++ [o]) = sequential ts os ++ [deliver t o].
Proof.
  induction ts as [|t0 ts IH]; intros [|o0 os] o t Ht Hlen; simpl in *; try discriminate.
  - injection Ht as ->. destruct ts; [reflexivity | discriminate].
  - rewrite (IH os o t) by (assumption || now injection Hlen). reflexivity.
Qed.

Lemma Inv_init : Inv init [] [].
Proof.
  split; [reflexivity|]. exists [], []. repeat split. left. now repeat split.
Qed.

Lemma Inv_execute :
  forall (s s' : State) (ts : list Item) (os : list Outcome) (t : Item),
    Inv s ts os -> execute t s = Some s' -> Inv s' (ts ++ [t]) os.
Proof.
  intros s s' ts os t [Hlog (drained & items & Hts & Hheap & Hcase)] Hstep.
  unfold execute in Hstep. rewrite Hheap in Hstep.
  destruct Hcase as [(Hempty & Hact & Hlen) | (i & Hact & Hi & Hlen)].
  - subst items. simpl in Hstep. unfold advance in Hstep. simpl in Hstep.
    rewrite (nth_error_store _ _ [t] Hheap) in Hstep. simpl in Hstep.
    rewrite Hact in Hstep. simpl in Hstep. injection Hstep as <-.
    rewrite app_nil_r in Hts. subst drained.
    split.
    + simpl. rewrite Hlog. symmetry. now apply sequential_snoc_idle.
    + exists ts, [t]. simpl. split; [reflexivity|].
      split; [now apply (nth_error_store _ _ [t] Hheap)|].
      right. exists 0%nat. repeat split; simpl; lia.
  - assert (Hnot1 : Nat.eqb (List.length (items ++ [t])) 1 = false).
    { apply Nat.eqb_neq. rewrite length_app. simpl. lia. }
    cbv zeta in Hstep. rewrite Hnot1 in Hstep. injection Hstep as <-.
    split.
    + simpl. rewrite Hlog. symmetry. apply sequential_snoc_busy.
      rewrite Hts, length_app. lia.
    + exists drained, (items ++ [t]). simpl. split; [now rewrite Hts, app_assoc|].
      split; [now apply (nth_error_store _ _ (items ++ [t]) Hheap)|].
      right. exists i. repeat split; try assumption. rewrite length_app. simpl. lia.
Qed.

Lemma Inv_settle :
  forall (s s' : State) (ts : list Item) (os : list Outcome) (k : nat) (o : Outcome),
    Inv s ts os -> settle k o s = Some s' -> Inv s' ts (os ++ [o]).
Proof.
  intros s s' ts os k o [Hlog (drained & items & Hts & Hheap & Hcase)] Hstep.
  unfold settle in Hstep.
  destruct Hcase as [(Hempty & Hact & Hlen) | (i & Hact & Hi & Hlen)].
  - rewrite Hact in Hstep. destruct k; discriminate.
  - rewrite Hact in Hstep. destruct k as [|k]; [|destruct k; discriminate].
    simpl in Hstep. rewrite Hheap in Hstep.
    destruct (nth_error items i) as [task|] eqn:Htask;
      [|apply nth_error_None in Htask; lia].
    assert (Hnth : nth_error ts (List.length os) = Some task).
    { rewrite Hts, Hlen, nth_error_app2 by lia.
      now replace (List.length drained + i - List.length drained)%nat with i by lia. }
    unfold advance in Hstep.
    cbn [heap queue activations log array index remove_nth firstn skipn app] in Hstep.
    rewrite Hheap in Hstep.
    destruct (nth_error items (S i)) as [next|] eqn:Hnext.
    + injection Hstep as <-.
      assert (Hnth' : nth_error ts (S (List.length os)) = Some next).
      { rewrite Hts, Hlen, nth_error_app2 by lia.
        now replace (S (List.length drained + i) - List.length drained)%nat with (S i) by lia. }
      split.
      * simpl. rewrite Hlog, <- app_assoc. symmetry. now apply sequential_settle_next.
      * exists drained, items. simpl. repeat split; try assumption.
        right. exists (S i). repeat split.
        -- apply nth_error_Some. now rewrite Hnext.
        -- rewrite length_app. simpl. lia.
    + injection Hstep as <-.
      apply nth_error_None in Hnext.
      assert (Hlast : S (List.length os) = List.length ts).
      { rewrite Hts, length_app. lia. }
      split.
      * simpl. rewrite Hlog. symmetry. now apply sequential_settle_last.
      * exists ts, []. simpl. split; [now rewrite app_nil_r|].
        split; [now rewrite nth_error_app2, Nat.sub_diag by lia|].
        left. repeat split. rewrite length_app. simpl. lia.
Qed.

Lemma Inv_run :
  forall (es : list Event) (s : State),
    run es init = Some s -> Inv s (submitted es) (outcomes es).
Proof.
  induction es as [|e es IH] using rev_ind; intros s Hrun.
  - injection Hrun as <-. apply Inv_init.
  - rewrite run_app in Hrun.
    destruct (run es init) as [s0|] eqn:Hrun0; [|discriminate].
    specialize (IH s0 eq_refl).
    unfold submitted, outcomes. rewrite !flat_map_app.
    fold (submitted es). fold (outcomes es). simpl in Hrun.
    destruct e as [t|k o]; simpl; simpl in Hrun.
    + destruct (execute t s0) as [s1|] eqn:Hstep; [|discriminate].
      injection Hrun as <-. rewrite app_nil_r.
      eapply Inv_execute; eassumption.
    + destruct (settle k o s0) as [s1|] eqn:Hstep; [|discriminate].
      injection Hrun as <-. rewrite app_nil_r.
      eapply Inv_settle; eassumption.
Qed.



(** Once every submitted task has its outcome, the whole sequential log
    was produced: every task ran, whatever failed before it. *)
Lemma queue_drains :
  forall (es : list Event) (s : State),
    run es init = Some s ->
    List.length (outcomes es) = List.length (submitted es) ->
    activations s = [] /\ List.length (log s) = (2 * List.length (submitted es))%nat.
Proof.
  intros es s Hrun Hall.
  destruct (Inv_run es Hrun) as [Hlog (drained & items & Hts & Hheap & Hcase)].
  destruct Hcase as [(Hempty & Hact & Hlen) | (i & Hact & Hi & Hlen)].
  - split; [exact Hact|]. rewrite Hlog. clear - Hall.
    revert Hall. generalize (outcomes es) as os. generalize (submitted es) as ts.
    induction ts as [|t ts IH]; intros [|o os] Hall; simpl in *; try discriminate.
    + reflexivity.
    + rewrite (IH os) by (now injection Hall). lia.
  - rewrite Hts, length_app in Hall. lia.
Qed.

End ExecutionQueueFacts.

(** * Further properties of the code *)

Unset Implicit Arguments.

(** ** The store: the map of variable objects *)

Lemma keeps_ret : forall (A : Type) (P : Session -> Prop) (a : A), keeps P (ret a).
Proof. intros A P a s H. exact H. Qed.

Lemma keeps_throw : forall (A : Type) (P : Session -> Prop) (e : Error), keeps P (@throw A e).
Proof. intros A P e s H. exact H. Qed.

Lemma keeps_bind :
  forall (A C : Type) (P : Session -> Prop) (m : M A) (k : A -> M C),
    keeps P m -> (forall a, keeps P (k a)) -> keeps P (bind m k).
Proof.
  intros A C P m k Hm Hk s Hs. unfold bind.
  specialize (Hm s Hs). destruct (m s) as [[a|e] s1]; simpl in *.
  - now apply Hk.
  - exact Hm.
Qed.

Lemma keeps_tryCatch :
  forall (A : Type) (P : Session -> Prop) (m : M A) (h : Error -> M A),
    keeps P m -> (forall e, keeps P (h e)) -> keeps P (tryCatch m h).
Proof.
  intros A P m h Hm Hh s Hs. unfold tryCatch.
  specialize (Hm s Hs). destruct (m s) as [[a|e] s1]; simpl in *.
  - exact Hm.
  - now apply Hh.
Qed.

Lemma keeps_get_bind :
  forall (C : Type) (P : Session -> Prop) (k : Session -> M C),
    (forall s0, keeps P (k s0)) -> keeps P (bind get k).
Proof.
  intros C P k Hk s Hs. unfold bind, get. now apply Hk.
Qed.

Lemma keeps_send :
  forall (A : Type) (Q : JSMap.t SimplifiedVarObjType -> Prop)
         (oracle : list Cmd -> Result A) (c : Cmd),
    keeps (onMap Q) (send oracle c).
Proof. intros A Q oracle c s H. exact H. Qed.

Lemma keeps_emit :
  forall (Q : JSMap.t SimplifiedVarObjType -> Prop) (o : Output), keeps (onMap Q) (emit o).
Proof. intros Q o s H. exact H. Qed.

Lemma keeps_sendCommands :
  forall (Q : JSMap.t SimplifiedVarObjType -> Prop) (B : GDBBackend) (cs : list Cmd),
    keeps (onMap Q) (sendCommands B cs).
Proof.
  intros Q B cs. induction cs as [|c cs IH]; simpl.
  - apply keeps_ret.
  - apply keeps_bind; [apply keeps_send | intros _; exact IH].
Qed.

Lemma keeps_modifyStore_map :
  forall (Q : JSMap.t SimplifiedVarObjType -> Prop)
         (f : JSMap.t SimplifiedVarObjType -> JSMap.t SimplifiedVarObjType),
    (forall m, Q m -> Q (f m)) ->
    keeps (onMap Q) (modifyStore (fun st => set_byName (f (byName st)) st)).
Proof. intros Q f Hf s H. unfold onMap in *. simpl. now apply Hf. Qed.

Lemma keeps_set_execContext :
  forall (Q : JSMap.t SimplifiedVarObjType -> Prop) (c : ExecContext),
    keeps (onMap Q) (modifyStore (set_execContext c)).
Proof. intros Q c s H. exact H. Qed.

(** *** [set] and [delete] on a map filed by name *)

Lemma JSMap_set_keys_in :
  forall (V : Type) (k : string) (v : V) (m : JSMap.t V),
    In k (map fst m) -> map fst (JSMap.set k v m) = map fst m.
Proof.
  induction m as [|[k' v'] m IH]; simpl; intros Hin; [contradiction|].
  destruct (String.eqb_spec k' k) as [->|Hne]; simpl; [reflexivity|].
  f_equal. apply IH. destruct Hin as [Heq|Hin]; [contradiction | exact Hin].
Qed.

Lemma JSMap_set_NoDup :
  forall (V : Type) (k : string) (v : V) (m : JSMap.t V),
    NoDup (map fst m) -> NoDup (map fst (JSMap.set k v m)).
Proof.
  intros V k v m Hnd.
  destruct (in_dec string_dec k (map fst m)) as [Hin|Hout].
  - now rewrite JSMap_set_keys_in.
  - rewrite JSMap_set_fresh by exact Hout. rewrite map_app. simpl.
    apply (Permutation_NoDup (Permutation_cons_append (map fst m) k)).
    now constructor.
Qed.

Lemma JSMap_set_Forall :
  forall (V : Type) (P : string * V -> Prop) (k : string) (v : V) (m : JSMap.t V),
    P (k, v) -> Forall P m -> Forall P (JSMap.set k v m).
Proof.
  induction m as [|[k' v'] m IH]; simpl; intros Hkv Hm.
  - now constructor.
  - inversion Hm; subst. destruct (String.eqb k' k); constructor; auto.
Qed.

Lemma filedByName_set :
  forall (vo : SimplifiedVarObjType) (m : JSMap.t SimplifiedVarObjType),
    filedByName m -> filedByName (JSMap.set (varname vo) vo m).
Proof.
  intros vo m [Hnd Hkeys]. split.
  - now apply JSMap_set_NoDup.
  - now apply JSMap_set_Forall.
Qed.

Lemma filedByName_delete :
  forall (k : string) (m : JSMap.t SimplifiedVarObjType),
    filedByName m -> filedByName (JSMap.delete k m).
Proof.
  intros k m [Hnd Hkeys]. unfold JSMap.delete. split.
  - clear Hkeys. induction m as [|[k' v'] m IH]; simpl; [constructor|].
    inversion Hnd as [|? ? Hnotin Hnd']; subst.
    destruct (negb (String.eqb k' k)); simpl; [|now apply IH].
    constructor; [|now apply IH].
    intros Hin. apply Hnotin. apply in_map_iff in Hin.
    destruct Hin as [kv [Heq Hkv]]. apply filter_In in Hkv.
    apply in_map_iff. exists kv. tauto.
  - apply Forall_forall. intros kv Hkv. apply filter_In in Hkv.
    rewrite Forall_forall in Hkeys. now apply Hkeys.
Qed.

Lemma JSMap_get_In :
  forall (V : Type) (k : string) (v : V) (m : JSMap.t V),
    JSMap.get k m = Some v -> In (k, v) m.
Proof.
  induction m as [|[k' v'] m IH]; simpl; intros H; [discriminate|].
  destruct (String.eqb_spec k' k) as [->|Hne].
  - injection H as ->. now left.
  - right. now apply IH.
Qed.

Lemma updateVarObj_identity :
  forall (vo : SimplifiedVarObjType) (ch : VarUpdateChanges),
    identityOf (updateVarObj vo ch) = identityOf vo.
Proof.
  intros vo ch. unfold updateVarObj, identityOf.
  destruct (String.eqb (type_changed ch) "true"); reflexivity.
Qed.

Lemma filedByName_get_set :
  forall (k : string) (vo vo' : SimplifiedVarObjType) (m : JSMap.t SimplifiedVarObjType),
    filedByName m -> JSMap.get k m = Some vo -> varname vo' = varname vo ->
    filedByName (JSMap.set k vo' m).
Proof.
  intros k vo vo' m Hm Hget Hname.
  assert (Hk : k = varname vo').
  { apply JSMap_get_In in Hget. destruct Hm as [_ Hkeys].
    rewrite Forall_forall in Hkeys. specialize (Hkeys _ Hget). simpl in Hkeys. congruence. }
  rewrite Hk. now apply filedByName_set.
Qed.

Lemma filedByName_applyChange :
  forall (ch : VarUpdateChanges) (m : JSMap.t SimplifiedVarObjType),
    filedByName m -> filedByName (applyChange m ch).
Proof.
  intros ch m Hm. unfold applyChange.
  destruct (JSMap.get (ch_name ch) m) as [vo|] eqn:Hget; [|exact Hm].
  destruct (kind vo); [exact Hm|].
  apply (filedByName_get_set _ vo _ _ Hm Hget).
  pose proof (updateVarObj_identity vo ch) as H. unfold identityOf in H. congruence.
Qed.

Lemma fold_left_invariant :
  forall (A C : Type) (P : A -> Prop) (f : A -> C -> A) (l : list C) (a : A),
    (forall a c, P a -> P (f a c)) -> P a -> P (fold_left f l a).
Proof.
  intros A C P f l. induction l as [|c l IH]; simpl; intros a Hf Ha; auto.
Qed.

(** *** Every operation of the store keeps the map filed by name *)

Lemma keeps_filed_update :
  forall B : GDBBackend, keeps (onMap filedByName) (update B).
Proof.
  intros B. unfold update.
  apply keeps_get_bind. intros s0.
  destruct (negb (gdb (varStore s0))); [apply keeps_throw|].
  apply keeps_bind; [apply keeps_send | intros changes].
  apply keeps_bind; [|intros _; apply keeps_ret].
  apply keeps_modifyStore_map. intros m Hm.
  apply fold_left_invariant; [|exact Hm].
  intros a c Ha. now apply filedByName_applyChange.
Qed.

Lemma keeps_filed_updateLocals :
  forall B : GDBBackend, keeps (onMap filedByName) (updateLocals B).
Proof.
  intros B. unfold updateLocals.
  apply keeps_bind; [apply keeps_filed_update | intros _; apply keeps_ret].
Qed.

Lemma keeps_filed_clear :
  forall (B : GDBBackend) (k : Kind), keeps (onMap filedByName) (clear B k).
Proof.
  intros B k. unfold clear.
  apply keeps_get_bind. intros s0.
  apply keeps_bind.
  - destruct (gdb (varStore s0)); [apply keeps_sendCommands | apply keeps_ret].
  - intros _. apply keeps_modifyStore_map. intros m Hm.
    apply fold_left_invariant; [|exact Hm].
    intros a vo Ha. now apply filedByName_delete.
Qed.

Lemma keeps_filed_createLocals :
  forall (B : GDBBackend) (l : list MIVariableInfo),
    keeps (onMap filedByName) (createLocals B l).
Proof.
  intros B l. unfold createLocals.
  apply keeps_get_bind. intros s0.
  destruct (negb (gdb (varStore s0))); [apply keeps_ret|].
  induction l as [|sl l IH]; simpl; [apply keeps_ret|].
  apply keeps_bind; [apply keeps_send | intros resp].
  apply keeps_bind; [|intros _; exact IH].
  apply keeps_modifyStore_map. intros m Hm.
  exact (filedByName_set
           (mkVarObj (cr_name resp) (vi_name sl) (cr_numchild resp) (cr_value resp)
                     (cr_type resp) local) m Hm).
Qed.

Lemma keeps_filed_validate_fetch :
  forall (B : GDBBackend) (focus : Focus) (frameId : Z) (funcName : option string) (flag : bool),
    keeps (onMap filedByName) (validate_fetch B focus frameId funcName flag).
Proof.
  intros B focus frameId funcName flag. unfold validate_fetch.
  apply keeps_bind; [apply keeps_send | intros fetched].
  apply keeps_get_bind. intros s0.
  destruct (negb _).
  - apply keeps_filed_updateLocals.
  - apply keeps_bind; [apply keeps_filed_clear | intros _].
    apply keeps_bind; [apply keeps_filed_createLocals | intros _].
    apply keeps_set_execContext.
Qed.

Lemma keeps_filed_validate :
  forall (B : GDBBackend) (focus : Focus) (frameId : Z) (funcName : option string),
    keeps (onMap filedByName) (validate B focus frameId funcName).
Proof.
  intros B focus frameId funcName. unfold validate.
  apply keeps_get_bind. intros s0.
  destruct (negb (gdb (varStore s0))); [apply keeps_ret|].
  destruct (_ || _); [apply keeps_filed_validate_fetch|].
  destruct (resumed (execContext (varStore s0))) as [[|]|];
    first [apply keeps_filed_validate_fetch | apply keeps_filed_updateLocals].
Qed.

Lemma keeps_filed_getLocals :
  forall (B : GDBBackend) (focus : option Focus) (frameId : Z),
    keeps (onMap filedByName) (getLocals B focus frameId).
Proof.
  intros B [focus|] frameId; [|apply keeps_ret].
  unfold getLocals, getCurrentFunction.
  apply keeps_bind.
  - apply keeps_get_bind. intros s0.
    destruct (negb (gdb (varStore s0))); [apply keeps_throw|].
    apply keeps_bind; [apply keeps_send | intros [|frameInfo rest]];
      [apply keeps_throw | apply keeps_ret].
  - intros funcName.
    apply keeps_bind; [apply keeps_filed_validate | intros _].
    apply keeps_get_bind. intros s0. apply keeps_ret.
Qed.

Lemma keeps_filed_evaluate :
  forall (B : GDBBackend) (expression : string),
    keeps (onMap filedByName) (evaluate B expression).
Proof.
  intros B expression. unfold evaluate.
  apply keeps_get_bind. intros s0.
  destruct (negb (gdb (varStore s0))); [apply keeps_ret|].
  apply keeps_tryCatch; [|intros _; apply keeps_ret].
  apply keeps_bind; [apply keeps_send | intros resp].
  apply keeps_bind; [|intros _; apply keeps_ret].
  apply keeps_modifyStore_map. intros m Hm.
  exact (filedByName_set
           (mkVarObj (cr_name resp) expression (cr_numchild resp) (cr_value resp)
                     (cr_type resp) watch) m Hm).
Qed.

Lemma keeps_filed_updateLocal :
  forall (varObjName : string) (change : VarUpdateChanges),
    keeps (onMap filedByName) (updateLocal varObjName change).
Proof.
  intros varObjName change s Hs. unfold updateLocal, bind, get, modifyStore, modify, ret.
  destruct (JSMap.get varObjName (byName (varStore s))) as [vo|] eqn:Hget; [|exact Hs].
  unfold onMap in *. simpl.
  apply (filedByName_get_set _ vo _ _ Hs Hget).
  pose proof (updateVarObj_identity vo change) as H. unfold identityOf in H. congruence.
Qed.

Lemma handleGDBAsync_stopped_byName :
  forall (B : GDBBackend) (resultData : AsyncData) (s : Session),
    byName (varStore (snd (handleGDBAsync B "stopped" resultData s))) = byName (varStore s).
Proof.
  intros B [[[blockIdx threadIdx]|]] s;
    unfold handleGDBAsync, bind, get, ret, emit, modifyStore, modify, setFocus,
      resetCudaFocus, hasFocus; simpl.
  - match goal with
    | |- context [if ?c then _ else _] => destruct c
    end; reflexivity.
  - reflexivity.
Qed.

Lemma perform_filed :
  forall (op : StoreOp) (s : Session),
    onMap filedByName s -> onMap filedByName (perform op s).
Proof.
  intros [B e|B f n|B|v c|B|B d] s Hs; simpl.
  - now apply keeps_filed_evaluate.
  - now apply keeps_filed_getLocals.
  - now apply keeps_filed_update.
  - now apply keeps_filed_updateLocal.
  - now apply keeps_filed_clear.
  - unfold onMap in *. now rewrite handleGDBAsync_stopped_byName.
Qed.

(** X1: whatever requests and stop records reach the store of a new
    session, and whatever the backend answers (errors included), the map
    of variable objects never holds a name twice and every object stays
    filed under its own [varname]. *)
Theorem store_always_filed_by_name :
  forall ops : list StoreOp,
    filedByName (byName (varStore (performAll ops newSession))).
Proof.
  intros ops.
  assert (H : forall s, onMap filedByName s -> onMap filedByName (performAll ops s)).
  { induction ops as [|op ops IH]; intros s Hs; [exact Hs|].
    apply IH. now apply perform_filed. }
  apply (H newSession). split; [constructor | constructor].
Qed.

(** *** What [clear] removes *)

Lemma bind_Ok :
  forall (A C : Type) (m : M A) (k : A -> M C) (s s' : Session) (c : C),
    bind m k s = (Ok c, s') ->
    exists a s1, m s = (Ok a, s1) /\ k a s1 = (Ok c, s').
Proof.
  intros A C m k s s' c H. unfold bind in H.
  destruct (m s) as [[a|e] s1]; [|discriminate].
  now exists a, s1.
Qed.

Lemma sendCommands_Ok :
  forall (B : GDBBackend) (cs : list Cmd) (s s' : Session) (u : unit),
    sendCommands B cs s = (Ok u, s') -> s' = set_sent (sent s ++ cs) s.
Proof.
  intros B cs. induction cs as [|c cs IH]; intros s s' u H; simpl in H.
  - injection H as _ <-. rewrite app_nil_r. now destruct s.
  - apply bind_Ok in H. destruct H as (a & s1 & Hsend & Hrest).
    unfold send in Hsend. injection Hsend as _ <-.
    apply IH in Hrest. rewrite Hrest. simpl. now rewrite <- app_assoc.
Qed.

Lemma sendCommands_Throw :
  forall (B : GDBBackend) (cs : list Cmd) (s s' : Session) (e : Error),
    sendCommands B cs s = (Throw e, s') ->
    exists accepted rejected rest,
      cs = accepted ++ rejected :: rest
      /\ s' = set_sent (sent s ++ accepted ++ [rejected]) s
      /\ onCommand B (sent s ++ accepted ++ [rejected]) = Throw e.
Proof.
  intros B cs. induction cs as [|c cs IH]; intros s s' e H; simpl in H; [discriminate|].
  unfold bind, send in H.
  destruct (onCommand B (sent s ++ [c])) as [u|e0] eqn:Hc.
  - apply IH in H. destruct H as (accepted & rejected & rest & Hcs & Hs' & Hrej).
    exists (c :: accepted), rejected, rest. simpl in *.
    rewrite <- app_assoc in Hs', Hrej. simpl in *. subst cs. now repeat split.
  - injection H as <- <-. exists [], c, cs. now repeat split.
Qed.

Lemma fold_delete_filter :
  forall (l : list SimplifiedVarObjType) (m : JSMap.t SimplifiedVarObjType),
    fold_left (fun m vo => JSMap.delete (varname vo) m) l m
    = filter (fun kv => negb (existsb (fun vo => String.eqb (fst kv) (varname vo)) l)) m.
Proof.
  induction l as [|a l IH]; intros m; simpl.
  - induction m as [|kv m IHm]; simpl; [reflexivity | now rewrite <- IHm].
  - rewrite IH. unfold JSMap.delete.
    induction m as [|kv m IHm]; simpl; [reflexivity|].
    destruct (String.eqb (fst kv) (varname a)); simpl.
    + exact IHm.
    + destruct (negb (existsb _ l)); simpl; now rewrite IHm.
Qed.

Lemma NoDup_keys_injective :
  forall (V : Type) (m : JSMap.t V) (kv kv' : string * V),
    NoDup (map fst m) -> In kv m -> In kv' m -> fst kv = fst kv' -> kv = kv'.
Proof.
  induction m as [|a m IH]; intros kv kv' Hnd Hin Hin' Heq; [contradiction|].
  simpl in Hnd. inversion Hnd as [|? ? Hnotin Hnd']; subst.
  destruct Hin as [->|Hin], Hin' as [->|Hin'].
  - reflexivity.
  - exfalso. apply Hnotin. rewrite Heq. now apply in_map.
  - exfalso. apply Hnotin. rewrite <- Heq. now apply in_map.
  - now apply IH.
Qed.

Lemma filed_existsb_kind :
  forall (k : Kind) (m : JSMap.t SimplifiedVarObjType) (kv : string * SimplifiedVarObjType),
    filedByName m -> In kv m ->
    existsb (fun vo => String.eqb (fst kv) (varname vo))
            (filter (fun vo => Kind_eqb (kind vo) k) (JSMap.values m))
    = isKind k (snd kv).
Proof.
  intros k m kv [Hnd Hkeys] Hin.
  rewrite Forall_forall in Hkeys.
  destruct (isKind k (snd kv)) eqn:Hk.
  - apply existsb_exists. exists (snd kv). split.
    + apply filter_In. split; [now apply in_map | exact Hk].
    + rewrite (Hkeys _ Hin). apply String.eqb_refl.
  - apply not_true_is_false. intros Hex. apply existsb_exists in Hex.
    destruct Hex as [vo [Hvo Heq]]. apply filter_In in Hvo. destruct Hvo as [Hvo Hkind].
    apply in_map_iff in Hvo. destruct Hvo as [kv' [<- Hkv']].
    apply String.eqb_eq in Heq. rewrite <- (Hkeys _ Hkv') in Heq.
    rewrite (NoDup_keys_injective _ m kv kv' Hnd Hin Hkv' Heq) in Hk.
    unfold isKind in Hk. congruence.
Qed.

Lemma map_snd_filter :
  forall (f : SimplifiedVarObjType -> bool) (m : JSMap.t SimplifiedVarObjType),
    map snd (filter (fun kv => f (snd kv)) m) = filter f (map snd m).
Proof.
  intros f m. induction m as [|kv m IH]; simpl; [reflexivity|].
  destruct (f (snd kv)); simpl; now rewrite IH.
Qed.

Lemma clear_map_values :
  forall (k : Kind) (m : JSMap.t SimplifiedVarObjType),
    filedByName m ->
    JSMap.values (fold_left (fun m vo => JSMap.delete (varname vo) m)
                            (filter (fun vo => Kind_eqb (kind vo) k) (JSMap.values m)) m)
    = filter (fun vo => negb (isKind k vo)) (JSMap.values m).
Proof.
  intros k m Hm. rewrite fold_delete_filter.
  unfold JSMap.values at 1 3.
  rewrite <- (map_snd_filter (fun vo => negb (isKind k vo)) m). f_equal.
  apply filter_ext_in. intros kv Hkv.
  now rewrite (filed_existsb_kind k m kv Hm Hkv).
Qed.

(** X2: when [clear(kind)] succeeds on a store, exactly the objects of
    that kind leave the map, the objects of the other kind stay in their
    order, and the commands written are the delete commands of the
    removed objects in map order (none when there is no backend). *)
Theorem clear_removes_exactly_the_kind :
  forall (B : GDBBackend) (k : Kind) (s : Session),
    filedByName (byName (varStore s)) ->
    fst (clear B k s) = Ok tt ->
    let s' := snd (clear B k s) in
    JSMap.values (byName (varStore s'))
    = filter (fun vo => negb (isKind k vo)) (JSMap.values (byName (varStore s)))
    /\ valuesOfKind k (varStore s') = []
    /\ issuedBy (clear B k) s = (if gdb (varStore s) then deleteCommands k s else []).
Proof.
  intros B k s Hfiled Hok s'. subst s'.
  assert (Hs' : exists l,
             snd (clear B k s)
             = set_varStore
                 (set_byName
                    (fold_left (fun m vo => JSMap.delete (varname vo) m)
                               (valuesOfKind k (varStore s)) (byName (varStore s)))
                    (varStore s))
                 (set_sent (sent s ++ l) s)
             /\ l = (if gdb (varStore s) then deleteCommands k s else [])).
  { unfold clear, bind, get, modifyStore, modify, ret in *. simpl in *.
    destruct (gdb (varStore s)).
    - fold (deleteCommands k s) in *.
      destruct (sendCommands B (deleteCommands k s) s) as [[u|e] s1] eqn:Hsend;
        [|discriminate].
      apply sendCommands_Ok in Hsend. subst s1. simpl.
      exists (deleteCommands k s). split; reflexivity.
    - exists []. simpl. rewrite app_nil_r. split; [|reflexivity]. now destruct s. }
  destruct Hs' as [l [Hs' Hl]].
  assert (Hvalues : JSMap.values (byName (varStore (snd (clear B k s))))
                    = filter (fun vo => negb (isKind k vo)) (JSMap.values (byName (varStore s)))).
  { rewrite Hs'. simpl. unfold valuesOfKind. now apply clear_map_values. }
  split; [exact Hvalues|]. split.
  - unfold valuesOfKind. rewrite Hvalues. clear.
    induction (JSMap.values (byName (varStore s))) as [|vo vs IH]; simpl; [reflexivity|].
    unfold isKind at 1. destruct (Kind_eqb (kind vo) k) eqn:Hk; simpl; [exact IH|].
    rewrite Hk. exact IH.
  - rewrite <- Hl. apply issuedBy_appended. rewrite Hs'. reflexivity.
Qed.

Lemma clear_removes_exactly_the_kind_witness :
  let B := numberingBackend [] (fun _ => Ok tt) in
  let s' := snd (clear B watch twoLocalsOneWatch) in
  JSMap.values (byName (varStore s'))
  = filter (fun vo => negb (isKind watch vo)) (JSMap.values (byName (varStore twoLocalsOneWatch)))
  /\ valuesOfKind watch (varStore s') = []
  /\ issuedBy (clear B watch) twoLocalsOneWatch
     = (if gdb (varStore twoLocalsOneWatch) then deleteCommands watch twoLocalsOneWatch else []).
Proof.
  apply (clear_removes_exactly_the_kind (numberingBackend [] (fun _ => Ok tt)) watch
           twoLocalsOneWatch).
  - split; [repeat constructor; simpl; intuition discriminate | repeat constructor].
  - reflexivity.
Defined.

(** X3: when the backend rejects one of the delete commands, [clear]
    throws that error and the store is left as it was: the objects whose
    delete command had been accepted before stay in the map as well. *)
Theorem clear_failure_keeps_every_object :
  forall (B : GDBBackend) (k : Kind) (s : Session) (e : Error),
    fst (clear B k s) = Throw e ->
    varStore (snd (clear B k s)) = varStore s
    /\ exists accepted rejected rest,
        deleteCommands k s = accepted ++ rejected :: rest
        /\ issuedBy (clear B k) s = accepted ++ [rejected].
Proof.
  intros B k s e Hfail. unfold issuedBy.
  unfold clear, bind, get, modifyStore, modify, ret in *. simpl in *.
  destruct (gdb (varStore s)); [|discriminate].
  fold (deleteCommands k s) in *.
  destruct (sendCommands B (deleteCommands k s) s) as [[u|e0] s1] eqn:Hsend; [discriminate|].
  apply sendCommands_Throw in Hsend.
  destruct Hsend as (accepted & rejected & rest & Hcs & Hs1 & _).
  subst s1. simpl. split; [reflexivity|].
  exists accepted, rejected, rest. split; [exact Hcs|].
  rewrite skipn_app, skipn_all, Nat.sub_diag. reflexivity.
Qed.

Lemma clear_failure_keeps_every_object_witness :
  varStore (snd (clear (fewDeletesBackend 1) local twoLocalsOneWatch)) = varStore twoLocalsOneWatch
  /\ exists accepted rejected rest,
      deleteCommands local twoLocalsOneWatch = accepted ++ rejected :: rest
      /\ issuedBy (clear (fewDeletesBackend 1) local) twoLocalsOneWatch = accepted ++ [rejected].
Proof.
  exact (clear_failure_keeps_every_object (fewDeletesBackend 1) local twoLocalsOneWatch
           "variable object not found" eq_refl).
Defined.

(** *** What [update] changes *)

Lemma JSMap_set_found_skeleton :
  forall (k : string) (vo vo' : SimplifiedVarObjType) (m : JSMap.t SimplifiedVarObjType),
    JSMap.get k m = Some vo -> identityOf vo' = identityOf vo ->
    skeleton (JSMap.set k vo' m) = skeleton m.
Proof.
  induction m as [|[k' v'] m IH]; simpl; intros Hget Hid; [discriminate|].
  destruct (String.eqb_spec k' k) as [->|Hne]; simpl.
  - injection Hget as ->. now rewrite Hid.
  - f_equal. now apply IH.
Qed.

Lemma JSMap_set_found_other_kind :
  forall (k : string) (vo vo' : SimplifiedVarObjType) (m : JSMap.t SimplifiedVarObjType),
    JSMap.get k m = Some vo -> kind vo = local -> kind vo' = local ->
    filter (isKind watch) (JSMap.values (JSMap.set k vo' m))
    = filter (isKind watch) (JSMap.values m).
Proof.
  induction m as [|[k' v'] m IH]; simpl; intros Hget Hk Hk'; [discriminate|].
  destruct (String.eqb_spec k' k) as [->|Hne]; simpl.
  - injection Hget as Heq. subst v'.
    assert (H1 : isKind watch vo = false) by (unfold isKind; now rewrite Hk).
    assert (H2 : isKind watch vo' = false) by (unfold isKind; now rewrite Hk').
    now rewrite H1, H2.
  - destruct (isKind watch v'); [f_equal|]; now apply IH.
Qed.

Lemma applyChange_skeleton :
  forall (m : JSMap.t SimplifiedVarObjType) (ch : VarUpdateChanges),
    skeleton (applyChange m ch) = skeleton m
    /\ filter (isKind watch) (JSMap.values (applyChange m ch))
       = filter (isKind watch) (JSMap.values m).
Proof.
  intros m ch. unfold applyChange.
  destruct (JSMap.get (ch_name ch) m) as [vo|] eqn:Hget; [|now split].
  destruct (kind vo) eqn:Hk; [now split|].
  pose proof (updateVarObj_identity vo ch) as Hid.
  split.
  - now apply (JSMap_set_found_skeleton _ vo).
  - apply (JSMap_set_found_other_kind _ vo); [exact Hget | exact Hk|].
    unfold identityOf in Hid. congruence.
Qed.

(** X4: [update] changes values, types and child counts of local
    objects only: whatever change list the backend reports, the keys of
    the map, their order, and the name, expression and kind of every
    object stay, and every watch object stays as it is. *)
Theorem update_changes_locals_only :
  forall (B : GDBBackend) (s : Session),
    let s' := snd (update B s) in
    skeleton (byName (varStore s')) = skeleton (byName (varStore s))
    /\ valuesOfKind watch (varStore s') = valuesOfKind watch (varStore s)
    /\ execContext (varStore s') = execContext (varStore s).
Proof.
  intros B s s'. subst s'.
  unfold update, bind, get, throw, send, modifyStore, modify, ret. simpl.
  destruct (gdb (varStore s)); simpl; [|now repeat split].
  destruct (onVarUpdate B (sent s ++ [VarUpdate])) as [changes|e]; simpl; [|now repeat split].
  unfold valuesOfKind. simpl.
  generalize (byName (varStore s)) as m.
  induction changes as [|ch changes IH]; intros m; simpl; [now repeat split|].
  destruct (IH (applyChange m ch)) as (H1 & H2 & _).
  destruct (applyChange_skeleton m ch) as [H3 H4].
  split; [congruence|]. split; [|reflexivity].
  unfold isKind in H4. congruence.
Qed.

(** The watch [var3] keeps its value under an update that reports it. *)
Example update_skips_watch :
  map (fun vo => (varname vo, value vo, type vo))
      (JSMap.values (byName (varStore (snd (update changingBackend twoLocalsOneWatch)))))
  = [("var1", "8", "long"); ("var2", "7", "int"); ("var3", "7", "int")].
Proof. reflexivity. Qed.

(** *** [evaluate] *)

(** X5: [evaluate] never throws.  With a backend it writes exactly one
    create command; when the backend rejects it, the result is undefined
    and the store is as before; when the backend accepts it, the result
    is a watch object for the expression and the map holds it under the
    name the backend gave. *)
Theorem evaluate_never_throws :
  forall (B : GDBBackend) (expression : string) (s : Session),
    gdb (varStore s) = true ->
    let s' := snd (evaluate B expression s) in
    issuedBy (evaluate B expression) s = [VarCreate expression]
    /\ match onVarCreate B (sent s ++ [VarCreate expression]) with
       | Throw _ =>
           fst (evaluate B expression s) = Ok None /\ varStore s' = varStore s
       | Ok resp =>
           exists vo,
             fst (evaluate B expression s) = Ok (Some vo)
             /\ identityOf vo = (cr_name resp, expression, watch)
             /\ JSMap.get (cr_name resp) (byName (varStore s')) = Some vo
       end.
Proof.
  intros B expression s Hgdb s'. subst s'. unfold issuedBy.
  unfold evaluate, tryCatch, bind, get, send, modifyStore, modify, ret. simpl.
  rewrite Hgdb. simpl.
  destruct (onVarCreate B (sent s ++ [VarCreate expression])) as [resp|e]; simpl.
  - split; [now rewrite skipn_app, skipn_all, Nat.sub_diag|].
    eexists. split; [reflexivity|]. split; [reflexivity|].
    generalize (byName (varStore s)) as m.
    induction m as [|[k v] m IH]; simpl.
    + now rewrite String.eqb_refl.
    + destruct (String.eqb_spec k (cr_name resp)) as [->|Hne]; simpl.
      * now rewrite String.eqb_refl.
      * destruct (String.eqb_spec k (cr_name resp)); [contradiction | exact IH].
  - split; [now rewrite skipn_app, skipn_all, Nat.sub_diag | now split].
Qed.

Lemma evaluate_never_throws_witness :
  let B := changingBackend in
  let s' := snd (evaluate B "nonsense" twoLocalsOneWatch) in
  issuedBy (evaluate B "nonsense") twoLocalsOneWatch = [VarCreate "nonsense"]
  /\ match onVarCreate B (sent twoLocalsOneWatch ++ [VarCreate "nonsense"]) with
     | Throw _ =>
         fst (evaluate B "nonsense" twoLocalsOneWatch) = Ok None
         /\ varStore s' = varStore twoLocalsOneWatch
     | Ok resp =>
         exists vo,
           fst (evaluate B "nonsense" twoLocalsOneWatch) = Ok (Some vo)
           /\ identityOf vo = (cr_name resp, "nonsense", watch)
           /\ JSMap.get (cr_name resp) (byName (varStore s')) = Some vo
     end.
Proof.
  exact (evaluate_never_throws changingBackend "nonsense" twoLocalsOneWatch eq_refl).
Defined.

(** *** The execution context under the operations of the store *)

Lemma keeps_store_send :
  forall (A : Type) (R : VariableObjectStore -> Prop) (oracle : list Cmd -> Result A) (c : Cmd),
    keeps (onStore R) (send oracle c).
Proof. intros A R oracle c s H. exact H. Qed.

Lemma keeps_store_sendCommands :
  forall (R : VariableObjectStore -> Prop) (B : GDBBackend) (cs : list Cmd),
    keeps (onStore R) (sendCommands B cs).
Proof.
  intros R B cs. induction cs as [|c cs IH]; simpl.
  - apply keeps_ret.
  - apply keeps_bind; [apply keeps_store_send | intros _; exact IH].
Qed.

Lemma keeps_store_modifyStore :
  forall (R : VariableObjectStore -> Prop) (f : VariableObjectStore -> VariableObjectStore),
    (forall st, R st -> R (f st)) -> keeps (onStore R) (modifyStore f).
Proof. intros R f Hf s H. unfold onStore in *. simpl. now apply Hf. Qed.

Lemma keeps_context_update :
  forall (B : GDBBackend) (c : ExecContext) (g : bool),
    keeps (onStore (contextIs c g)) (update B).
Proof.
  intros B c g. unfold update.
  apply keeps_get_bind. intros s0.
  destruct (negb (gdb (varStore s0))); [apply keeps_throw|].
  apply keeps_bind; [apply keeps_store_send | intros changes].
  apply keeps_bind; [|intros _; apply keeps_ret].
  apply keeps_store_modifyStore. intros st H. exact H.
Qed.

Lemma keeps_context_updateLocals :
  forall (B : GDBBackend) (c : ExecContext) (g : bool),
    keeps (onStore (contextIs c g)) (updateLocals B).
Proof.
  intros B c g. unfold updateLocals.
  apply keeps_bind; [apply keeps_context_update | intros _; apply keeps_ret].
Qed.

Lemma keeps_context_clear :
  forall (B : GDBBackend) (k : Kind) (c : ExecContext) (g : bool),
    keeps (onStore (contextIs c g)) (clear B k).
Proof.
  intros B k c g. unfold clear.
  apply keeps_get_bind. intros s0.
  apply keeps_bind.
  - destruct (gdb (varStore s0)); [apply keeps_store_sendCommands | apply keeps_ret].
  - intros _. apply keeps_store_modifyStore. intros st H. exact H.
Qed.

Lemma keeps_context_createLocals :
  forall (B : GDBBackend) (l : list MIVariableInfo) (c : ExecContext) (g : bool),
    keeps (onStore (contextIs c g)) (createLocals B l).
Proof.
  intros B l c g. unfold createLocals.
  apply keeps_get_bind. intros s0.
  destruct (negb (gdb (varStore s0))); [apply keeps_ret|].
  induction l as [|sl l IH]; simpl; [apply keeps_ret|].
  apply keeps_bind; [apply keeps_store_send | intros resp].
  apply keeps_bind; [|intros _; exact IH].
  apply keeps_store_modifyStore. intros st H. exact H.
Qed.

Lemma threadIdChanged_recorded :
  forall (st : VariableObjectStore) (focus : Focus),
    ctx_threadId (execContext st) = Some focus -> threadIdChanged st focus = false.
Proof.
  intros st focus H. unfold threadIdChanged. rewrite H.
  destruct focus as [n|f].
  - now rewrite Z.eqb_refl.
  - unfold utils.equalsCudaFocus. simpl. now rewrite cudaFocus_eqb_refl.
Qed.

(** After a pass of [validate] that succeeds, the context is the one it
    found or the one of the request. *)
Lemma validate_fetch_context :
  forall (B : GDBBackend) (focus : Focus) (frameId : Z) (funcName : option string)
         (flag : bool) (s s' : Session) (u : unit),
    validate_fetch B focus frameId funcName flag s = (Ok u, s') ->
    (flag = false /\ execContext (varStore s') = execContext (varStore s))
    \/ execContext (varStore s') = mkContext (Some focus) (Some frameId) (Some false) funcName.
Proof.
  intros B focus frameId funcName flag s s' u H.
  unfold validate_fetch in H.
  apply bind_Ok in H. destruct H as (fetched & s1 & Hsend & H).
  unfold send in Hsend. injection Hsend as _ <-.
  apply bind_Ok in H. destruct H as (s0 & s2 & Hget & H).
  unfold get in Hget. injection Hget as <- <-.
  destruct flag; simpl in H.
  - right.
    apply bind_Ok in H. destruct H as (u1 & s3 & _ & H).
    apply bind_Ok in H. destruct H as (u2 & s4 & _ & H).
    unfold modifyStore, modify in H. injection H as _ <-. reflexivity.
  - destruct (shapeDiffers _ fetched); simpl in H.
    + right.
      apply bind_Ok in H. destruct H as (u1 & s3 & _ & H).
      apply bind_Ok in H. destruct H as (u2 & s4 & _ & H).
      unfold modifyStore, modify in H. injection H as _ <-. reflexivity.
    + left. split; [reflexivity|].
      pose proof (keeps_context_updateLocals B (execContext (varStore s)) (gdb (varStore s))
                    (set_sent (sent s ++ [match focus with
                                           | thread n => StackListVariables (Some (n, frameId))
                                           | cuda _ => StackListVariables None
                                           end]) s)
                    (conj eq_refl eq_refl)) as Hk.
      rewrite H in Hk. exact (proj1 Hk).
Qed.

(** X6: when [getLocals] succeeds for a focus and a frame id, the
    execution context of the store afterwards is one for that focus and
    that frame id, and the list returned is the list of the local objects
    of the store, in map order. *)
Theorem getLocals_records_the_request :
  forall (B : GDBBackend) (focus : Focus) (frameId : Z) (s : Session)
         (result : list SimplifiedVarObjType),
    fst (getLocals B (Some focus) frameId s) = Ok result ->
    let s' := snd (getLocals B (Some focus) frameId s) in
    threadIdChanged (varStore s') focus = false
    /\ ctx_frameId (execContext (varStore s')) = Some frameId
    /\ result = valuesOfKind local (varStore s')
    /\ Forall (fun vo => kind vo = local) result.
Proof.
  intros B focus frameId s result Hok s'. subst s'.
  destruct (getLocals B (Some focus) frameId s) as [r s'] eqn:Hrun.
  simpl in Hok. subst r. simpl.
  unfold getLocals in Hrun.
  apply bind_Ok in Hrun. destruct Hrun as (funcName & s1 & Hfn & Hrun).
  apply bind_Ok in Hrun. destruct Hrun as (u & s2 & Hval & Hrun).
  unfold bind, get, ret in Hrun. injection Hrun as <- <-.
  assert (Hctx : threadIdChanged (varStore s2) focus = false
                 /\ ctx_frameId (execContext (varStore s2)) = Some frameId).
  { assert (Hnew : forall st,
               execContext st = mkContext (Some focus) (Some frameId) (Some false) funcName ->
               threadIdChanged st focus = false /\ ctx_frameId (execContext st) = Some frameId).
    { intros st Hst. split; [apply threadIdChanged_recorded|]; now rewrite Hst. }
    assert (Hold : forall st,
               contextChanged (varStore s1) focus frameId = false ->
               execContext st = execContext (varStore s1) ->
               threadIdChanged st focus = false /\ ctx_frameId (execContext st) = Some frameId).
    { intros st Hc Hst. unfold contextChanged in Hc.
      apply orb_false_iff in Hc. destruct Hc as [Hc1 Hc2].
      unfold threadIdChanged in *. rewrite Hst. split; [exact Hc1|].
      apply negb_false_iff in Hc2.
      destruct (ctx_frameId (execContext (varStore s1))) as [n|]; [|discriminate].
      simpl in Hc2. apply Z.eqb_eq in Hc2. now subst n. }
    unfold validate in Hval. unfold bind at 1, get at 1 in Hval.
    destruct (negb (gdb (varStore s1))) eqn:Hgdb.
    - exfalso. unfold getCurrentFunction, bind, get, throw in Hfn.
      destruct (negb (gdb (varStore s))) eqn:Hgdb0; [discriminate|].
      unfold send in Hfn.
      destruct (onStackListFrames B _) as [[|fi rest]|e]; try discriminate.
      injection Hfn as _ <-. simpl in Hgdb. congruence.
    - fold (contextChanged (varStore s1) focus frameId) in Hval.
      destruct (contextChanged (varStore s1) focus frameId) eqn:Hchanged.
      + apply validate_fetch_context in Hval.
        destruct Hval as [[Hflag _] | Hval]; [discriminate | now apply Hnew].
      + destruct (resumed (execContext (varStore s1))) as [[|]|].
        * apply validate_fetch_context in Hval.
          destruct Hval as [[_ Hval] | Hval]; [now apply Hold | now apply Hnew].
        * apply Hold; [reflexivity|].
          pose proof (keeps_context_updateLocals B (execContext (varStore s1))
                        (gdb (varStore s1)) s1 (conj eq_refl eq_refl)) as Hk.
          rewrite Hval in Hk. exact (proj1 Hk).
        * apply validate_fetch_context in Hval.
          destruct Hval as [[_ Hval] | Hval]; [now apply Hold | now apply Hnew]. }
  destruct Hctx as [H1 H2]. repeat split; try assumption.
  apply Forall_forall. intros vo Hvo. unfold valuesOfKind in Hvo.
  apply filter_In in Hvo. destruct Hvo as [_ Hk]. now destruct (kind vo).
Qed.

Lemma getLocals_records_the_request_witness :
  let B := mainFrameBackend in
  let s' := snd (getLocals B (Some (thread 2)) 3 materializedMain) in
  threadIdChanged (varStore s') (thread 2) = false
  /\ ctx_frameId (execContext (varStore s')) = Some 3
  /\ [mkVarObj "var1" "i" "0" "7" "int" local] = valuesOfKind local (varStore s')
  /\ Forall (fun vo => kind vo = local) [mkVarObj "var1" "i" "0" "7" "int" local].
Proof.
  exact (getLocals_records_the_request mainFrameBackend (thread 2) 3 materializedMain
           [mkVarObj "var1" "i" "0" "7" "int" local] eq_refl).
Defined.

(** *** A pass of [validate] that invalidates *)

Lemma clear_Ok_state :
  forall (B : GDBBackend) (k : Kind) (s s' : Session) (u : unit),
    gdb (varStore s) = true ->
    clear B k s = (Ok u, s') ->
    s' = set_varStore
           (set_byName
              (fold_left (fun m vo => JSMap.delete (varname vo) m)
                         (valuesOfKind k (varStore s)) (byName (varStore s)))
              (varStore s))
           (set_sent (sent s ++ deleteCommands k s) s).
Proof.
  intros B k s s' u Hgdb H.
  unfold clear, bind, get, modifyStore, modify, ret in H. simpl in H.
  rewrite Hgdb in H. fold (deleteCommands k s) in H.
  destruct (sendCommands B (deleteCommands k s) s) as [[u1|e] s1] eqn:Hsend; [|discriminate].
  apply sendCommands_Ok in Hsend. subst s1. injection H as _ <-. reflexivity.
Qed.

Lemma createLocals_loop_Ok :
  forall (B : GDBBackend) (l : list MIVariableInfo) (s s' : Session) (u : unit),
    createLocals_loop B l s = (Ok u, s') ->
    sent s' = sent s ++ createCommands l
    /\ (forall names,
          incl (map vi_name l) names ->
          Forall (localsAmong names) (byName (varStore s)) ->
          Forall (localsAmong names) (byName (varStore s'))).
Proof.
  intros B l. induction l as [|sl l IH]; intros s s' u H; simpl in H.
  - injection H as _ <-. simpl. rewrite app_nil_r. split; [reflexivity | auto].
  - apply bind_Ok in H. destruct H as (resp & s1 & Hsend & H).
    unfold send in Hsend. injection Hsend as _ <-.
    apply bind_Ok in H. destruct H as (u1 & s2 & Hmod & H).
    unfold modifyStore, modify in Hmod. injection Hmod as _ <-.
    apply IH in H. destruct H as [Hsent Hall]. simpl in Hsent.
    split.
    + rewrite Hsent, <- app_assoc. reflexivity.
    + intros names Hincl Hbefore. apply Hall.
      * intros n Hn. apply Hincl. now right.
      * simpl. apply JSMap_set_Forall; [|exact Hbefore].
        intros _. simpl. apply Hincl. now left.
Qed.

(** X7: a pass of [validate] for a focus or a frame id that is not the
    one of the execution context, if it succeeds, writes the stack-locals
    command, then one delete command for every stored local object, then
    one create command for every entry of the fetched list, in this
    order; afterwards the context is that of the request with [resumed]
    false, and every local object of the store is one for a name of the
    fetched list: no local object of the context before is left. *)
Theorem validate_replaces_all_locals :
  forall (B : GDBBackend) (focus : Focus) (frameId : Z) (funcName : option string)
         (s : Session),
    gdb (varStore s) = true ->
    filedByName (byName (varStore s)) ->
    contextChanged (varStore s) focus frameId = true ->
    fst (validate B focus frameId funcName s) = Ok tt ->
    let s' := snd (validate B focus frameId funcName s) in
    exists fetched,
      onStackListVariables B (sent s ++ [localsCmd focus frameId]) = Ok fetched
      /\ issuedBy (validate B focus frameId funcName) s
         = localsCmd focus frameId :: deleteCommands local s ++ createCommands fetched
      /\ execContext (varStore s')
         = mkContext (Some focus) (Some frameId) (Some false) funcName
      /\ Forall (fun vo => In (expression vo) (map vi_name fetched)) (localsOf s').
Proof.
  intros B focus frameId funcName s Hgdb Hfiled Hchanged Hok s'. subst s'.
  destruct (validate B focus frameId funcName s) as [r s'] eqn:Hrun.
  simpl in Hok. subst r.
  assert (Hissued : forall l, sent s' = sent s ++ l ->
                              issuedBy (validate B focus frameId funcName) s = l).
  { intros l Hl. apply issuedBy_appended. now rewrite Hrun. }
  simpl.
  unfold validate in Hrun. unfold bind at 1, get at 1 in Hrun.
  rewrite Hgdb in Hrun. simpl in Hrun.
  fold (contextChanged (varStore s) focus frameId) in Hrun. rewrite Hchanged in Hrun.
  unfold validate_fetch in Hrun. fold (localsCmd focus frameId) in Hrun.
  apply bind_Ok in Hrun. destruct Hrun as (fetched & s1 & Hsend & Hrun).
  unfold send in Hsend.
  destruct (onStackListVariables B (sent s ++ [localsCmd focus frameId])) as [f|e] eqn:Hresp;
    [|discriminate].
  injection Hsend as -> <-.
  apply bind_Ok in Hrun. destruct Hrun as (s0 & s2 & Hget & Hrun).
  unfold get in Hget. injection Hget as <- <-. simpl in Hrun.
  apply bind_Ok in Hrun. destruct Hrun as (u1 & s3 & Hclear & Hrun).
  apply bind_Ok in Hrun. destruct Hrun as (u2 & s4 & Hcreate & Hrun).
  unfold modifyStore, modify in Hrun. injection Hrun as <-.
  apply clear_Ok_state in Hclear; [|exact Hgdb].
  unfold createLocals, bind, get in Hcreate.
  assert (Hgdb3 : gdb (varStore s3) = true) by (rewrite Hclear; exact Hgdb).
  rewrite Hgdb3 in Hcreate. simpl in Hcreate.
  apply createLocals_loop_Ok in Hcreate. destruct Hcreate as [Hsent Hall].
  exists fetched. split; [reflexivity|]. split; [|split; [reflexivity|]].
  - apply Hissued. simpl. rewrite Hsent, Hclear. simpl.
    unfold deleteCommands. simpl. now rewrite <- !app_assoc.
  - unfold localsOf, valuesOfKind. simpl.
    specialize (Hall (map vi_name fetched) (incl_refl _)).
    assert (Hnone : Forall (localsAmong (map vi_name fetched)) (byName (varStore s3))).
    { rewrite Hclear. simpl. rewrite fold_delete_filter.
      apply Forall_forall. intros kv Hkv Hlocal. exfalso.
      apply filter_In in Hkv. destruct Hkv as [Hin Hkeep].
      unfold valuesOfKind in Hkeep.
      rewrite (filed_existsb_kind local _ kv Hfiled Hin) in Hkeep.
      unfold isKind in Hkeep. rewrite Hlocal in Hkeep. discriminate. }
    specialize (Hall Hnone). rewrite Forall_forall in Hall.
    apply Forall_forall. intros vo Hvo. apply filter_In in Hvo. destruct Hvo as [Hvo Hk].
    unfold JSMap.values in Hvo. apply in_map_iff in Hvo. destruct Hvo as [kv [<- Hkv]].
    apply (Hall kv Hkv). now destruct (kind (snd kv)).
Qed.

Lemma validate_replaces_all_locals_witness :
  let B := numberingBackend [mkVarInfo "x" "float"] (fun _ => Ok tt) in
  let s' := snd (validate B (thread 2) 0 (Some "kernel") twoLocalsOneWatch) in
  exists fetched,
    onStackListVariables B (sent twoLocalsOneWatch ++ [localsCmd (thread 2) 0]) = Ok fetched
    /\ issuedBy (validate B (thread 2) 0 (Some "kernel")) twoLocalsOneWatch
       = localsCmd (thread 2) 0 :: deleteCommands local twoLocalsOneWatch ++ createCommands fetched
    /\ execContext (varStore s')
       = mkContext (Some (thread 2)) (Some 0) (Some false) (Some "kernel")
    /\ Forall (fun vo => In (expression vo) (map vi_name fetched)) (localsOf s').
Proof.
  apply (validate_replaces_all_locals (numberingBackend [mkVarInfo "x" "float"] (fun _ => Ok tt))
           (thread 2) 0 (Some "kernel") twoLocalsOneWatch).
  - reflexivity.
  - split; [repeat constructor; simpl; intuition discriminate | repeat constructor].
  - reflexivity.
  - reflexivity.
Defined.

Lemma oldLocals_entries :
  forall (L l : list SimplifiedVarObjType) (acc : JSMap.t SimplifiedVarObjType),
    incl l L ->
    Forall (fun kv => fst kv = expression (snd kv) /\ In (snd kv) L) acc ->
    Forall (fun kv => fst kv = expression (snd kv) /\ In (snd kv) L)
           (fold_left (fun acc vo => JSMap.set (expression vo) vo acc) l acc).
Proof.
  intros L l. induction l as [|vo l IH]; intros acc Hincl Hacc; simpl; [exact Hacc|].
  apply IH.
  - intros v Hv. apply Hincl. now right.
  - apply JSMap_set_Forall; [|exact Hacc].
    simpl. split; [reflexivity|]. apply Hincl. now left.
Qed.

Lemma oldLocals_get_sound :
  forall (m : JSMap.t SimplifiedVarObjType) (k : string) (vo : SimplifiedVarObjType),
    JSMap.get k (oldLocalsOf m) = Some vo ->
    In vo (filter (fun vo => Kind_eqb (kind vo) local) (JSMap.values m)) /\ expression vo = k.
Proof.
  intros m k vo Hget. unfold oldLocalsOf in Hget. rewrite oldLocalsOf_filter in Hget.
  apply JSMap_get_In in Hget.
  pose proof (oldLocals_entries
                (filter (fun vo => Kind_eqb (kind vo) local) (JSMap.values m))
                (filter (fun vo => Kind_eqb (kind vo) local) (JSMap.values m))
                [] (incl_refl _) (Forall_nil _)) as H.
  rewrite Forall_forall in H. destruct (H _ Hget) as [Hk Hin]. simpl in *.
  split; [exact Hin | now symmetry].
Qed.

Lemma shapeDiffers_count :
  forall (m : JSMap.t SimplifiedVarObjType) (fetched : list MIVariableInfo),
    NoDup (map expression (filter (fun vo => Kind_eqb (kind vo) local) (JSMap.values m))) ->
    List.length fetched
    <> List.length (filter (fun vo => Kind_eqb (kind vo) local) (JSMap.values m)) ->
    shapeDiffers m fetched = true.
Proof.
  intros m fetched Hnd Hlen. unfold shapeDiffers.
  set (L := filter (fun vo => Kind_eqb (kind vo) local) (JSMap.values m)) in *.
  destruct (negb (JSMap.size (oldLocalsOf m) =? Z.of_nat (List.length fetched))) eqn:Hsize;
    [reflexivity|].
  apply negb_false_iff, Z.eqb_eq in Hsize.
  exfalso. apply Hlen.
  unfold oldLocalsOf in Hsize. rewrite oldLocalsOf_filter in Hsize. fold L in Hsize.
  rewrite fold_set_distinct in Hsize by exact Hnd.
  unfold JSMap.size in Hsize. simpl in Hsize. rewrite length_map in Hsize. lia.
Qed.

Lemma shapeDiffers_unmatched :
  forall (m : JSMap.t SimplifiedVarObjType) (fetched : list MIVariableInfo)
         (sl : MIVariableInfo),
    In sl fetched ->
    unmatched sl (filter (fun vo => Kind_eqb (kind vo) local) (JSMap.values m)) ->
    shapeDiffers m fetched = true.
Proof.
  intros m fetched sl Hsl Hno. unfold shapeDiffers.
  destruct (negb (JSMap.size (oldLocalsOf m) =? Z.of_nat (List.length fetched)));
    [reflexivity|].
  apply negb_true_iff. apply not_true_is_false. intros Hall.
  rewrite forallb_forall in Hall. specialize (Hall sl Hsl). cbv beta in Hall.
  destruct (JSMap.get (vi_name sl) (oldLocalsOf m)) as [vo|] eqn:Hget; [|discriminate].
  apply oldLocals_get_sound in Hget. destruct Hget as [Hin Hexpr].
  apply String.eqb_eq in Hall. exact (Hno vo Hin Hexpr Hall).
Qed.

(** X8: a pass of [validate] that does not take the short cut and
    succeeds replaces all local objects when the fetched stack-locals
    list has another shape than the stored locals, that is: when an
    entry of the list has no stored local of its name and type, or when
    the stored locals have pairwise distinct names and the list has
    another count.  It then writes the stack-locals command, the delete
    commands of the stored locals and the create commands of the fetched
    list, and records the context of the request with [resumed] false.
    (Two stored locals of one name count once in the code: see
    [validate_counts_names_once].) *)
Theorem validate_replaces_locals_on_shape_change :
  forall (B : GDBBackend) (focus : Focus) (frameId : Z) (funcName : option string)
         (s : Session) (fetched : list MIVariableInfo),
    gdb (varStore s) = true ->
    takesShortCut (varStore s) focus frameId = false ->
    onStackListVariables B (sent s ++ [localsCmd focus frameId]) = Ok fetched ->
    (exists sl, In sl fetched /\ unmatched sl (localsOf s))
    \/ (NoDup (map expression (localsOf s))
        /\ List.length fetched <> List.length (localsOf s)) ->
    fst (validate B focus frameId funcName s) = Ok tt ->
    let s' := snd (validate B focus frameId funcName s) in
    issuedBy (validate B focus frameId funcName) s
    = localsCmd focus frameId :: deleteCommands local s ++ createCommands fetched
    /\ execContext (varStore s')
       = mkContext (Some focus) (Some frameId) (Some false) funcName.
Proof.
  intros B focus frameId funcName s fetched Hgdb Hshort Hresp Hshape Hok s'. subst s'.
  assert (Hdiffers : shapeDiffers (byName (varStore s)) fetched = true).
  { destruct Hshape as [(sl & Hsl & Hno) | [Hnd Hlen]].
    - exact (shapeDiffers_unmatched (byName (varStore s)) fetched sl Hsl Hno).
    - exact (shapeDiffers_count (byName (varStore s)) fetched Hnd Hlen). }
  destruct (validate B focus frameId funcName s) as [r s'] eqn:Hrun.
  simpl in Hok. subst r.
  assert (Hissued : forall l, sent s' = sent s ++ l ->
                              issuedBy (validate B focus frameId funcName) s = l).
  { intros l Hl. apply issuedBy_appended. now rewrite Hrun. }
  simpl.
  assert (Hfetch : exists flag, validate_fetch B focus frameId funcName flag s = (Ok tt, s')).
  { unfold validate in Hrun. unfold bind at 1, get at 1 in Hrun.
    rewrite Hgdb in Hrun. cbn [negb] in Hrun.
    unfold takesShortCut in Hshort.
    destruct (threadIdChanged (varStore s) focus); cbn [negb orb andb] in *;
      [eexists; exact Hrun|].
    destruct (utils.option_eqb Z.eqb (ctx_frameId (execContext (varStore s))) (Some frameId));
      cbn [negb orb andb] in *; [|eexists; exact Hrun].
    destruct (resumed (execContext (varStore s))) as [[|]|];
      first [discriminate | eexists; exact Hrun]. }
  destruct Hfetch as [flag Hfetch].
  unfold validate_fetch in Hfetch. fold (localsCmd focus frameId) in Hfetch.
  apply bind_Ok in Hfetch. destruct Hfetch as (f & s1 & Hsend & Hfetch).
  unfold send in Hsend. rewrite Hresp in Hsend. injection Hsend as <- <-.
  apply bind_Ok in Hfetch. destruct Hfetch as (s0 & s2 & Hget & Hfetch).
  unfold get in Hget. injection Hget as <- <-. simpl in Hfetch.
  rewrite Hdiffers in Hfetch.
  assert (Hdecided : (if negb flag then true else flag) = true) by now destruct flag.
  rewrite Hdecided in Hfetch. simpl in Hfetch.
  apply bind_Ok in Hfetch. destruct Hfetch as (u1 & s3 & Hclear & Hfetch).
  apply bind_Ok in Hfetch. destruct Hfetch as (u2 & s4 & Hcreate & Hfetch).
  unfold modifyStore, modify in Hfetch. injection Hfetch as <-.
  apply clear_Ok_state in Hclear; [|exact Hgdb].
  unfold createLocals, bind, get in Hcreate.
  assert (Hgdb3 : gdb (varStore s3) = true) by (rewrite Hclear; exact Hgdb).
  rewrite Hgdb3 in Hcreate. simpl in Hcreate.
  apply createLocals_loop_Ok in Hcreate. destruct Hcreate as [Hsent _].
  split; [|reflexivity].
  apply Hissued. simpl. rewrite Hsent, Hclear. simpl.
  unfold deleteCommands. simpl. now rewrite <- !app_assoc.
Qed.

Lemma validate_replaces_locals_on_shape_change_witness :
  let B := numberingBackend [mkVarInfo "a" "int"; mkVarInfo "b" "long"] (fun _ => Ok tt) in
  let fetched := [mkVarInfo "a" "int"; mkVarInfo "b" "long"] in
  let s' := snd (validate B (thread 1) 0 (Some "main") twoLocalsStopped) in
  issuedBy (validate B (thread 1) 0 (Some "main")) twoLocalsStopped
  = localsCmd (thread 1) 0 :: deleteCommands local twoLocalsStopped ++ createCommands fetched
  /\ execContext (varStore s')
     = mkContext (Some (thread 1)) (Some 0) (Some false) (Some "main").
Proof.
  apply (validate_replaces_locals_on_shape_change
           (numberingBackend [mkVarInfo "a" "int"; mkVarInfo "b" "long"] (fun _ => Ok tt))
           (thread 1) 0 (Some "main") twoLocalsStopped
           [mkVarInfo "a" "int"; mkVarInfo "b" "long"]).
  - reflexivity.
  - reflexivity.
  - reflexivity.
  - left. exists (mkVarInfo "b" "long"). split; [simpl; tauto|].
    intros vo Hin Hexpr. vm_compute in Hin.
    destruct Hin as [<- | [<- | []]]; [discriminate Hexpr | discriminate].
  - reflexivity.
Defined.

(** Why the count case asks for distinct names: the store holds two
    locals of the name [i] and the frame has one local [i] left.  The
    counts differ, but the code counts the names of the stored locals,
    finds one, and only updates. *)
Example validate_counts_names_once :
  map expression (localsOf shadowingStopped) = ["i"; "i"]
  /\ takesShortCut (varStore shadowingStopped) (thread 1) 0 = false
  /\ onStackListVariables oneLocalBackend (sent shadowingStopped ++ [localsCmd (thread 1) 0])
     = Ok [mkVarInfo "i" "int"]
  /\ fst (validate oneLocalBackend (thread 1) 0 (Some "main") shadowingStopped) = Ok tt
  /\ issuedBy (validate oneLocalBackend (thread 1) 0 (Some "main")) shadowingStopped
     = [StackListVariables (Some (1, 0)); VarUpdate].
Proof. repeat split. Qed.

(** ** The execution queue: one task at a time *)

Module ExecutionQueueMore.

Import ExecutionQueue ExecutionQueueCounts.

Lemma sequential_counts_idle :
  forall (ts : list Item) (os : list Outcome),
    List.length os = List.length ts ->
    calls (sequential ts os) = delivered (sequential ts os).
Proof.
  induction ts as [|t ts IH]; intros [|o os] Hlen; simpl in *; try discriminate.
  - reflexivity.
  - unfold calls, delivered in *. simpl.
    destruct o; simpl; f_equal; apply IH; now injection Hlen.
Qed.

Lemma sequential_counts_busy :
  forall (ts : list Item) (os : list Outcome),
    (List.length os < List.length ts)%nat ->
    calls (sequential ts os) = S (delivered (sequential ts os)).
Proof.
  induction ts as [|t ts IH]; intros [|o os] Hlen; simpl in *; try lia.
  - reflexivity.
  - unfold calls, delivered in *. simpl.
    destruct o; simpl; f_equal; apply IH; lia.
Qed.

(** X9: in every state the queue can reach, at most one activation of
    [processQueue] is suspended, the task functions called are the
    outcomes delivered plus the one task that is running, and the queue
    is idle exactly when every submitted task has its outcome. *)
Theorem queue_runs_one_task_at_a_time :
  forall (es : list Event) (s : State),
    run es init = Some s ->
    (List.length (activations s) <= 1)%nat
    /\ calls (log s) = (delivered (log s) + List.length (activations s))%nat
    /\ (activations s = [] <-> List.length (outcomes es) = List.length (submitted es)).
Proof.
  intros es s Hrun.
  destruct (ExecutionQueueFacts.Inv_run es Hrun)
    as [Hlog (drained & items & Hts & Hheap & Hcase)].
  destruct Hcase as [(Hempty & Hact & Hlen) | (i & Hact & Hi & Hlen)].
  - subst items. rewrite app_nil_r in Hts. subst drained.
    rewrite Hact, Hlog. simpl. split; [lia|]. split.
    + rewrite Nat.add_0_r. now apply sequential_counts_idle.
    + tauto.
  - assert (Hless : (List.length (outcomes es) < List.length (submitted es))%nat).
    { rewrite Hts, length_app. lia. }
    rewrite Hact, Hlog. simpl. split; [lia|]. split.
    + rewrite Nat.add_1_r. now apply sequential_counts_busy.
    + split; [discriminate | lia].
Qed.

Lemma queue_runs_one_task_at_a_time_witness :
  let es := [Execute 1%nat; Execute 2%nat; Settle 0 (Rejected "boom"); Execute 3%nat] in
  exists s,
    run es init = Some s
    /\ (List.length (activations s) <= 1)%nat
    /\ calls (log s) = (delivered (log s) + List.length (activations s))%nat
    /\ (activations s = [] <-> List.length (outcomes es) = List.length (submitted es)).
Proof.
  eexists. split; [reflexivity|].
  exact (queue_runs_one_task_at_a_time
           [Execute 1%nat; Execute 2%nat; Settle 0 (Rejected "boom"); Execute 3%nat]
           _ eq_refl).
Defined.

End ExecutionQueueMore.

(** ** The invalidation trigger *)

Module InvalidationCompleteTriggerFacts.

Import InvalidationCompleteTrigger.

Lemma set_delete_has :
  forall (x y : string) (l : list string),
    set_has y (set_delete x l) = negb (String.eqb x y) && set_has y l.
Proof.
  intros x y l. unfold set_has, set_delete.
  induction l as [|z l IH]; simpl; [now rewrite andb_false_r|].
  destruct (String.eqb_spec x z) as [->|Hxz]; simpl.
  - rewrite IH. destruct (String.eqb_spec y z) as [->|Hyz]; simpl.
    + now rewrite String.eqb_refl.
    + reflexivity.
  - rewrite IH. destruct (String.eqb_spec y z) as [->|Hyz]; simpl.
    + destruct (String.eqb_spec x z); [contradiction | reflexivity].
    + reflexivity.
Qed.

Lemma set_add_has :
  forall (x y : string) (l : list string),
    set_has y (set_add l x) = String.eqb y x || set_has y l.
Proof.
  intros x y l. unfold set_add.
  destruct (set_has x l) eqn:Hx.
  - destruct (String.eqb_spec y x) as [->|Hne]; simpl; [exact Hx | reflexivity].
  - unfold set_has. rewrite existsb_app. simpl. now rewrite orb_false_r, orb_comm.
Qed.

Lemma make_has :
  forall (expected : list string) (y : string),
    set_has y (expectedRequests (make expected)) = set_has y expected.
Proof.
  intros expected y. unfold make. simpl.
  assert (H : forall acc, set_has y (fold_left set_add expected acc)
                          = set_has y expected || set_has y acc).
  { induction expected as [|x expected IH]; intros acc; simpl; [reflexivity|].
    rewrite IH, set_add_has.
    destruct (String.eqb y x), (set_has y expected), (set_has y acc); reflexivity. }
  rewrite H. simpl. apply orb_false_r.
Qed.

Lemma empty_iff_no_member :
  forall l : list string, Nat.eqb (List.length l) 0 = forallb (fun x => negb (set_has x l)) l.
Proof.
  intros [|x l]; simpl; [reflexivity|].
  now rewrite String.eqb_refl.
Qed.

Lemma resolve_expected :
  forall (r : string) (t : State),
    expectedRequests (snd (resolve r t)) = set_delete r (expectedRequests t).
Proof.
  intros r t. unfold resolve. cbv zeta.
  destruct (set_has r (expectedRequests t)
            && Nat.eqb (List.length (set_delete r (expectedRequests t))) 0); reflexivity.
Qed.

Lemma resolveAll_cons :
  forall (r : string) (requests : list string) (t : State),
    resolveAll (r :: requests) t
    = (fst (resolve r t) :: fst (resolveAll requests (snd (resolve r t))),
       snd (resolveAll requests (snd (resolve r t)))).
Proof.
  intros r requests t. simpl.
  destruct (resolve r t) as [b t']. simpl.
  destruct (resolveAll requests t') as [bs t'']. reflexivity.
Qed.

(** The set that remains after a list of requests was resolved. *)
Lemma resolveAll_remaining :
  forall (requests : list string) (t : State) (y : string),
    set_has y (expectedRequests (snd (resolveAll requests t)))
    = set_has y (expectedRequests t) && negb (set_has y requests).
Proof.
  induction requests as [|r requests IH]; intros t y.
  - simpl. now rewrite andb_true_r.
  - rewrite resolveAll_cons. cbn [snd].
    rewrite IH, resolve_expected, set_delete_has.
    cbn [set_has existsb]. fold (set_has y requests).
    rewrite (String.eqb_sym r y).
    destruct (String.eqb y r), (set_has y (expectedRequests t)), (set_has y requests);
      reflexivity.
Qed.

Lemma empty_by_members :
  forall l l' : list string,
    (forall y, set_has y l = false) -> l = [].
Proof.
  intros [|x l] _ H; [reflexivity|].
  specialize (H x). simpl in H. now rewrite String.eqb_refl in H.
Qed.

Lemma set_delete_absent :
  forall (x : string) (l : list string), set_has x l = false -> set_delete x l = l.
Proof.
  intros x l. unfold set_has, set_delete.
  induction l as [|y l IH]; simpl; intros H; [reflexivity|].
  apply orb_false_iff in H. destruct H as [Hxy Hl].
  rewrite Hxy. simpl. now rewrite IH.
Qed.

Lemma resolve_counted :
  forall (ne : bool) (r : string) (t : State),
    counted ne t ->
    counted ne (snd (resolve r t))
    /\ completions (snd (resolve r t))
       = (completions t + (if fst (resolve r t) then 1 else 0))%nat.
Proof.
  intros ne r t [Hc He]. unfold resolve. cbv zeta.
  destruct (set_has r (expectedRequests t)) eqn:Hin.
  - assert (Hne : ne = true).
    { destruct ne; [reflexivity|]. rewrite (He eq_refl) in Hin. discriminate. }
    assert (Hnonempty : isEmpty (expectedRequests t) = false).
    { destruct (expectedRequests t); [discriminate | reflexivity]. }
    subst ne. rewrite Hnonempty in Hc. simpl in Hc.
    destruct (Nat.eqb (List.length (set_delete r (expectedRequests t))) 0) eqn:Hlen; simpl.
    + split; [|lia]. split; simpl; [|discriminate].
      unfold isEmpty. rewrite Hlen. lia.
    + split; [|lia]. split; simpl; [|discriminate].
      unfold isEmpty. rewrite Hlen. exact Hc.
  - simpl. rewrite (set_delete_absent _ _ Hin). split; [|lia]. split; assumption.
Qed.

Lemma resolveAll_counted :
  forall (ne : bool) (requests : list string) (t : State),
    counted ne t ->
    counted ne (snd (resolveAll requests t))
    /\ completions (snd (resolveAll requests t))
       = (completions t + countTrue (fst (resolveAll requests t)))%nat.
Proof.
  intros ne requests. induction requests as [|r requests IH]; intros t Ht.
  - simpl. split; [exact Ht | lia].
  - rewrite resolveAll_cons. cbn [fst snd countTrue].
    destruct (resolve_counted ne r t Ht) as [Ht' Hc'].
    destruct (IH _ Ht') as [Ht'' Hc'']. split; [exact Ht''|]. lia.
Qed.

Lemma isEmpty_by_members :
  forall l : list string, isEmpty l = forallb (fun y => negb (set_has y l)) l.
Proof.
  intros [|x l]; simpl; [reflexivity|]. now rewrite String.eqb_refl.
Qed.

Lemma make_isEmpty :
  forall expected : list string,
    isEmpty (expectedRequests (make expected)) = isEmpty expected.
Proof.
  intros expected.
  destruct (isEmpty expected) eqn:He.
  - destruct expected; [reflexivity | discriminate].
  - destruct expected as [|x expected]; [discriminate|].
    assert (H : set_has x (expectedRequests (make (x :: expected))) = true).
    { rewrite make_has. simpl. now rewrite String.eqb_refl. }
    destruct (expectedRequests (make (x :: expected))); [discriminate H | reflexivity].
Qed.

(** X10: the callback [onceComplete] is called at most once, and it is
    called exactly when every request expected at construction has been
    resolved and at least one request was expected; the calls of
    [resolve] that return [true] are the calls of the callback.  A
    trigger that expects nothing never fires. *)
Theorem trigger_fires_once_when_all_resolved :
  forall expected requests : list string,
    let results := fst (resolveAll requests (make expected)) in
    let t := snd (resolveAll requests (make expected)) in
    completions t = (if allResolved expected requests then 1 else 0)%nat
    /\ countTrue results = completions t.
Proof.
  intros expected requests results t. subst results t.
  assert (Hstart : counted (negb (isEmpty expected)) (make expected)).
  { split.
    - rewrite make_isEmpty. simpl. now destruct (isEmpty expected).
    - intros He. apply negb_false_iff in He.
      destruct expected; [reflexivity | discriminate]. }
  destruct (resolveAll_counted _ requests _ Hstart) as [[Hc _] Hsum].
  simpl in Hsum. split; [|lia].
  rewrite Hc. unfold allResolved. fold (isEmpty expected).
  destruct (isEmpty expected); simpl; [reflexivity|].
  assert (Heq : isEmpty (expectedRequests (snd (resolveAll requests (make expected))))
                = forallb (fun x => set_has x requests) expected).
  { apply eq_true_iff_eq. rewrite isEmpty_by_members, !forallb_forall. split.
    - intros H x Hx.
      destruct (set_has x requests) eqn:Hreq; [reflexivity|].
      assert (Hrem : set_has x (expectedRequests (snd (resolveAll requests (make expected))))
                     = true).
      { rewrite resolveAll_remaining, make_has, Hreq.
        unfold set_has. rewrite andb_true_r. apply existsb_exists.
        exists x. split; [exact Hx | apply String.eqb_refl]. }
      assert (Hin : In x (expectedRequests (snd (resolveAll requests (make expected))))).
      { unfold set_has in Hrem. apply existsb_exists in Hrem.
        destruct Hrem as [y [Hy Hxy]]. apply String.eqb_eq in Hxy. now subst y. }
      specialize (H x Hin). rewrite Hrem in H. discriminate.
    - intros H y Hy.
      apply negb_true_iff. apply not_true_is_false. intros Hrem.
      rewrite resolveAll_remaining, make_has in Hrem.
      apply andb_true_iff in Hrem. destruct Hrem as [Hexp Hnot].
      unfold set_has in Hexp. apply existsb_exists in Hexp.
      destruct Hexp as [x [Hx Hyx]]. apply String.eqb_eq in Hyx. subst x.
      rewrite (H y Hx) in Hnot. discriminate. }
  now rewrite Heq.
Qed.

End InvalidationCompleteTriggerFacts.

(** ** The focus controller: further properties *)

Lemma option_eqb_refl :
  forall (A : Type) (eqb : A -> A -> bool) (o : option A),
    (forall a, eqb a a = true) -> utils.option_eqb eqb o o = true.
Proof.
  intros A eqb [a|] H; simpl; [apply H | reflexivity].
Qed.

Lemma focus_eqb_refl : forall f : Focus, utils.focus_eqb f f = true.
Proof.
  intros [n|f]; simpl; [apply Z.eqb_refl | apply cudaFocus_eqb_refl].
Qed.

Lemma set_gdbFocusedFrame_same :
  forall (s : Session) (f : option RealizedFrameReference),
    gdbFocusedFrame s = f -> set_gdbFocusedFrame f s = s.
Proof.
  intros [] f H. simpl in H. subst. reflexivity.
Qed.

Lemma focusOnFrame_unfold :
  forall (B : GDBBackend) (fr : RealizedFrameReference) (s : Session),
    focusOnFrame B (Some fr) s
    = match focusOnFrame_fuel B 3 (Some fr) s with
      | Some r => r
      | None => (Throw "focusOnFrame: call depth exceeded", s)
      end.
Proof. reflexivity. Qed.

(** X11: a focus switch that succeeded is not repeated: a second call
    of [focusOnFrame] for the same frame writes no command and leaves
    the session as it is. *)
Theorem focusOnFrame_is_idempotent :
  forall (B : GDBBackend) (frame : option RealizedFrameReference) (s : Session),
    fst (focusOnFrame B frame s) = Ok tt ->
    focusOnFrame B frame (snd (focusOnFrame B frame s))
    = (Ok tt, snd (focusOnFrame B frame s)).
Proof.
  intros B [fr|] s Hok; [|reflexivity].
  destruct (focusOnFrame B (Some fr) s) as [r s'] eqn:Hfirst.
  cbn [fst snd] in *. subst r.
  rewrite focusOnFrame_unfold in Hfirst. change 3%nat with (S 2) in Hfirst.
  rewrite (@focusOnFrame_fuel_step B 2 fr s) in Hfirst.
  rewrite focusOnFrame_unfold. change 3%nat with (S 2).
  rewrite (@focusOnFrame_fuel_step B 2 fr s').
  destruct (utils.deepEqualFrame (Some fr) (gdbFocusedFrame s)) eqn:Hsame.
  { injection Hfirst as <-. now rewrite Hsame. }
  destruct (focusOrCurrent fr s) as [focus|] eqn:Hfocus.
  2: { injection Hfirst as <-. now rewrite Hsame, Hfocus. }
  cbv zeta in Hfirst. rewrite sendCommands_guard in Hfirst.
  pose proof (sendCommands_only_sent B
                (focusCommands focus (frameId fr) (gdbFocusedFrame s)) s) as Honly.
  destruct (sendCommands B (focusCommands focus (frameId fr) (gdbFocusedFrame s)) s)
    as [[u|e] s1] eqn:Hsend; cbn [snd] in Honly.
  - injection Hfirst as <-.
    set (s2 := set_gdbFocusedFrame (Some (mkFrame (frameId fr) (Some focus))) s1).
    assert (Hrec : gdbFocusedFrame s2 = Some (mkFrame (frameId fr) (Some focus)))
      by reflexivity.
    rewrite Hrec.
    destruct (types.focus fr) as [f|] eqn:Hfr.
    + assert (Hf : f = focus).
      { unfold focusOrCurrent in Hfocus. rewrite Hfr in Hfocus. congruence. }
      subst f.
      assert (Heq : utils.deepEqualFrame (Some fr) (Some (mkFrame (frameId fr) (Some focus)))
                    = true).
      { unfold utils.deepEqualFrame, utils.frame_eqb. simpl. rewrite Hfr. simpl.
        rewrite focus_eqb_refl, andb_true_r.
        apply option_eqb_refl. apply Z.eqb_refl. }
      now rewrite Heq.
    + assert (Hneq : utils.deepEqualFrame (Some fr) (Some (mkFrame (frameId fr) (Some focus)))
                     = false).
      { unfold utils.deepEqualFrame, utils.frame_eqb. simpl. rewrite Hfr. simpl.
        apply andb_false_r. }
      rewrite Hneq.
      assert (Hcur : focusOrCurrent fr s2 = Some focus).
      { unfold focusOrCurrent in *. rewrite Hfr in *. subst s2. rewrite Honly. exact Hfocus. }
      rewrite Hcur. cbv zeta.
      assert (Hnone : focusCommands focus (frameId fr)
                        (Some (mkFrame (frameId fr) (Some focus))) = []).
      { unfold focusCommands, utils.deepEqualFocus, utils.deepEqualFrameId. simpl.
        rewrite focus_eqb_refl. simpl.
        destruct (frameId fr) as [n|]; [|reflexivity].
        simpl. now rewrite Z.eqb_refl. }
      rewrite Hnone. simpl.
      now rewrite (set_gdbFocusedFrame_same s2 _ Hrec).
  - exfalso.
    destruct (focusOnFrame_fuel B 2 (gdbFocusedFrame s1) (set_gdbFocusedFrame None s1))
      as [[[u|e2] s2]|]; discriminate.
Qed.

Lemma focusOnFrame_is_idempotent_witness :
  let B := acceptingBackend in
  let frame := Some (mkFrame (Some 2) None) in
  focusOnFrame B frame (snd (focusOnFrame B frame onDevice))
  = (Ok tt, snd (focusOnFrame B frame onDevice)).
Proof.
  exact (focusOnFrame_is_idempotent acceptingBackend (Some (mkFrame (Some 2) None)) onDevice
           eq_refl).
Defined.

(** *** Parts of the session that an operation does not touch *)

Section Untouched.

Variable P : Session -> Prop.
Hypothesis P_sent : forall l s, P s -> P (set_sent l s).
Hypothesis P_emitted : forall l s, P s -> P (set_emitted l s).
Hypothesis P_varStore : forall st s, P s -> P (set_varStore st s).

Lemma untouched_send :
  forall (A : Type) (oracle : list Cmd -> Result A) (c : Cmd), keeps P (send oracle c).
Proof. intros A oracle c s H. now apply P_sent. Qed.

Lemma untouched_emit : forall o : Output, keeps P (emit o).
Proof. intros o s H. now apply P_emitted. Qed.

Lemma untouched_modifyStore :
  forall f : VariableObjectStore -> VariableObjectStore, keeps P (modifyStore f).
Proof. intros f s H. now apply P_varStore. Qed.

Lemma untouched_sendCommands :
  forall (B : GDBBackend) (cs : list Cmd), keeps P (sendCommands B cs).
Proof.
  intros B cs. induction cs as [|c cs IH]; simpl.
  - apply keeps_ret.
  - apply keeps_bind; [apply untouched_send | intros _; exact IH].
Qed.

Lemma untouched_update : forall B : GDBBackend, keeps P (update B).
Proof.
  intros B. unfold update.
  apply keeps_get_bind. intros s0.
  destruct (negb (gdb (varStore s0))); [apply keeps_throw|].
  apply keeps_bind; [apply untouched_send | intros changes].
  apply keeps_bind; [apply untouched_modifyStore | intros _; apply keeps_ret].
Qed.

Lemma untouched_updateLocals : forall B : GDBBackend, keeps P (updateLocals B).
Proof.
  intros B. unfold updateLocals.
  apply keeps_bind; [apply untouched_update | intros _; apply keeps_ret].
Qed.

Lemma untouched_clear : forall (B : GDBBackend) (k : Kind), keeps P (clear B k).
Proof.
  intros B k. unfold clear.
  apply keeps_get_bind. intros s0.
  apply keeps_bind; [|intros _; apply untouched_modifyStore].
  destruct (gdb (varStore s0)); [apply untouched_sendCommands | apply keeps_ret].
Qed.

Lemma untouched_createLocals :
  forall (B : GDBBackend) (l : list MIVariableInfo), keeps P (createLocals B l).
Proof.
  intros B l. unfold createLocals.
  apply keeps_get_bind. intros s0.
  destruct (negb (gdb (varStore s0))); [apply keeps_ret|].
  induction l as [|sl l IH]; simpl; [apply keeps_ret|].
  apply keeps_bind; [apply untouched_send | intros resp].
  apply keeps_bind; [apply untouched_modifyStore | intros _; exact IH].
Qed.

Lemma untouched_validate :
  forall (B : GDBBackend) (focus : Focus) (frameId : Z) (funcName : option string),
    keeps P (validate B focus frameId funcName).
Proof.
  intros B focus frameId funcName.
  assert (Hfetch : forall flag, keeps P (validate_fetch B focus frameId funcName flag)).
  { intros flag. unfold validate_fetch.
    apply keeps_bind; [apply untouched_send | intros fetched].
    apply keeps_get_bind. intros s0.
    destruct (negb _).
    - apply untouched_updateLocals.
    - apply keeps_bind; [apply untouched_clear | intros _].
      apply keeps_bind; [apply untouched_createLocals | intros _].
      apply untouched_modifyStore. }
  unfold validate.
  apply keeps_get_bind. intros s0.
  destruct (negb (gdb (varStore s0))); [apply keeps_ret|].
  destruct (_ || _); [apply Hfetch|].
  destruct (resumed (execContext (varStore s0))) as [[|]|];
    first [apply Hfetch | apply untouched_updateLocals].
Qed.

Lemma untouched_getLocals :
  forall (B : GDBBackend) (focus : option Focus) (frameId : Z),
    keeps P (getLocals B focus frameId).
Proof.
  intros B [focus|] frameId; [|apply keeps_ret].
  unfold getLocals, getCurrentFunction.
  apply keeps_bind.
  - apply keeps_get_bind. intros s0.
    destruct (negb (gdb (varStore s0))); [apply keeps_throw|].
    apply keeps_bind; [apply untouched_send | intros [|frameInfo rest]];
      [apply keeps_throw | apply keeps_ret].
  - intros funcName.
    apply keeps_bind; [apply untouched_validate | intros _].
    apply keeps_get_bind. intros s0. apply keeps_ret.
Qed.

Lemma untouched_evaluate :
  forall (B : GDBBackend) (expression : string), keeps P (evaluate B expression).
Proof.
  intros B expression. unfold evaluate.
  apply keeps_get_bind. intros s0.
  destruct (negb (gdb (varStore s0))); [apply keeps_ret|].
  apply keeps_tryCatch; [|intros _; apply keeps_ret].
  apply keeps_bind; [apply untouched_send | intros resp].
  apply keeps_bind; [apply untouched_modifyStore | intros _; apply keeps_ret].
Qed.

Lemma untouched_updateLocal :
  forall (varObjName : string) (change : VarUpdateChanges),
    keeps P (updateLocal varObjName change).
Proof.
  intros varObjName change. unfold updateLocal.
  apply keeps_get_bind. intros s0.
  destruct (JSMap.get varObjName (byName (varStore s0))); [|apply keeps_ret].
  apply keeps_bind; [apply untouched_modifyStore | intros _; apply keeps_ret].
Qed.

Lemma untouched_localsRequest :
  forall (B : GDBBackend) (realizedFrame : RealizedFrameReference) (frameId : Z),
    keeps P (localsRequest B realizedFrame frameId).
Proof.
  intros B realizedFrame frameId. unfold localsRequest.
  apply keeps_bind; [apply untouched_getLocals | intros l; apply untouched_emit].
Qed.

Lemma untouched_registersRequest :
  forall (B : GDBBackend) (group : RegisterGroup), keeps P (registersRequest B group).
Proof.
  intros B group. unfold registersRequest.
  apply keeps_bind; [|intros m; apply untouched_emit].
  apply keeps_tryCatch.
  - apply keeps_bind; [apply untouched_send | intros pairs; apply keeps_ret].
  - intros _. generalize (@nil (option Z * string)) as m.
    induction (registers group) as [|reg regs IH]; intros m; simpl; [apply keeps_ret|].
    apply keeps_bind; [|intros m'; apply IH].
    apply keeps_tryCatch; [|intros _; apply keeps_ret].
    apply keeps_bind; [apply untouched_send | intros pairs; apply keeps_ret].
Qed.

End Untouched.

Lemma emittedBy_appended :
  forall (A : Type) (m : M A) (s : Session) (l : list Output),
    emitted (snd (m s)) = emitted s ++ l -> emittedBy m s = l.
Proof.
  intros A m s l H. unfold emittedBy. rewrite H.
  rewrite skipn_app, skipn_all, Nat.sub_diag. reflexivity.
Qed.

(** X12: [resetSelectedFocusRequest] never throws.  When the focus
    switch to the frame selected in the UI fails, exactly one error
    response with the message of the error is sent; when it succeeds,
    nothing at all is sent to the IDE. *)
Theorem resetSelectedFocus_answers_only_errors :
  forall (B : GDBBackend) (s : Session),
    fst (resetSelectedFocusRequest B s) = Ok tt
    /\ emittedBy (resetSelectedFocusRequest B) s
       = match fst (focusOnFrame B (uiFocusedFrame s) s) with
         | Ok _ => []
         | Throw error => [SendErrorResponse 1 error]
         end.
Proof.
  intros B s.
  pose proof (focusOnFrame_same B (uiFocusedFrame s) s) as (_ & _ & _ & Hemit).
  unfold emittedBy, resetSelectedFocusRequest, tryCatch, bind, get, emit, modify.
  destruct (focusOnFrame B (uiFocusedFrame s) s) as [[[]|e] s1]; simpl in *.
  - split; [reflexivity|]. now rewrite Hemit, skipn_all.
  - split; [reflexivity|]. now rewrite Hemit, skipn_app, skipn_all, Nat.sub_diag.
Qed.

(** *** The variant of the focus of the pseudo-thread *)

Lemma handleGDBAsync_notHardware :
  forall (B : GDBBackend) (resultClass : string) (resultData : AsyncData) (s : Session),
    notHardware (thread_focus (cudaThread s)) ->
    notHardware (thread_focus (cudaThread (snd (handleGDBAsync B resultClass resultData s)))).
Proof.
  intros B resultClass [[[blockIdx threadIdx]|]] s H;
    unfold handleGDBAsync, bind, get, ret, emit, modifyStore, modify, setFocus,
      resetCudaFocus, hasFocus;
    destruct (String.eqb resultClass "stopped"); simpl; try exact H.
  match goal with
  | |- context [if ?c then _ else _] => destruct c
  end; simpl; [exact I | exact H].
Qed.

Lemma changeCudaFocus_effect :
  forall (B : GDBBackend) (focus : CudaFocus) (s : Session),
    notHardware (thread_focus (cudaThread s)) ->
    let s' := snd (changeCudaFocusRequest B focus s) in
    notHardware (thread_focus (cudaThread s'))
    /\ (forall fs fw fl, focus = hardware fs fw fl ->
        thread_focus (cudaThread s') = thread_focus (cudaThread s)
        /\ exists message, emitted s' = emitted s ++ [SendErrorResponse 1 message]).
Proof.
  intros B focus s Hnot s'. subst s'.
  unfold changeCudaFocusRequest, tryCatch, bind, focusOnThread.
  pose proof (focusOnFrame_same B (Some (mkFrame (Some 0) (Some (cuda focus)))) s)
    as (Hthread & _ & _ & Hemit).
  destruct (focusOnFrame B (Some (mkFrame (Some 0) (Some (cuda focus)))) s)
    as [[u|e] s1]; simpl in Hthread, Hemit.
  - unfold get, ret, setFocus, modify, emit, invalidateAreas, invalidateState. simpl.
    rewrite Hthread.
    destruct focus as [fb ft|fs fw fl];
      destruct (thread_focus (cudaThread s)) as [[cb ct|cs cw cl]|] eqn:Hcur;
      try contradiction; simpl.
    + split; [|intros ? ? ? Heq; discriminate Heq].
      destruct (uiFocusedFrame s1) as [ui|]; simpl; [destruct (isCudaFocus (types.focus ui))|];
        exact I.
    + rewrite Hthread, Hcur. split; [exact I | intros ? ? ? Heq; discriminate Heq].
    + rewrite Hthread, Hcur, Hemit. split; [exact I|]. intros ? ? ? _.
      split; [reflexivity | now eexists].
    + rewrite Hthread, Hcur, Hemit. split; [exact I|]. intros ? ? ? _.
      split; [reflexivity | now eexists].
  - unfold get, emit, modify. simpl.
    pose proof (focusOnFrame_same B
                  (uiFocusedFrame (set_emitted (emitted s1 ++ [SendErrorResponse 1 e]) s1))
                  (set_emitted (emitted s1 ++ [SendErrorResponse 1 e]) s1))
      as (Hthread2 & _ & _ & Hemit2).
    simpl in Hthread2, Hemit2.
    destruct (focusOnFrame B (uiFocusedFrame s1)
                (set_emitted (emitted s1 ++ [SendErrorResponse 1 e]) s1)) as [r s2].
    simpl in *. rewrite Hthread2, Hthread. split; [exact Hnot|].
    intros ? ? ? _. split; [reflexivity|]. exists e. now rewrite Hemit2, Hemit.
Qed.

Lemma occur_notHardware :
  forall (e : SessionEvent) (s : Session),
    notHardware (thread_focus (cudaThread s)) ->
    notHardware (thread_focus (cudaThread (occur e s))).
Proof.
  intros e s H.
  assert (Hsame : forall (m : M unit),
             keeps (threadFocusIs (thread_focus (cudaThread s))) m ->
             notHardware (thread_focus (cudaThread (snd (m s))))).
  { intros m Hm. specialize (Hm s eq_refl). unfold threadFocusIs in Hm. now rewrite Hm. }
  assert (Hsame' : forall (A : Type) (m : M A),
             keeps (threadFocusIs (thread_focus (cudaThread s))) m ->
             notHardware (thread_focus (cudaThread (snd (m s))))).
  { intros A m Hm. specialize (Hm s eq_refl). unfold threadFocusIs in Hm. now rewrite Hm. }
  destruct e as [B c d|B f|B|B fr|B fr n|B g|op]; simpl.
  - now apply handleGDBAsync_notHardware.
  - now apply (changeCudaFocus_effect B f s H).
  - pose proof (focusOnFrame_same B (uiFocusedFrame s) s) as (Hthread & _).
    unfold resetSelectedFocusRequest, tryCatch, bind, get, emit, modify.
    destruct (focusOnFrame B (uiFocusedFrame s) s) as [[u|e] s1]; simpl in *;
      now rewrite Hthread.
  - pose proof (focusOnFrame_same B fr s) as (Hthread & _). now rewrite Hthread.
  - apply Hsame. apply untouched_localsRequest; intros; assumption.
  - apply Hsame. apply untouched_registersRequest; intros; assumption.
  - destruct op as [B e|B f n|B|v c|B|B d]; simpl.
    + apply Hsame'. apply untouched_evaluate; intros; assumption.
    + apply Hsame'. apply untouched_getLocals; intros; assumption.
    + apply Hsame'. apply untouched_update; intros; assumption.
    + apply Hsame'. apply untouched_updateLocal; intros; assumption.
    + apply Hsame. apply untouched_clear; intros; assumption.
    + now apply handleGDBAsync_notHardware.
Qed.

(** X13: in every state a new session reaches through records of the
    backend, focus-change and focus-reset requests, focus switches,
    locals and register requests and operations of the store, the focus
    of the pseudo-thread is absent or in software coordinates.  So a
    focus-change request in hardware coordinates never succeeds there:
    it is answered with one error response, no response carries a focus,
    and the focus of the pseudo-thread stays. *)
Theorem hardware_focus_is_never_accepted :
  forall (es : list SessionEvent) (B : GDBBackend) (sm warp lane : option Z),
    let s := occurAll es newSession in
    let s' := snd (changeCudaFocusRequest B (hardware sm warp lane) s) in
    notHardware (thread_focus (cudaThread s))
    /\ thread_focus (cudaThread s') = thread_focus (cudaThread s)
    /\ (exists message,
           emittedBy (changeCudaFocusRequest B (hardware sm warp lane)) s
           = [SendErrorResponse 1 message]).
Proof.
  intros es B sm warp lane s s'.
  assert (Hreach : notHardware (thread_focus (cudaThread s))).
  { subst s. unfold occurAll.
    assert (H : forall s0, notHardware (thread_focus (cudaThread s0)) ->
                           notHardware (thread_focus (cudaThread
                             (fold_left (fun s e => occur e s) es s0)))).
    { induction es as [|e es IH]; intros s0 Hs0; [exact Hs0|].
      simpl. apply IH. now apply occur_notHardware. }
    apply H. exact I. }
  split; [exact Hreach|].
  destruct (changeCudaFocus_effect B (hardware sm warp lane) s Hreach) as [_ H].
  destruct (H sm warp lane eq_refl) as [Hfocus [message Hemit]].
  split; [exact Hfocus|]. exists message.
  now apply emittedBy_appended.
Qed.

(** *** Stop records *)

Lemma option_eqb_eq (A : Type) (eqb : A -> A -> bool) :
  (forall u v, eqb u v = true -> u = v) ->
  forall a b : option A, utils.option_eqb eqb a b = true -> a = b.
Proof.
  intros H [u|] [v|] Hab; simpl in Hab; try discriminate; [|reflexivity].
  now rewrite (H u v Hab).
Qed.

Lemma equalsCudaDim_eq (a b : CudaDim) : utils.equalsCudaDim a b = true -> a = b.
Proof.
  destruct a as [xa ya za], b as [xb yb zb]. unfold utils.equalsCudaDim. cbn [x y z].
  intros H. apply andb_true_iff in H. destruct H as [H Hz].
  apply andb_true_iff in H. destruct H as [Hx Hy].
  apply (option_eqb_eq Z Z.eqb (fun u v => proj1 (Z.eqb_eq u v))) in Hx, Hy, Hz.
  now subst.
Qed.

Lemma cudaFocus_eqb_eq (a b : CudaFocus) : utils.cudaFocus_eqb a b = true -> a = b.
Proof.
  destruct a as [b1 t1|s1 w1 l1], b as [b2 t2|s2 w2 l2]; simpl; try discriminate; intros H.
  - apply andb_true_iff in H. destruct H as [Hb Ht].
    apply (option_eqb_eq CudaDim utils.equalsCudaDim equalsCudaDim_eq) in Hb, Ht. now subst.
  - apply andb_true_iff in H. destruct H as [H Hl].
    apply andb_true_iff in H. destruct H as [Hs Hw].
    apply (option_eqb_eq Z Z.eqb (fun u v => proj1 (Z.eqb_eq u v))) in Hs, Hw, Hl.
    now subst.
Qed.

Lemma equalsCudaFocus_eq (a b : option CudaFocus) :
  utils.equalsCudaFocus a b = true -> a = b.
Proof. apply option_eqb_eq. exact cudaFocus_eqb_eq. Qed.

(** X14: after a [stopped] record the focus of the pseudo-thread is the
    software focus of its device fields, or the focus it was when the
    record has none: a stop never clears the focus.  The record never
    writes a command and never sends the system-info event; it marks the
    store as resumed, so that the next pass of [validate] takes no short
    cut. *)
Theorem stop_record_effect :
  forall (B : GDBBackend) (resultData : AsyncData) (s : Session),
    let s' := snd (handleGDBAsync B "stopped" resultData s) in
    fst (handleGDBAsync B "stopped" resultData s) = Ok tt
    /\ thread_focus (cudaThread s')
       = match CudaFocus_member resultData with
         | Some (blockIdx, threadIdx) => Some (software blockIdx threadIdx)
         | None => thread_focus (cudaThread s)
         end
    /\ sent s' = sent s
    /\ telemetryInfoSent s' = telemetryInfoSent s
    /\ existsb (fun o => match o with SystemInfoEvent => true | _ => false end)
               (emittedBy (handleGDBAsync B "stopped" resultData) s) = false
    /\ resumed (execContext (varStore s')) = Some true
    /\ (forall focus frameId, takesShortCut (varStore s') focus frameId = false).
Proof.
  intros B [[[blockIdx threadIdx]|]] s; unfold emittedBy;
    unfold handleGDBAsync, bind, get, ret, emit, modifyStore, modify, setFocus,
      resetCudaFocus, hasFocus, takesShortCut; simpl.
  - destruct (utils.equalsCudaFocus (Some (software blockIdx threadIdx))
                                    (thread_focus (cudaThread s))) eqn:Hsame; simpl;
      (split; [reflexivity|]).
    + split; [symmetry; exact (equalsCudaFocus_eq _ _ Hsame)|].
      split; [reflexivity|]. split; [reflexivity|].
      split; [now rewrite skipn_app, skipn_all, Nat.sub_diag|].
      split; [reflexivity|].
      intros. now rewrite andb_false_r.
    + split; [reflexivity|].
      split; [reflexivity|]. split; [reflexivity|].
      split; [now rewrite <- app_assoc, skipn_app, skipn_all, Nat.sub_diag|].
      split; [reflexivity|].
      intros. now rewrite andb_false_r.
  - repeat (split; [reflexivity|]). split.
    + now rewrite skipn_app, skipn_all, Nat.sub_diag.
    + split; [reflexivity|]. intros. now rewrite andb_false_r.
Qed.

(** ** The register grouper *)

Section RegisterGrouperFacts.

Variable matches : string -> string -> bool.

Lemma findGroup_patterns (groups groups' : list (string * RegisterGroup)) (name : string) :
  map fst groups = map fst groups' ->
  findGroup matches groups name = findGroup matches groups' name.
Proof.
  revert groups'; induction groups as [|[p g] rest IH]; intros [|[p' g'] rest'] H;
    simpl in H; try discriminate; [reflexivity|].
  injection H as Hp Hrest. subst p'. simpl.
  rewrite (IH rest' Hrest). reflexivity.
Qed.

Lemma pushRegister_patterns (i : nat) (r : Register) (groups : list (string * RegisterGroup)) :
  map fst (pushRegister i r groups) = map fst groups.
Proof.
  revert i; induction groups as [|[p g] rest IH]; intros [|i]; simpl; try reflexivity.
  now rewrite IH.
Qed.

Lemma findGroup_bound (groups : list (string * RegisterGroup)) (name : string) (i : nat) :
  findGroup matches groups name = Some i -> (i < List.length groups)%nat.
Proof.
  revert i; induction groups as [|[p g] rest IH]; intros i H; simpl in H; [discriminate|].
  destruct (matches p name).
  - injection H as <-. simpl. lia.
  - destruct (findGroup matches rest name) as [k|]; [|discriminate].
    injection H as <-. simpl. specialize (IH k eq_refl). lia.
Qed.

Lemma findGroup_firstMatch (groups : list (string * RegisterGroup)) (name : string) (i : nat) :
  findGroup matches groups name = Some i <-> firstMatch matches (map fst groups) name i.
Proof.
  revert i; induction groups as [|[p g] rest IH]; intros i; simpl.
  - split; [discriminate|]. intros [[q [H _]] _]. now destruct i.
  - destruct (matches p name) eqn:Hm.
    + split.
      * intros H. injection H as <-. split; [exists p; now split|]. intros j q Hj. lia.
      * intros [[q [Hq Hmq]] Hfirst]. destruct i as [|i]; [reflexivity|].
        specialize (Hfirst O p ltac:(lia) eq_refl). congruence.
    + split.
      * intros H. destruct (findGroup matches rest name) as [k|] eqn:Hk; [|discriminate].
        injection H as <-. destruct (proj1 (IH k) eq_refl) as [[q [Hq Hmq]] Hfirst].
        split; [exists q; now split|].
        intros [|j] q' Hj Hq'; simpl in Hq'.
        -- now injection Hq' as <-.
        -- apply (Hfirst j q'); [lia|assumption].
      * intros [[q [Hq Hmq]] Hfirst]. destruct i as [|i]; simpl in Hq.
        -- injection Hq as <-. congruence.
        -- assert (Hi : firstMatch matches (map fst rest) name i).
           { split; [exists q; now split|].
             intros j q' Hj Hq'. apply (Hfirst (S j) q'); [lia|exact Hq']. }
           apply IH in Hi. now rewrite Hi.
Qed.

Lemma registersAt_pushRegister (i j : nat) (r : Register) (groups : list (string * RegisterGroup)) :
  (i < List.length groups)%nat ->
  registersAt j (pushRegister i r groups)
  = registersAt j groups ++ (if Nat.eqb j i then [r] else []).
Proof.
  revert i j; induction groups as [|[p g] rest IH]; intros i j Hi; simpl in Hi; [lia|].
  destruct i as [|i]; destruct j as [|j]; simpl; unfold registersAt; simpl.
  - reflexivity.
  - destruct (nth_error rest j) as [[? ?]|]; now rewrite app_nil_r.
  - now rewrite app_nil_r.
  - apply (IH i j). lia.
Qed.

Lemma nth_error_Some_bound (A : Type) (l : list A) (k : nat) (x : A) :
  nth_error l k = Some x -> (k < List.length l)%nat.
Proof.
  intros H. apply nth_error_Some. congruence.
Qed.

Lemma nth_error_snoc (pre : list string) (x : string) (k : nat) (n : string) :
  nth_error (pre ++ [x]) k = Some n
  <-> nth_error pre k = Some n \/ (k = List.length pre /\ n = x).
Proof.
  destruct (Nat.lt_ge_cases k (List.length pre)) as [Hlt|Hge].
  - rewrite nth_error_app1 by exact Hlt. split; [now left|].
    intros [H|[H _]]; [exact H|lia].
  - rewrite nth_error_app2 by exact Hge.
    split.
    + intros H. right. destruct (k - List.length pre)%nat as [|d] eqn:Hd; simpl in H.
      * injection H as <-. split; [lia|reflexivity].
      * now destruct d.
    + intros [H|[-> ->]].
      * apply nth_error_Some_bound in H. lia.
      * now rewrite Nat.sub_diag.
Qed.

Lemma taken_snoc (isCUDA : bool) (pre : list string) (x : string) (k : nat) (n : string) :
  taken isCUDA (pre ++ [x]) k n
  <-> taken isCUDA pre k n
      \/ (k = List.length pre /\ n = x /\ x <> EmptyString /\ (isCUDA = true -> ~ In x pre)).
Proof.
  unfold taken. split.
  - intros [Hk [Hne Hfirst]]. apply nth_error_snoc in Hk. destruct Hk as [Hk|[-> ->]].
    + left. split; [exact Hk|]. split; [exact Hne|].
      intros Hc j Hj Hj'. apply (Hfirst Hc j Hj). apply nth_error_snoc. now left.
    + right. repeat split; try assumption.
      intros Hc Hin. apply In_nth_error in Hin. destruct Hin as [j Hj].
      apply (Hfirst Hc j).
      * apply nth_error_Some_bound in Hj. exact Hj.
      * apply nth_error_snoc. now left.
  - intros [[Hk [Hne Hfirst]]|[-> [-> [Hne Hfirst]]]].
    + split; [apply nth_error_snoc; now left|]. split; [exact Hne|].
      intros Hc j Hj Hj'. apply nth_error_snoc in Hj'. destruct Hj' as [Hj'|[-> _]].
      * exact (Hfirst Hc j Hj Hj').
      * apply nth_error_Some_bound in Hk. lia.
    + split; [apply nth_error_snoc; right; now split|]. split; [exact Hne|].
      intros Hc j Hj Hj'. apply nth_error_snoc in Hj'. destruct Hj' as [Hj'|[-> _]].
      * apply (Hfirst Hc). eapply nth_error_In; exact Hj'.
      * lia.
Qed.

Lemma taken_bound (isCUDA : bool) (pre : list string) (k : nat) (n : string) :
  taken isCUDA pre k n -> (k < List.length pre)%nat.
Proof.
  intros [H _]. eapply nth_error_Some_bound; exact H.
Qed.

Lemma length_zero_empty (x : string) :
  Nat.eqb (String.length x) 0 = true <-> x = EmptyString.
Proof.
  destruct x; simpl; split; intros H; try reflexivity; discriminate.
Qed.

Lemma sorted_snoc (l : list Register) (r : Register) :
  StronglySorted (fun a b => ordinal a < ordinal b) l ->
  Forall (fun a => ordinal a < ordinal r) l ->
  StronglySorted (fun a b => ordinal a < ordinal b) (l ++ [r]).
Proof.
  induction l as [|a l IH]; intros Hs Hall; simpl.
  - constructor; constructor.
  - inversion Hs as [|? ? Hs' Ha]; subst. inversion Hall as [|? ? Har Hall']; subst.
    constructor; [now apply IH|].
    apply Forall_app. split; [exact Ha|]. now constructor.
Qed.

Lemma grouped_start (isCUDA : bool) (definitions : list RegisterGroupDefinition) :
  grouped matches isCUDA (map def_groupPattern definitions) []
          (map newRegisterGroup definitions, [], O).
Proof.
  unfold grouped. split; [reflexivity|]. split.
  { rewrite map_map. reflexivity. }
  split.
  { intros _ x. simpl. split; [discriminate|]. now intros [_ []]. }
  assert (Hnone : forall i, registersAt i (map newRegisterGroup definitions) = []).
  { intros i. unfold registersAt. rewrite nth_error_map.
    now destruct (nth_error definitions i). }
  split.
  - intros i r. rewrite Hnone. split; [intros []|].
    intros [k [_ [[Hk _] _]]]. now destruct k.
  - intros i. rewrite Hnone. constructor.
Qed.

Lemma grouped_step (isCUDA : bool) (patterns seen : list string) (st : GrouperState)
      (registerName : string) :
  grouped matches isCUDA patterns seen st ->
  grouped matches isCUDA patterns (seen ++ [registerName])
          (classifyName matches isCUDA st registerName).
Proof.
  destruct st as [[groups recorded] ord].
  intros [Hord [Hpat [Hrec [Hregs Hsorted]]]].
  assert (Hlen : S ord = List.length (seen ++ [registerName])).
  { rewrite length_app. simpl. lia. }
  assert (Hskip :
    (registerName = EmptyString \/ (isCUDA = true /\ In registerName seen)
     \/ findGroup matches groups registerName = None) ->
    forall recorded',
      (isCUDA = true ->
       forall x, InvalidationCompleteTrigger.set_has x recorded' = true
                 <-> (x <> EmptyString /\ In x (seen ++ [registerName]))) ->
      grouped matches isCUDA patterns (seen ++ [registerName]) (groups, recorded', S ord)).
  { intros Hwhy recorded' Hrec'. split; [exact Hlen|]. split; [exact Hpat|].
    split; [exact Hrec'|]. split; [|exact Hsorted].
    intros i r. rewrite Hregs. split.
    - intros [k [Hk [Ht Hf]]]. exists k. split; [exact Hk|]. split; [|exact Hf].
      apply taken_snoc. now left.
    - intros [k [Hk [Ht Hf]]]. apply taken_snoc in Ht.
      destruct Ht as [Ht|[-> [Hn [Hne Hfirst]]]].
      + exists k. split; [exact Hk|]. split; [exact Ht|exact Hf].
      + exfalso. destruct Hwhy as [He|[[Hc Hin]|Hnone]].
        * now apply Hne.
        * now apply (Hfirst Hc).
        * rewrite Hn in Hf. congruence. }
  unfold classifyName.
  destruct (Nat.eqb (String.length registerName) 0) eqn:Hempty.
  { apply length_zero_empty in Hempty. apply Hskip; [now left|].
    intros Hc x. rewrite (Hrec Hc x). rewrite in_app_iff. simpl.
    split; [intros [Hx Hin]; split; [exact Hx|now left]|].
    intros [Hx [Hin|[Heq|[]]]]; [now split|]. subst. now contradiction Hx. }
  assert (Hne : registerName <> EmptyString).
  { intros He. apply length_zero_empty in He. congruence. }
  destruct (isCUDA && InvalidationCompleteTrigger.set_has registerName recorded) eqn:Hdup.
  { apply andb_true_iff in Hdup. destruct Hdup as [Hc Hhas].
    pose proof (proj1 (Hrec Hc registerName) Hhas) as [_ Hin].
    apply Hskip; [right; left; now split|].
    intros _ x. rewrite (Hrec Hc x). rewrite in_app_iff. simpl.
    split; [intros [Hx Hx']; split; [exact Hx|now left]|].
    intros [Hx [Hx'|[Heq|[]]]]; [now split|]. subst. now split. }
  assert (Hfresh : isCUDA = true -> ~ In registerName seen).
  { intros Hc Hin. rewrite Hc in Hdup. simpl in Hdup.
    assert (Hhas : InvalidationCompleteTrigger.set_has registerName recorded = true)
      by (apply (Hrec Hc); now split).
    congruence. }
  assert (Hrec' : isCUDA = true ->
      forall x, InvalidationCompleteTrigger.set_has x
                  (if isCUDA then InvalidationCompleteTrigger.set_add recorded registerName
                   else recorded) = true
                <-> (x <> EmptyString /\ In x (seen ++ [registerName]))).
  { intros Hc x. rewrite Hc.
    rewrite InvalidationCompleteTriggerFacts.set_add_has.
    rewrite orb_true_iff, (Hrec Hc x), in_app_iff. simpl.
    split.
    - intros [Heq|[Hx Hin]]; [|split; [exact Hx|now left]].
      apply String.eqb_eq in Heq. subst x. split; [exact Hne|right; now left].
    - intros [Hx [Hin|[Heq|[]]]]; [right; now split|].
      left. apply String.eqb_eq. now subst. }
  destruct (findGroup matches groups registerName) as [i|] eqn:Hfind.
  2: { apply Hskip; [right; right; reflexivity|exact Hrec']. }
  pose proof (findGroup_bound _ _ _ Hfind) as Hi.
  split; [exact Hlen|]. split.
  { now rewrite pushRegister_patterns. }
  split; [exact Hrec'|].
  assert (Hsame : forall n,
    findGroup matches (pushRegister i (mkRegister (Z.of_nat ord) registerName) groups) n
    = findGroup matches groups n).
  { intros n. apply findGroup_patterns. apply pushRegister_patterns. }
  split.
  - intros j r. rewrite registersAt_pushRegister by exact Hi.
    rewrite in_app_iff, Hregs, Hsame. split.
    + intros [[k [Hk [Ht Hf]]]|Hnew].
      * exists k. split; [exact Hk|]. split; [|exact Hf]. apply taken_snoc. now left.
      * destruct (Nat.eqb j i) eqn:Hji; [|now destruct Hnew].
        apply Nat.eqb_eq in Hji. subst j. destruct Hnew as [<-|[]]. simpl.
        exists ord. split; [reflexivity|]. split; [|exact Hfind].
        apply taken_snoc. right. now repeat split.
    + intros [k [Hk [Ht Hf]]]. apply taken_snoc in Ht.
      destruct Ht as [Ht|[-> [Hn [_ _]]]].
      * left. exists k. split; [exact Hk|]. split; [exact Ht|exact Hf].
      * right. rewrite Hn in Hf. rewrite Hfind in Hf. injection Hf as <-.
        rewrite Nat.eqb_refl. left. destruct r as [o n]. simpl in *. subst.
        reflexivity.
  - intros j. rewrite registersAt_pushRegister by exact Hi.
    destruct (Nat.eqb j i) eqn:Hji; [|rewrite app_nil_r; apply Hsorted].
    apply sorted_snoc; [apply Hsorted|].
    apply Forall_forall. intros a Ha. apply Hregs in Ha.
    destruct Ha as [k [Hk [Ht _]]]. apply taken_bound in Ht. simpl. lia.
Qed.

Lemma grouped_run (isCUDA : bool) (patterns names seen : list string) (st : GrouperState) :
  grouped matches isCUDA patterns seen st ->
  grouped matches isCUDA patterns (seen ++ names) (classifyFrom matches isCUDA names st).
Proof.
  revert seen st; induction names as [|x names IH]; intros seen st H; simpl.
  - now rewrite app_nil_r.
  - replace (seen ++ x :: names) with ((seen ++ [x]) ++ names)
      by (now rewrite <- app_assoc).
    apply IH. now apply grouped_step.
Qed.

Lemma classify_grouped (isCUDA : bool) (definitions : list RegisterGroupDefinition)
      (names : list string) :
  grouped matches isCUDA (map def_groupPattern definitions) names
          (classifyFrom matches isCUDA names (map newRegisterGroup definitions, [], O)).
Proof.
  apply (grouped_run isCUDA (map def_groupPattern definitions) names []).
  apply grouped_start.
Qed.

Lemma classify_registersAt (isCUDA : bool) (definitions : list RegisterGroupDefinition)
      (names : list string) (i : nat) :
  match nth_error (classify matches isCUDA definitions names) i with
  | Some g => registers g
  | None => []
  end
  = registersAt i (fst (fst (classifyFrom matches isCUDA names
                               (map newRegisterGroup definitions, [], O)))).
Proof.
  unfold classify, registersAt. rewrite nth_error_map.
  destruct (nth_error _ i) as [[p g]|]; reflexivity.
Qed.

Lemma pushRegister_labels (i : nat) (r : Register) (groups : list (string * RegisterGroup)) :
  map (fun pg => (groupName (snd pg), isPredicate (snd pg), isHidden (snd pg)))
      (pushRegister i r groups)
  = map (fun pg => (groupName (snd pg), isPredicate (snd pg), isHidden (snd pg))) groups.
Proof.
  revert i; induction groups as [|[p g] rest IH]; intros [|i]; simpl; try reflexivity.
  now rewrite IH.
Qed.

Lemma classifyName_labels (isCUDA : bool) (st : GrouperState) (registerName : string) :
  map (fun pg => (groupName (snd pg), isPredicate (snd pg), isHidden (snd pg)))
      (fst (fst (classifyName matches isCUDA st registerName)))
  = map (fun pg => (groupName (snd pg), isPredicate (snd pg), isHidden (snd pg)))
        (fst (fst st)).
Proof.
  destruct st as [[groups recorded] next]. unfold classifyName.
  destruct (Nat.eqb (String.length registerName) 0); [reflexivity|].
  destruct (isCUDA && InvalidationCompleteTrigger.set_has registerName recorded);
    [reflexivity|].
  destruct (findGroup matches groups registerName); [|reflexivity].
  apply pushRegister_labels.
Qed.

Lemma classifyFrom_labels (isCUDA : bool) (names : list string) (st : GrouperState) :
  map (fun pg => (groupName (snd pg), isPredicate (snd pg), isHidden (snd pg)))
      (fst (fst (classifyFrom matches isCUDA names st)))
  = map (fun pg => (groupName (snd pg), isPredicate (snd pg), isHidden (snd pg)))
        (fst (fst st)).
Proof.
  unfold classifyFrom.
  revert st; induction names as [|x names IH]; intros st; cbn [fold_left]; [reflexivity|].
  rewrite IH. apply classifyName_labels.
Qed.

(** X15. The register grouper files a register in the group at position
    [i] exactly when its ordinal is the position [k] of its name in the
    list of the backend, the name is not empty, for a device the name
    does not occur before [k], and pattern [i] is the first pattern of
    the definitions that matches the name. *)
Theorem registers_grouped_by_first_match :
  forall (isCUDA : bool) (definitions : list RegisterGroupDefinition)
         (parsedRegNames : list string) (i : nat) (r : Register),
    (exists g, nth_error (classify matches isCUDA definitions parsedRegNames) i = Some g
               /\ In r (registers g))
    <-> (exists k, ordinal r = Z.of_nat k
                   /\ taken isCUDA parsedRegNames k (reg_name r)
                   /\ firstMatch matches (map def_groupPattern definitions) (reg_name r) i).
Proof.
  intros isCUDA definitions names i r.
  pose proof (classify_grouped isCUDA definitions names) as Hg.
  pose proof (classify_registersAt isCUDA definitions names i) as Hat.
  destruct (classifyFrom matches isCUDA names (map newRegisterGroup definitions, [], O))
    as [[groups recorded] next] eqn:Hrun.
  destruct Hg as [_ [Hpat [_ [Hregs _]]]]. simpl in Hat.
  rewrite <- Hpat.
  split.
  - intros [g [Hg Hin]]. rewrite Hg in Hat. rewrite Hat in Hin.
    apply Hregs in Hin. destruct Hin as [k [Hk [Ht Hf]]]. exists k.
    split; [exact Hk|]. split; [exact Ht|]. apply findGroup_firstMatch. exact Hf.
  - intros [k [Hk [Ht Hf]]]. apply findGroup_firstMatch in Hf.
    assert (Hin : In r (registersAt i groups)).
    { apply Hregs. exists k. split; [exact Hk|]. split; [exact Ht|exact Hf]. }
    rewrite <- Hat in Hin.
    destruct (nth_error (classify matches isCUDA definitions names) i) as [g|];
      [|now destruct Hin].
    exists g. now split.
Qed.

(** X16. The register grouper answers with one group for every
    definition, in the order of the definitions and with their names and
    flags, and in every group the registers stand by strictly increasing
    ordinal, so that no register is filed twice. *)
Theorem register_groups_follow_definitions :
  forall (isCUDA : bool) (definitions : list RegisterGroupDefinition)
         (parsedRegNames : list string),
    let groups := classify matches isCUDA definitions parsedRegNames in
    map (fun g => (groupName g, isPredicate g, isHidden g)) groups
    = map (fun def => (def_groupName def, def_isPredicate def, def_isHidden def)) definitions
    /\ Forall (fun g => StronglySorted (fun a b => ordinal a < ordinal b) (registers g)
                        /\ NoDup (registers g)) groups.
Proof.
  intros isCUDA definitions names groups. subst groups. split.
  - unfold classify. rewrite map_map.
    rewrite (classifyFrom_labels isCUDA names (map newRegisterGroup definitions, [], O)).
    simpl. rewrite map_map. reflexivity.
  - apply Forall_forall. intros g Hin. apply In_nth_error in Hin. destruct Hin as [i Hi].
    pose proof (classify_grouped isCUDA definitions names) as Hg.
    pose proof (classify_registersAt isCUDA definitions names i) as Hat.
    rewrite Hi in Hat.
    destruct (classifyFrom matches isCUDA names (map newRegisterGroup definitions, [], O))
      as [[gs recorded] next] eqn:Hrun.
    destruct Hg as [_ [_ [_ [_ Hsorted]]]]. simpl in Hat.
    specialize (Hsorted i). rewrite <- Hat in Hsorted.
    split; [exact Hsorted|].
    clear - Hsorted. induction Hsorted as [|a l Hs IH Ha]; constructor; [|exact IH].
    intros Hin. rewrite Forall_forall in Ha. specialize (Ha a Hin). lia.
Qed.

End RegisterGrouperFacts.

(** ** The register view of a group *)

Lemma set_sent_twice (h h' : list Cmd) (s : Session) :
  set_sent h' (set_sent h s) = set_sent h' s.
Proof. now destruct s. Qed.

Lemma set_sent_same (s : Session) : set_sent (sent s) s = s.
Proof. now destruct s. Qed.

Lemma sent_set_sent (h : list Cmd) (s : Session) : sent (set_sent h s) = h.
Proof. now destruct s. Qed.

Lemma fetchOneByOne_effect (B : GDBBackend) (regs : list Register) :
  forall (m : NumberMap) (s : Session),
    exists m',
      fetchOneByOne B regs m s
      = (Ok m',
         set_sent (sent s ++ map (fun reg => DataListRegisterValues [ordinal reg]) regs) s).
Proof.
  induction regs as [|reg rest IH]; intros m s.
  - exists m. simpl. now rewrite app_nil_r, set_sent_same.
  - cbn [fetchOneByOne]. unfold bind at 1. unfold tryCatch, bind at 1, send.
    cbv zeta.
    destruct (onRegisterValues B (sent s ++ [DataListRegisterValues [ordinal reg]]))
      as [registerValue|e].
    + destruct (IH (recordPairs registerValue m)
                   (set_sent (sent s ++ [DataListRegisterValues [ordinal reg]]) s))
        as [m' Hm'].
      exists m'. unfold ret at 1. rewrite Hm'.
      rewrite sent_set_sent, set_sent_twice, <- app_assoc. reflexivity.
    + destruct (IH (numberMap_set (Some (ordinal reg)) "N/A" m)
                   (set_sent (sent s ++ [DataListRegisterValues [ordinal reg]]) s))
        as [m' Hm'].
      exists m'. unfold ret at 1. rewrite Hm'.
      rewrite sent_set_sent, set_sent_twice, <- app_assoc. reflexivity.
Qed.

Lemma registerVariables_bound (group : RegisterGroup) (m : NumberMap) (reg : Register) :
  (List.length (registerVariables group m reg) <= 2)%nat
  /\ Forall (fun v => var_name v = reg_name reg) (registerVariables group m reg).
Proof.
  unfold registerVariables.
  destruct (numberMap_get (ordinal reg) m) as [raw|]; [|split; [simpl; lia|constructor]].
  destruct (truthy raw); [|split; [simpl; lia|constructor]].
  destruct (isNaN (parseInt raw)); destruct (isPredicate group); simpl;
    (split; [lia|repeat constructor]).
Qed.

Lemma flat_map_registerVariables (group : RegisterGroup) (m : NumberMap) (regs : list Register) :
  (List.length (flat_map (registerVariables group m) regs) <= 2 * List.length regs)%nat
  /\ Forall (fun v => In (var_name v) (map reg_name regs))
            (flat_map (registerVariables group m) regs).
Proof.
  induction regs as [|reg rest [IHlen IHall]]; simpl; [split; [lia|constructor]|].
  destruct (registerVariables_bound group m reg) as [Hlen Hall].
  split.
  - rewrite length_app. lia.
  - apply Forall_app. split.
    + eapply Forall_impl; [|exact Hall]. intros v Hv. now left.
    + eapply Forall_impl; [|exact IHall]. intros v Hv. now right.
Qed.

(** X17. A request for the registers of a group never fails and is
    answered with one response: the backend is asked for all registers
    of the group at once and, only if that request fails, once more for
    each register in turn; a failure of such a single request is
    absorbed.  The response holds at most two variables for a register,
    each under the name of a register of the group; the focus and the
    variable object store are not touched. *)
Theorem registersRequest_always_answers :
  forall (B : GDBBackend) (group : RegisterGroup) (s : Session),
    let bulk := DataListRegisterValues (map ordinal (registers group)) in
    let s' := snd (registersRequest B group s) in
    fst (registersRequest B group s) = Ok tt
    /\ issuedBy (registersRequest B group) s
       = bulk :: match onRegisterValues B (sent s ++ [bulk]) with
                 | Ok _ => []
                 | Throw _ =>
                     map (fun reg => DataListRegisterValues [ordinal reg]) (registers group)
                 end
    /\ (exists variables,
          emittedBy (registersRequest B group) s = [SendResponse (VariablesBody variables)]
          /\ (List.length variables <= 2 * List.length (registers group))%nat
          /\ Forall (fun v => In (var_name v) (map reg_name (registers group))) variables)
    /\ cudaThread s' = cudaThread s
    /\ uiFocusedFrame s' = uiFocusedFrame s
    /\ gdbFocusedFrame s' = gdbFocusedFrame s
    /\ varStore s' = varStore s.
Proof.
  intros B group s bulk s'. subst s'.
  unfold issuedBy, emittedBy, registersRequest.
  unfold bind at 1 3 5 7 9 11 13, tryCatch, bind, send. cbv zeta. fold bulk.
  destruct (onRegisterValues B (sent s ++ [bulk])) as [registerValues|e].
  - unfold ret, emit, modify. cbn [fst snd].
    destruct s as [ct ui gf vs ti se em]. cbn.
    split; [reflexivity|]. split.
    { rewrite skipn_app, skipn_all, Nat.sub_diag. reflexivity. }
    split; [|repeat split].
    eexists. split.
    { rewrite skipn_app, skipn_all, Nat.sub_diag. reflexivity. }
    apply flat_map_registerVariables.
  - destruct (fetchOneByOne_effect B (registers group) []
                (set_sent (sent s ++ [bulk]) s)) as [m' Hm'].
    rewrite Hm'. unfold emit, modify. cbn [fst snd].
    rewrite sent_set_sent, set_sent_twice.
    destruct s as [ct ui gf vs ti se em]. cbn.
    split; [reflexivity|]. split.
    { rewrite <- app_assoc. rewrite skipn_app, skipn_all, Nat.sub_diag. reflexivity. }
    split; [|repeat split].
    eexists. split.
    { rewrite skipn_app, skipn_all, Nat.sub_diag. reflexivity. }
    apply flat_map_registerVariables.
Qed.

(** ** What a register variable shows *)

Lemma parseDigits_digit (radix : Z) (c : ascii) (s : string) (acc : option Z) (d : Z) :
  digitValue c = Some d ->
  (d <? radix) = true ->
  parseDigits radix (String c s) acc
  = parseDigits radix s (Some (radix * (match acc with Some a => a | None => 0 end) + d)).
Proof.
  intros Hd Hr. cbn [parseDigits]. now rewrite Hd, Hr.
Qed.

Ltac read_digit IH :=
  cbn [HexadecimalString.NilEmpty.string_of_uint DecimalString.NilEmpty.string_of_uint];
  match goal with
  | |- context [parseDigits ?r (String ?c ?s) ?a] =>
      let v := eval vm_compute in (digitValue c) in
      match v with
      | Some ?d => rewrite (parseDigits_digit r c s a d eq_refl eq_refl)
      end
  end;
  cbv beta iota;
  match goal with
  | |- parseDigits _ _ (Some ?z) = Some (Zpos (_ _ ?p)) =>
      replace z with (Zpos p) by lia; apply IH
  end.

Lemma parseDigits_hex_acc (d : Hexadecimal.uint) :
  forall acc : positive,
    parseDigits 16 (HexadecimalString.NilEmpty.string_of_uint d) (Some (Zpos acc))
    = Some (Zpos (Pos.of_hex_uint_acc d acc)).
Proof.
  induction d as [|d IH|d IH|d IH|d IH|d IH|d IH|d IH|d IH|d IH|d IH|d IH|d IH|d IH|d IH
                  |d IH|d IH]; intros acc;
    [reflexivity | cbn [Pos.of_hex_uint_acc]; read_digit IH ..].
Qed.

Lemma parseDigits_dec_acc (d : Decimal.uint) :
  forall acc : positive,
    parseDigits 10 (DecimalString.NilEmpty.string_of_uint d) (Some (Zpos acc))
    = Some (Zpos (Pos.of_uint_acc d acc)).
Proof.
  induction d as [|d IH|d IH|d IH|d IH|d IH|d IH|d IH|d IH|d IH|d IH]; intros acc;
    [reflexivity | cbn [Pos.of_uint_acc]; read_digit IH ..].
Qed.

Ltac first_digit :=
  cbn [HexadecimalString.NilEmpty.string_of_uint DecimalString.NilEmpty.string_of_uint];
  match goal with
  | |- context [parseDigits ?r (String ?c ?s) ?a] =>
      let v := eval vm_compute in (digitValue c) in
      match v with
      | Some ?d => rewrite (parseDigits_digit r c s a d eq_refl eq_refl)
      end
  end;
  cbv beta iota.

Lemma parseDigits_hex_zero (d : Hexadecimal.uint) :
  parseDigits 16 (HexadecimalString.NilEmpty.string_of_uint d) (Some 0)
  = Some (Z.of_N (Pos.of_hex_uint d)).
Proof.
  induction d as [|d IH|d IH|d IH|d IH|d IH|d IH|d IH|d IH|d IH|d IH|d IH|d IH|d IH|d IH
                  |d IH|d IH];
    [reflexivity | first_digit; exact IH | first_digit; apply parseDigits_hex_acc ..].
Qed.

Lemma parseDigits_dec_zero (d : Decimal.uint) :
  parseDigits 10 (DecimalString.NilEmpty.string_of_uint d) (Some 0)
  = Some (Z.of_N (Pos.of_uint d)).
Proof.
  induction d as [|d IH|d IH|d IH|d IH|d IH|d IH|d IH|d IH|d IH|d IH];
    [reflexivity | first_digit; exact IH | first_digit; apply parseDigits_dec_acc ..].
Qed.

Lemma parseDigits_hex_top (d : Hexadecimal.uint) (acc : option Z) :
  startValue acc = 0 ->
  parseDigits 16 (HexadecimalString.NilZero.string_of_uint d) acc
  = Some (Z.of_N (Pos.of_hex_uint d)).
Proof.
  intros Hacc.
  assert (Hstep : forall s,
    parseDigits 16 (String "0" s) acc = parseDigits 16 s (Some 0)).
  { intros s. rewrite (parseDigits_digit 16 "0" s acc 0 eq_refl eq_refl).
    fold (startValue acc). now rewrite Hacc. }
  destruct d;
    try (change (HexadecimalString.NilZero.string_of_uint ?x)
           with (HexadecimalString.NilEmpty.string_of_uint x));
    [exact (Hstep EmptyString)
    | cbn [HexadecimalString.NilEmpty.string_of_uint]; rewrite Hstep;
      exact (parseDigits_hex_zero _)
    | first_digit; fold (startValue acc); rewrite Hacc; apply parseDigits_hex_acc ..].
Qed.

Lemma parseDigits_dec_top (d : Decimal.uint) :
  parseDigits 10 (DecimalString.NilZero.string_of_uint d) None
  = Some (Z.of_N (Pos.of_uint d)).
Proof.
  destruct d;
    try (change (DecimalString.NilZero.string_of_uint ?x)
           with (DecimalString.NilEmpty.string_of_uint x));
    [reflexivity
    | first_digit; exact (parseDigits_dec_zero _)
    | first_digit; apply parseDigits_dec_acc ..].
Qed.

Lemma parseDigits_padded (k : nat) (d : Hexadecimal.uint) :
  forall acc : option Z,
    startValue acc = 0 ->
    parseDigits 16 (String.append (repeatString "0" k)
                                  (HexadecimalString.NilZero.string_of_uint d)) acc
    = Some (Z.of_N (Pos.of_hex_uint d)).
Proof.
  induction k as [|k IH]; intros acc Hacc.
  - now apply parseDigits_hex_top.
  - cbn [repeatString String.append].
    rewrite (parseDigits_digit 16 "0" _ acc 0 eq_refl eq_refl).
    fold (startValue acc). rewrite Hacc. apply IH. reflexivity.
Qed.

Lemma parseInt_hex_prefix (digits : string) :
  parseInt (String "0" (String "x" digits))
  = option_map (Z.mul 1) (parseDigits 16 digits None).
Proof. reflexivity. Qed.

Lemma parseInt_decimal (d : Decimal.uint) :
  parseInt (DecimalString.NilZero.string_of_uint d)
  = option_map (Z.mul 1) (parseDigits 10 (DecimalString.NilZero.string_of_uint d) None).
Proof.
  destruct d as [|d|d|d|d|d|d|d|d|d|d]; try reflexivity.
  destruct d; reflexivity.
Qed.

Lemma parseInt_negative (d : Decimal.uint) :
  parseInt (String "-" (DecimalString.NilZero.string_of_uint d))
  = option_map (Z.mul (-1)) (parseDigits 10 (DecimalString.NilZero.string_of_uint d) None).
Proof.
  destruct d as [|d|d|d|d|d|d|d|d|d|d]; try reflexivity.
  destruct d; reflexivity.
Qed.

Lemma parseInt_toFixedHex (v width : Z) :
  0 <= v -> parseInt (toFixedHex (Some v) width) = Some v.
Proof.
  intros Hv. unfold toFixedHex. cbv zeta. rewrite toString16_not_NaN.
  cbn [String.append]. rewrite parseInt_hex_prefix.
  unfold toString16.
  destruct v as [|p|p]; [| |lia]; cbn [Z.to_hex_int HexadecimalString.NilZero.string_of_int].
  - now rewrite parseDigits_padded.
  - rewrite parseDigits_padded by reflexivity.
    now rewrite HexadecimalPos.Unsigned.of_to.
Qed.

Lemma parseInt_toString (v : Z) : parseInt (toString (Some v)) = Some v.
Proof.
  unfold toString.
  destruct v as [|p|p]; cbn [Z.to_int DecimalString.NilZero.string_of_int].
  - reflexivity.
  - rewrite parseInt_decimal, parseDigits_dec_top, DecimalPos.Unsigned.of_to. reflexivity.
  - rewrite parseInt_negative, parseDigits_dec_top, DecimalPos.Unsigned.of_to. reflexivity.
Qed.

Lemma parseInt_truthy (raw : string) (v : Z) :
  parseInt raw = Some v -> truthy raw = true.
Proof.
  destruct raw; [discriminate | reflexivity].
Qed.

(** X18. A register whose raw value is ASCII text and reads as a safe
    integer (below 2^53 in absolute value, where the model of numbers is
    exact) is shown as one variable, and the text shown reads as the same
    number: the decimal text in a predicate group, and elsewhere the
    hexadecimal text of [formatRegister] provided the number is not
    negative. *)
Theorem register_variable_shows_the_value :
  forall (group : RegisterGroup) (registerValuesMap : NumberMap) (reg : Register)
         (rawRegisterValue : string) (v : Z),
    numberMap_get (ordinal reg) registerValuesMap = Some rawRegisterValue ->
    isASCIIText rawRegisterValue = true ->
    parseInt rawRegisterValue = Some v ->
    safeInteger v ->
    isPredicate group = true \/ 0 <= v ->
    exists shown,
      registerVariables group registerValuesMap reg = [mkVariable (reg_name reg) shown]
      /\ parseInt shown = Some v.
Proof.
  intros group m reg raw v Hget _ Hnum _ Hrange.
  rewrite (@registerVariables_numeric group m reg raw v Hget (parseInt_truthy raw v Hnum) Hnum).
  eexists. split; [reflexivity|].
  destruct (isPredicate group).
  - apply parseInt_toString.
  - destruct Hrange as [Hp|Hv]; [discriminate|]. now apply parseInt_toFixedHex.
Qed.

Lemma register_variable_shows_the_value_witness :
  exists shown,
    registerVariables generalGroup [(Some 0, "0x1f")] (mkRegister 0 "R0")
    = [mkVariable "R0" shown]
    /\ parseInt shown = Some 31.
Proof.
  apply (register_variable_shows_the_value generalGroup [(Some 0, "0x1f")]
           (mkRegister 0 "R0") "0x1f" 31).
  - reflexivity.
  - reflexivity.
  - reflexivity.
  - unfold safeInteger. lia.
  - right. lia.
Defined.

(** ** Disassembling backward *)

Section DisassembleBackwardFacts.

Variable AsmInsns : Type.
Variable onDataDisassemble : list Cmd -> Result AsmInsns.
Variable flattenDisassembledInstructions :
  AsmInsns -> list DisassembledInstruction -> Z -> list DisassembledInstruction.

Lemma attempts_step (address : string) (step : Z) (i k : nat) :
  attempts address step i (S k)
  = addressRequest (addressToTry address step i) :: attempts address step (S i) k.
Proof. reflexivity. Qed.

Lemma tryBackward_step (address : string) (step : Z) (i steps : nat) (s : Session) :
  tryBackward onDataDisassemble address step i (S steps) s
  = match onDataDisassemble (sent s ++ [addressRequest (addressToTry address step i)]) with
    | Ok r =>
        (Ok (Some r),
         set_sent (sent s ++ [addressRequest (addressToTry address step i)]) s)
    | Throw _ =>
        tryBackward onDataDisassemble address step (S i) steps
          (set_sent (sent s ++ [addressRequest (addressToTry address step i)]) s)
    end.
Proof.
  cbn [tryBackward]. unfold bind, tryCatch, send, ret. cbv zeta.
  destruct (onDataDisassemble _); reflexivity.
Qed.

Lemma tryBackward_effect (address : string) (step : Z) (steps : nat) :
  forall (i : nat) (s : Session),
    exists k,
      (k <= steps)%nat
      /\ snd (tryBackward onDataDisassemble address step i steps s)
         = set_sent (sent s ++ attempts address step i k) s
      /\ Forall (fun j => failed (onDataDisassemble (sent s ++ attempts address step i (S j)))
                          = true)
                (seq 0 (k - 1))
      /\ match fst (tryBackward onDataDisassemble address step i steps s) with
         | Ok (Some r) =>
             (1 <= k)%nat
             /\ onDataDisassemble (sent s ++ attempts address step i k) = Ok r
         | Ok None =>
             k = steps
             /\ (k = O
                 \/ failed (onDataDisassemble (sent s ++ attempts address step i k)) = true)
         | Throw _ => False
         end.
Proof.
  induction steps as [|steps IH]; intros i s.
  - exists O. cbn. rewrite app_nil_r, set_sent_same.
    split; [lia|]. split; [reflexivity|]. split; [constructor|]. split; [reflexivity|now left].
  - rewrite tryBackward_step.
    destruct (onDataDisassemble
                (sent s ++ [addressRequest (addressToTry address step i)]))
      as [r|e] eqn:Hfirst.
    + exists 1%nat. cbn [fst snd]. split; [lia|]. split; [reflexivity|].
      split; [constructor|]. split; [lia|exact Hfirst].
    + destruct (IH (S i) (set_sent (sent s ++ [addressRequest (addressToTry address step i)]) s))
        as [k [Hk [Hsent [Hfailed Hres]]]].
      rewrite sent_set_sent, set_sent_twice in Hsent.
      rewrite sent_set_sent in Hfailed, Hres.
      exists (S k). split; [lia|].
      assert (Happ : forall n,
        (sent s ++ [addressRequest (addressToTry address step i)])
          ++ attempts address step (S i) n
        = sent s ++ attempts address step i (S n)).
      { intros n. rewrite attempts_step, <- app_assoc. reflexivity. }
      split.
      { rewrite Hsent, Happ. reflexivity. }
      split.
      { replace (S k - 1)%nat with k by lia.
        destruct k as [|k]; [constructor|].
        cbn [seq]. constructor.
        - change (attempts address step i 1)
            with [addressRequest (addressToTry address step i)].
          now rewrite Hfirst.
        - replace (S k - 1)%nat with k in Hfailed by lia.
          rewrite <- seq_shift. apply Forall_map.
          eapply Forall_impl; [|exact Hfailed]. intros j Hj. cbv beta in Hj.
          rewrite Happ in Hj. exact Hj. }
      destruct (tryBackward onDataDisassemble address step (S i) steps
                  (set_sent (sent s ++ [addressRequest (addressToTry address step i)]) s))
        as [[[r|]|e'] s2]; cbn [fst snd] in Hres |- *.
      * destruct Hres as [Hone Hok]. split; [lia|]. rewrite <- Happ. exact Hok.
      * destruct Hres as [Heq Hlast]. split; [lia|]. right.
        destruct Hlast as [Hzero|Hlast].
        -- rewrite Hzero.
           change (attempts address step i 1)
             with [addressRequest (addressToTry address step i)].
           now rewrite Hfirst.
        -- rewrite <- Happ. exact Hlast.
      * exact Hres.
Qed.

Lemma disassembleBackward_unfold (instructions : list DisassembledInstruction)
      (address : string) (step : Z) (s : Session) :
  disassembleBackward onDataDisassemble flattenDisassembledInstructions
                      instructions address step s
  = match tryBackward onDataDisassemble address step 1
                      numberOfBackwardDisassembleSteps s with
    | (Ok (Some r), s1) =>
        let fetched := flattenDisassembledInstructions r instructions 0 in
        match lastAddress fetched with
        | Some lastInstructionFetched =>
            match onDataDisassemble
                    (sent s1 ++ [rangeRequest lastInstructionFetched address]) with
            | Ok r2 =>
                (Ok (flattenDisassembledInstructions r2 fetched 1),
                 set_sent (sent s1 ++ [rangeRequest lastInstructionFetched address]) s1)
            | Throw _ =>
                (Ok fetched,
                 set_sent (sent s1 ++ [rangeRequest lastInstructionFetched address]) s1)
            end
        | None => (Ok fetched, s1)
        end
    | (Ok None, s1) => (Ok instructions, s1)
    | (Throw e, s1) => (Throw e, s1)
    end.
Proof.
  unfold disassembleBackward. unfold bind at 1.
  destruct (tryBackward onDataDisassemble address step 1
              numberOfBackwardDisassembleSteps s) as [[[r|]|e] s1]; try reflexivity.
  cbv zeta.
  destruct (lastAddress (flattenDisassembledInstructions r instructions 0)); try reflexivity.
  unfold tryCatch, bind, send, ret. cbv zeta.
  destruct (onDataDisassemble _); reflexivity.
Qed.

(** X19. [disassembleBackward] never fails.  It asks the backend for
    the addresses one, two, ... steps before the given address and stops
    at the first answer or after sixteen steps; after an answer it asks
    at most once more, for the range up to the given address.  When all
    sixteen steps fail the array of instructions is left as it was. *)
Theorem disassembleBackward_tries_sixteen_steps :
  forall (instructions : list DisassembledInstruction) (address : string)
         (backwardDisassembleStepSize : Z) (s : Session),
    let run := disassembleBackward onDataDisassemble flattenDisassembledInstructions
                                   instructions address backwardDisassembleStepSize in
    exists result k rest,
      fst (run s) = Ok result
      /\ (1 <= k <= 16)%nat
      /\ issuedBy run s = attempts address backwardDisassembleStepSize 1 k ++ rest
      /\ Forall (fun j =>
                   failed (onDataDisassemble
                             (sent s ++ attempts address backwardDisassembleStepSize 1 (S j)))
                   = true)
                (seq 0 (k - 1))
      /\ ((failed (onDataDisassemble
                     (sent s ++ attempts address backwardDisassembleStepSize 1 k)) = false
           /\ (rest = [] \/ exists lastInstructionFetched,
                              rest = [rangeRequest lastInstructionFetched address]))
          \/ (failed (onDataDisassemble
                        (sent s ++ attempts address backwardDisassembleStepSize 1 k)) = true
              /\ k = 16%nat /\ rest = [] /\ result = instructions))
      /\ emitted (snd (run s)) = emitted s
      /\ cudaThread (snd (run s)) = cudaThread s
      /\ varStore (snd (run s)) = varStore s.
Proof.
  intros instructions address step s run. subst run.
  destruct (tryBackward_effect address step numberOfBackwardDisassembleSteps 1%nat s)
    as [k [Hk [Hsent [Hfailed Hres]]]].
  unfold numberOfBackwardDisassembleSteps in Hk.
  unfold issuedBy. rewrite disassembleBackward_unfold.
  destruct (tryBackward onDataDisassemble address step 1 numberOfBackwardDisassembleSteps s)
    as [[[r|]|e] s1] eqn:Hrun; cbn [fst snd] in Hsent, Hres; [| |contradiction].
  - destruct Hres as [Hone Hok]. cbv zeta.
    destruct (lastAddress (flattenDisassembledInstructions r instructions 0))
      as [lastInstructionFetched|].
    + destruct (onDataDisassemble (sent s1 ++ [rangeRequest lastInstructionFetched address]))
        as [r2|e2]; cbn [fst snd]; eexists; exists k;
        exists [rangeRequest lastInstructionFetched address];
        (split; [reflexivity|]); (split; [lia|]);
        (split; [rewrite sent_set_sent, Hsent, sent_set_sent, <- app_assoc,
                   skipn_app, skipn_all, Nat.sub_diag; reflexivity|]);
        (split; [exact Hfailed|]);
        (split; [left; rewrite Hok; split; [reflexivity|right; now eexists]|]);
        subst s1; destruct s; repeat split.
    + cbn [fst snd]. eexists; exists k; exists [].
      split; [reflexivity|]. split; [lia|].
      split.
      { rewrite Hsent, sent_set_sent, app_nil_r, skipn_app, skipn_all, Nat.sub_diag.
        reflexivity. }
      split; [exact Hfailed|].
      split; [left; rewrite Hok; split; [reflexivity|now left]|].
      subst s1; destruct s; repeat split.
  - destruct Hres as [Heq Hlast]. unfold numberOfBackwardDisassembleSteps in Heq.
    cbn [fst snd]. eexists; exists k; exists [].
    split; [reflexivity|]. split; [lia|].
    split.
    { rewrite Hsent, sent_set_sent, app_nil_r, skipn_app, skipn_all, Nat.sub_diag.
      reflexivity. }
    split; [exact Hfailed|].
    split.
    { right. destruct Hlast as [Hzero|Hlast]; [lia|]. now repeat split. }
    subst s1; destruct s; repeat split.
Qed.

(** X20. The size of an instruction is never asked of the device: as
    [hasFocus] is constantly false, the estimate of the instruction size
    is 4 and the step of the backward disassembly is 64 bytes in every
    state and whatever the query [getSassInstructionSize] would answer,
    and neither sends a command. *)
Theorem instruction_size_never_read_from_device :
  forall (getSassInstructionSize : M (option Z)) (s : Session),
    getInstructionSizeEstimate getSassInstructionSize s = (Ok (Some 4), s)
    /\ getBackwardDisassembleStepSize getSassInstructionSize s = (Ok (Some 64), s)
    /\ issuedBy (getBackwardDisassembleStepSize getSassInstructionSize) s = [].
Proof.
  intros sass s. unfold issuedBy. repeat split.
  cbn. now rewrite skipn_all.
Qed.

End DisassembleBackwardFacts.

(** ** The file of launch environment variables *)

Lemma append_empty (s : string) : String.append s EmptyString = s.
Proof. induction s as [|c s IH]; simpl; [reflexivity | now rewrite IH]. Qed.

Lemma rev_string_twice (s : string) :
  forall a b : string,
    rev_string a (rev_string b s) = rev_string (String.append s a) b.
Proof.
  induction s as [|c s IH]; intros a b; simpl; [reflexivity|].
  rewrite IH. reflexivity.
Qed.

Lemma rev_string_involutive (s : string) :
  rev_string EmptyString (rev_string EmptyString s) = s.
Proof.
  rewrite rev_string_twice. simpl. apply append_empty.
Qed.

Lemma length_trimStart (s : string) : (String.length (trimStart s) <= String.length s)%nat.
Proof.
  induction s as [|c s IH]; simpl; [lia|].
  destruct (isWhiteSpace c); simpl; lia.
Qed.

Lemma length_trimEnd (s : string) : (String.length (trimEnd s) <= String.length s)%nat.
Proof.
  induction s as [|c s IH]; simpl; [lia|].
  destruct (isEmptyString (trimEnd s) && isWhiteSpace c); simpl; lia.
Qed.

Lemma trimStart_headOK (s : string) : headOK s = true -> trimStart s = s.
Proof.
  destruct s as [|c s]; simpl; [reflexivity|].
  now destruct (isWhiteSpace c).
Qed.

Lemma headOK_trimStart (s : string) : headOK (trimStart s) = true.
Proof.
  induction s as [|c s IH]; simpl; [reflexivity|].
  destruct (isWhiteSpace c) eqn:Hc; [exact IH|]. simpl. now rewrite Hc.
Qed.

Lemma trimEnd_lastOK (s : string) : lastOK s = true -> trimEnd s = s.
Proof.
  induction s as [|c s IH]; intros H; [reflexivity|].
  cbn [trimEnd]. destruct s as [|c' s'].
  - simpl in *. now destruct (isWhiteSpace c).
  - rewrite (IH H). reflexivity.
Qed.

Lemma lastOK_trimEnd (s : string) : lastOK (trimEnd s) = true.
Proof.
  induction s as [|c s IH]; [reflexivity|].
  cbn [trimEnd].
  destruct (isEmptyString (trimEnd s) && isWhiteSpace c) eqn:Hc; [reflexivity|].
  destruct (trimEnd s) as [|c' t] eqn:Ht.
  - simpl in Hc. simpl. now rewrite Hc.
  - exact IH.
Qed.

Lemma headOK_trimEnd (s : string) : headOK s = true -> headOK (trimEnd s) = true.
Proof.
  destruct s as [|c s]; intros H; [reflexivity|].
  cbn [trimEnd]. cbn [headOK] in H.
  destruct (isWhiteSpace c) eqn:Hc; [discriminate|].
  rewrite andb_false_r. cbn [headOK]. now rewrite Hc.
Qed.

Lemma trim_ends (s : string) : headOK (trim s) = true /\ lastOK (trim s) = true.
Proof.
  unfold trim. split.
  - apply headOK_trimEnd, headOK_trimStart.
  - apply lastOK_trimEnd.
Qed.

Lemma isTrimmed_ends (s : string) :
  isTrimmed s <-> headOK s = true /\ lastOK s = true.
Proof.
  unfold isTrimmed. split.
  - intros H. rewrite <- H. apply trim_ends.
  - intros [Hh Hl]. unfold trim. rewrite (trimStart_headOK s Hh). now apply trimEnd_lastOK.
Qed.

Lemma isTrimmed_trim (s : string) : isTrimmed (trim s).
Proof. apply isTrimmed_ends, trim_ends. Qed.

Lemma contains_append (c : ascii) (a b : string) :
  contains c (String.append a b) = contains c a || contains c b.
Proof.
  induction a as [|c' a IH]; simpl; [reflexivity|].
  rewrite IH. now rewrite orb_assoc.
Qed.

Lemma contains_trimStart (c : ascii) (s : string) :
  contains c s = false -> contains c (trimStart s) = false.
Proof.
  induction s as [|c' s IH]; simpl; [reflexivity|].
  intros H. apply orb_false_iff in H. destruct H as [Hc Hs].
  destruct (isWhiteSpace c'); [now apply IH|]. simpl. now rewrite Hc, Hs.
Qed.

Lemma contains_trimEnd (c : ascii) (s : string) :
  contains c s = false -> contains c (trimEnd s) = false.
Proof.
  induction s as [|c' s IH]; simpl; [reflexivity|].
  intros H. apply orb_false_iff in H. destruct H as [Hc Hs].
  destruct (isEmptyString (trimEnd s) && isWhiteSpace c'); [reflexivity|].
  simpl. now rewrite Hc, IH.
Qed.

Lemma contains_trim (c : ascii) (s : string) :
  contains c s = false -> contains c (trim s) = false.
Proof.
  intros H. unfold trim. now apply contains_trimEnd, contains_trimStart.
Qed.

Lemma contains_drop (c : ascii) (n : nat) (s : string) :
  contains c s = false -> contains c (drop n s) = false.
Proof.
  revert s; induction n as [|n IH]; intros s H; [now destruct s|].
  destruct s as [|c' s]; [reflexivity|]. simpl in *.
  apply orb_false_iff in H. now apply IH.
Qed.

Lemma indexOf_take (c : ascii) (s : string) (i : nat) :
  indexOf c s = Some i -> contains c (take i s) = false.
Proof.
  revert i; induction s as [|c' s IH]; intros i H; simpl in H; [discriminate|].
  destruct (Ascii.eqb c' c) eqn:Hc.
  - injection H as <-. reflexivity.
  - destruct (indexOf c s) as [j|]; [|discriminate]. injection H as <-.
    simpl. rewrite Hc. now apply IH.
Qed.

Lemma indexOf_none (c : ascii) (s : string) :
  indexOf c s = None <-> contains c s = false.
Proof.
  induction s as [|c' s IH]; simpl; [now split|].
  destruct (Ascii.eqb c' c); simpl; [split; discriminate|].
  rewrite <- IH. destruct (indexOf c s); simpl; split; congruence.
Qed.

Lemma length_positive (s : string) :
  Nat.ltb 0 (String.length s) = true <-> s <> EmptyString.
Proof.
  destruct s; simpl; split; intros H; try reflexivity; try discriminate; congruence.
Qed.

Lemma readEnvLine_wellFormed (line : string) (spec : LaunchEnvVarSpec) :
  readEnvLine line = Some spec -> wellFormed spec.
Proof.
  unfold readEnvLine. cbv zeta.
  set (n := (String.length unsetString + 1)%nat). clearbody n.
  destruct (isEmptyString (trim line) || startsWith "#" (trim line)); [discriminate|].
  destruct (indexOf "=" (trim line)) as [eqIdx|] eqn:Heq.
  - destruct (Nat.ltb 0 (String.length (trim (slice 0 eqIdx (trim line))))) eqn:Hname;
      [|discriminate].
    intros H. injection H as <-. unfold wellFormed. cbn [spec_name spec_type spec_value].
    split; [now apply length_positive|]. split; [apply isTrimmed_trim|].
    split.
    + apply contains_trim. unfold slice. rewrite Nat.sub_0_r.
      change (drop 0 (trim line)) with (trim line)
        || (destruct (trim line); reflexivity).
      now apply indexOf_take.
    + eexists. split; [reflexivity|apply isTrimmed_trim].
  - destruct (startsWith unsetString (trim line)
              && Nat.ltb (String.length unsetString) (String.length (trim line)));
      [|discriminate].
    destruct (isEmptyString _); [|discriminate].
    destruct (Nat.ltb 0 (String.length (trim (drop n (trim line))))) eqn:Hname;
      [|discriminate].
    intros H. injection H as <-. unfold wellFormed. cbn [spec_name spec_type spec_value].
    split; [now apply length_positive|]. split; [apply isTrimmed_trim|].
    split; [|reflexivity].
    apply contains_trim, contains_drop. now apply indexOf_none.
Qed.

(** X21. Whatever a file of launch environment variables in ASCII
    text holds, every specification read from it has a name that is not
    empty, has no surrounding white space and no equals sign; a
    specification to set a variable has a value without surrounding
    white space, one to unset a variable has no value.  At most one
    specification is read per line. *)
Theorem launch_env_specs_are_well_formed :
  forall envFileContents : string,
    isASCIIText envFileContents = true ->
    Forall wellFormed (readEnvFile envFileContents)
    /\ (List.length (readEnvFile envFileContents)
        <= List.length (splitLines EmptyString envFileContents))%nat.
Proof.
  intros contents _. unfold readEnvFile.
  induction (splitLines EmptyString contents) as [|line lines [IHall IHlen]]; simpl.
  - split; [constructor|lia].
  - destruct (readEnvLine line) as [spec|] eqn:Hline; simpl.
    + split; [|lia]. constructor; [|exact IHall].
      eapply readEnvLine_wellFormed; exact Hline.
    + split; [exact IHall|lia].
Qed.

Lemma launch_env_specs_are_well_formed_witness :
  Forall wellFormed (readEnvFile sampleEnvFile)
  /\ (List.length (readEnvFile sampleEnvFile)
      <= List.length (splitLines EmptyString sampleEnvFile))%nat.
Proof.
  apply (launch_env_specs_are_well_formed sampleEnvFile).
  reflexivity.
Defined.

Example launch_env_file_read :
  readEnvFile sampleEnvFile
  = [mkSpec set_ "CUDA_VISIBLE_DEVICES" (Some "0"); mkSpec unset_ "LD_PRELOAD" None].
Proof. reflexivity. Qed.

Lemma lastOK_not_CR (c : ascii) :
  negb (isWhiteSpace c) = true -> Ascii.eqb c CR = false.
Proof.
  intros H. destruct (Ascii.eqb_spec c CR) as [->|Hne]; [discriminate H | reflexivity].
Qed.

Lemma splitLines_line (l : string) :
  forall (acc tail : string),
    contains LF l = false ->
    lastOK l = true ->
    splitLines acc (String.append l (String LF tail))
    = rev_string EmptyString (rev_string acc l) :: splitLines EmptyString tail.
Proof.
  induction l as [|c l IH]; intros acc tail Hlf Hlast.
  - reflexivity.
  - cbn [contains] in Hlf. apply orb_false_iff in Hlf. destruct Hlf as [Hc Hl].
    cbn [String.append splitLines]. rewrite Hc.
    destruct l as [|c' l'].
    + cbn [String.append]. cbn [lastOK] in Hlast.
      rewrite (lastOK_not_CR c Hlast). cbn [andb].
      exact (IH (String c acc) tail Hl eq_refl).
    + cbn [String.append].
      cbn [contains] in Hl. apply orb_false_iff in Hl. destruct Hl as [Hc' Hl'].
      rewrite Hc', andb_false_r.
      apply (IH (String c acc) tail).
      * cbn [contains]. now rewrite Hc', Hl'.
      * exact Hlast.
Qed.

Lemma splitLines_last (l : string) :
  forall acc : string,
    contains LF l = false ->
    splitLines acc l = [rev_string EmptyString (rev_string acc l)].
Proof.
  induction l as [|c l IH]; intros acc Hlf.
  - reflexivity.
  - cbn [contains] in Hlf. apply orb_false_iff in Hlf. destruct Hlf as [Hc Hl].
    cbn [splitLines]. rewrite Hc.
    destruct l as [|c' l'].
    + reflexivity.
    + pose proof Hl as Hl2.
      cbn [contains] in Hl2. apply orb_false_iff in Hl2. destruct Hl2 as [Hc' Hl'].
      rewrite Hc', andb_false_r.
      exact (IH (String c acc) Hl).
Qed.

Lemma splitLines_joinLines (lines : list string) :
  Forall (fun l => contains LF l = false /\ lastOK l = true) lines ->
  lines <> [] ->
  splitLines EmptyString (joinLines lines) = lines.
Proof.
  induction lines as [|l lines IH]; intros Hall Hne; [congruence|].
  inversion Hall as [|? ? [Hlf Hlast] Hrest]; subst.
  destruct lines as [|l2 rest].
  - cbn [joinLines]. rewrite splitLines_last by exact Hlf.
    now rewrite rev_string_involutive.
  - change (joinLines (l :: l2 :: rest))
      with (String.append l (String LF (joinLines (l2 :: rest)))).
    rewrite splitLines_line by assumption.
    rewrite rev_string_involutive. f_equal. apply IH; [exact Hrest|discriminate].
Qed.

Lemma headOK_append (a b : string) :
  a <> EmptyString -> headOK (String.append a b) = headOK a.
Proof. destruct a; [congruence | reflexivity]. Qed.

Lemma lastOK_append (a b : string) :
  b <> EmptyString -> lastOK (String.append a b) = lastOK b.
Proof.
  intros Hb. induction a as [|c a IH]; [reflexivity|].
  cbn [String.append]. destruct (String.append a b) as [|c' r] eqn:Hab.
  - destruct a; simpl in Hab; [congruence|discriminate].
  - cbn [lastOK]. exact IH.
Qed.

Lemma indexOf_append (c : ascii) (a b : string) :
  contains c a = false ->
  indexOf c (String.append a (String c b)) = Some (String.length a).
Proof.
  induction a as [|c' a IH]; intros H.
  - simpl. now rewrite Ascii.eqb_refl.
  - cbn [contains] in H. apply orb_false_iff in H. destruct H as [Hc Ha].
    cbn [String.append indexOf String.length]. rewrite Hc, (IH Ha). reflexivity.
Qed.

Lemma take_append (a b : string) : take (String.length a) (String.append a b) = a.
Proof.
  induction a as [|c a IH]; simpl; [now destruct b | now rewrite IH].
Qed.

Lemma drop_append (a b : string) (c : ascii) :
  drop (String.length a + 1) (String.append a (String c b)) = b.
Proof.
  induction a as [|c' a IH]; simpl; [now destruct b | exact IH].
Qed.

Lemma drop_zero (s : string) : drop 0 s = s.
Proof. now destruct s. Qed.

Lemma isEmptyString_append (a b : string) :
  a <> EmptyString -> isEmptyString (String.append a b) = false.
Proof. destruct a; [congruence | reflexivity]. Qed.

Lemma readEnvLine_set (name v : string) :
  name <> EmptyString ->
  isTrimmed name ->
  isTrimmed v ->
  contains "=" name = false ->
  startsWith "#" (String.append name (String "=" v)) = false ->
  readEnvLine (String.append name (String "=" v)) = Some (mkSpec set_ name (Some v)).
Proof.
  intros Hne Hname Hv Heq Hcomment.
  assert (Htrim : trim (String.append name (String "=" v)) = String.append name (String "=" v)).
  { apply isTrimmed_ends. apply isTrimmed_ends in Hname. apply isTrimmed_ends in Hv.
    rewrite headOK_append by exact Hne.
    rewrite lastOK_append by discriminate.
    split; [apply Hname|].
    destruct v as [|c v]; [reflexivity|]. apply Hv. }
  unfold readEnvLine. cbv zeta. rewrite Htrim.
  rewrite isEmptyString_append by exact Hne. rewrite Hcomment. cbn [orb].
  rewrite indexOf_append by exact Heq.
  unfold slice. rewrite Nat.sub_0_r, drop_zero, take_append, drop_append.
  rewrite Hname, Hv.
  now rewrite (proj2 (length_positive name) Hne).
Qed.

Lemma readEnvLine_unset (name : string) :
  name <> EmptyString ->
  isTrimmed name ->
  contains "=" name = false ->
  readEnvLine (String.append "unset " name) = Some (mkSpec unset_ name None).
Proof.
  intros Hne Hname Heq.
  assert (Htrim : trim (String.append "unset " name) = String.append "unset " name).
  { apply isTrimmed_ends. apply isTrimmed_ends in Hname.
    split; [reflexivity|].
    rewrite lastOK_append by exact Hne. apply Hname. }
  unfold readEnvLine. cbv zeta. rewrite Htrim.
  assert (Hindex : indexOf "=" (String.append "unset " name) = None).
  { apply indexOf_none. rewrite contains_append, Heq. reflexivity. }
  rewrite Hindex.
  set (line := String.append "unset " name) in *.
  assert (Hempty : isEmptyString line = false) by reflexivity.
  assert (Hcomment : startsWith "#" line = false) by reflexivity.
  assert (Hprefix : startsWith unsetString line = true) by reflexivity.
  assert (Hlen : Nat.ltb (String.length unsetString) (String.length line) = true)
    by reflexivity.
  assert (Hslice : slice (String.length unsetString) (String.length unsetString + 1) line
                   = " ") by reflexivity.
  assert (Hdrop : drop (String.length unsetString + 1) line = name) by reflexivity.
  rewrite Hempty, Hcomment, Hprefix, Hlen, Hslice, Hdrop.
  change (isEmptyString (trim " ")) with true.
  cbn [orb andb]. rewrite Hname.
  now rewrite (proj2 (length_positive name) Hne).
Qed.

Lemma readEnvLine_envLine (spec : LaunchEnvVarSpec) :
  writable spec -> readEnvLine (envLine spec) = Some spec.
Proof.
  intros [[Hne [Hname Htype]] [Hlf [Hcomment _]]].
  destruct spec as [[|] name value]; cbn [spec_name spec_type spec_value] in *;
    unfold envLine in *; cbn [spec_name spec_type spec_value] in *.
  - destruct Htype as [Heq [v [-> Hv]]]. now apply readEnvLine_set.
  - destruct Htype as [Heq ->]. now apply readEnvLine_unset.
Qed.

Lemma writable_line (spec : LaunchEnvVarSpec) :
  writable spec -> contains LF (envLine spec) = false /\ lastOK (envLine spec) = true.
Proof.
  intros Hw. split; [apply Hw|].
  pose proof (readEnvLine_envLine spec Hw) as Hread.
  destruct Hw as [[Hne [Hname Htype]] _].
  apply isTrimmed_ends in Hname.
  destruct spec as [[|] name value]; cbn [spec_name spec_type spec_value] in *;
    unfold envLine; cbn [spec_name spec_type spec_value].
  - destruct Htype as [_ [v [-> Hv]]]. apply isTrimmed_ends in Hv.
    rewrite lastOK_append by discriminate.
    destruct v as [|c v]; [reflexivity|]. apply Hv.
  - rewrite lastOK_append by exact Hne. apply Hname.
Qed.

(** X22. A file that states specifications line by line, [NAME=VALUE]
    to set and [unset NAME] to unset a variable, is read back as these
    specifications, in their order, provided each of them is well
    formed and its line is ASCII text, holds no line feed and does not
    begin with the comment sign. *)
Theorem launch_env_file_round_trip :
  forall specs : list LaunchEnvVarSpec,
    Forall writable specs ->
    readEnvFile (joinLines (map envLine specs)) = specs.
Proof.
  intros specs Hall. unfold readEnvFile.
  destruct specs as [|spec specs]; [reflexivity|].
  rewrite splitLines_joinLines.
  - induction Hall as [|sp sps Hw Hrest IH]; [reflexivity|].
    cbn [map flat_map]. rewrite (readEnvLine_envLine sp Hw). cbn [optionToList app].
    now rewrite IH.
  - apply Forall_map. eapply Forall_impl; [|exact Hall].
    intros sp Hw. now apply writable_line.
  - discriminate.
Qed.

Lemma launch_env_file_round_trip_witness :
  readEnvFile (joinLines (map envLine [mkSpec set_ "CUDA_VISIBLE_DEVICES" (Some "0, 1");
                                        mkSpec unset_ "LD_PRELOAD" None]))
  = [mkSpec set_ "CUDA_VISIBLE_DEVICES" (Some "0, 1"); mkSpec unset_ "LD_PRELOAD" None].
Proof.
  apply (launch_env_file_round_trip
           [mkSpec set_ "CUDA_VISIBLE_DEVICES" (Some "0, 1"); mkSpec unset_ "LD_PRELOAD" None]).
  repeat constructor; try discriminate; try reflexivity.
  all: eexists; split; reflexivity.
Defined.

(** ** The commands of the backend *)

Lemma prefix_take (p c : string) :
  String.prefix p c = true -> take (String.length p) c = p.
Proof.
  revert c; induction p as [|a p IH]; intros c H; [now destruct c|].
  destruct c as [|b c]; simpl in H; [discriminate|].
  destruct (ascii_dec a b) as [->|]; [|discriminate].
  simpl. now rewrite (IH c H).
Qed.

Lemma prefix_append (p rest : string) : String.prefix p (String.append p rest) = true.
Proof.
  induction p as [|a p IH]; simpl; [now destruct rest|].
  destruct (ascii_dec a a) as [_|Hne]; [exact IH | congruence].
Qed.

Lemma prefix_longer (p q c : string) :
  String.prefix (String.append p q) c = true -> String.prefix p c = true.
Proof.
  revert c; induction p as [|a p IH]; intros c H; [now destruct c|].
  destruct c as [|b c]; simpl in *; [discriminate|].
  destruct (ascii_dec a b); [now apply IH | discriminate].
Qed.

Lemma take_drop (n : nat) (c : string) : String.append (take n c) (drop n c) = c.
Proof.
  revert c; induction n as [|n IH]; intros c; [now destruct c|].
  destruct c as [|b c]; simpl; [reflexivity | now rewrite IH].
Qed.

Lemma drop_prefix (p rest : string) : drop (String.length p) (String.append p rest) = rest.
Proof.
  induction p as [|a p IH]; simpl; [now destruct rest | exact IH].
Qed.

(** X23. [sendCommand] of the backend changes a command only if it
    begins with [-break-insert], and then by putting the flag [-f] after
    these words: what the base class is given begins with
    [-break-insert] exactly if the command does and then carries the
    flag, and the command can be read back from it, so two commands are
    never sent as the same text. *)
Theorem sendCommand_inserts_flag_only :
  forall command : string,
    let text := CudaGdbBackend.sendCommand (fun c => c) command in
    CudaGdbBackend.original text = command
    /\ startsWith CudaGdbBackend.miPrefixBreakInsert text
       = startsWith CudaGdbBackend.miPrefixBreakInsert command
    /\ startsWith "-break-insert -f " text
       = startsWith CudaGdbBackend.miPrefixBreakInsert command
    /\ (forall T (superSendCommand : string -> T),
          CudaGdbBackend.sendCommand superSendCommand command = superSendCommand text).
Proof.
  intros command text. subst text. unfold CudaGdbBackend.sendCommand. cbv zeta.
  unfold startsWith, slice. rewrite Nat.sub_0_r, drop_zero.
  destruct (String.prefix CudaGdbBackend.miPrefixBreakInsert command) eqn:Hp.
  - rewrite (prefix_take _ _ Hp).
    set (rest := drop (String.length CudaGdbBackend.miPrefixBreakInsert) command).
    assert (Hcommand : command = String.append CudaGdbBackend.miPrefixBreakInsert rest).
    { rewrite <- (prefix_take _ _ Hp) at 1. symmetry. apply take_drop. }
    change (String.append CudaGdbBackend.miPrefixBreakInsert
              (String.append " " (String.append CudaGdbBackend.flagF (String.append " " rest))))
      with (String.append "-break-insert -f " rest).
    split.
    { unfold CudaGdbBackend.original, startsWith.
      rewrite prefix_append, drop_prefix. now rewrite Hcommand. }
    split.
    { apply (prefix_longer CudaGdbBackend.miPrefixBreakInsert " -f ").
      apply (prefix_append "-break-insert -f " rest). }
    split; [apply prefix_append | reflexivity].
  - assert (Hflag : String.prefix "-break-insert -f " command = false).
    { destruct (String.prefix "-break-insert -f " command) eqn:Hf; [|reflexivity].
      apply (prefix_longer CudaGdbBackend.miPrefixBreakInsert " -f ") in Hf. congruence. }
    split.
    { unfold CudaGdbBackend.original, startsWith. now rewrite Hflag. }
    split; [exact Hp|]. split; [exact Hflag | reflexivity].
Qed.

(** ** The answer to a focus change *)

(** X24. Every request to change the focus is answered exactly once.
    Either one error response is sent and nothing else, and the focus
    of the pseudo-thread stays; or the handler returns and has sent the
    response with the new focus, the focus-changed event, the
    invalidation of stacks and variables and the stop event, in this
    order, and the new focus, with every coordinate present, is the
    focus of the pseudo-thread. *)
Theorem changeCudaFocus_answers_exactly_once :
  forall (B : GDBBackend) (focus : CudaFocus) (s : Session),
    let s' := snd (changeCudaFocusRequest B focus s) in
    (exists message,
        emittedBy (changeCudaFocusRequest B focus) s = [SendErrorResponse 1 message]
        /\ thread_focus (cudaThread s') = thread_focus (cudaThread s))
    \/ (exists newFocus,
           emittedBy (changeCudaFocusRequest B focus) s
           = [SendResponse (FocusBody newFocus); ChangedCudaFocusEvent (Some newFocus);
              InvalidatedEvent ["stacks"; "variables"]; StoppedEvent "Refreshing State"]
           /\ fst (changeCudaFocusRequest B focus s) = Ok tt
           /\ thread_focus (cudaThread s') = Some newFocus
           /\ fullyGiven newFocus = true).
Proof.
  intros B focus s s'. subst s'.
  unfold emittedBy, changeCudaFocusRequest, tryCatch, bind, focusOnThread.
  pose proof (focusOnFrame_same B (Some (mkFrame (Some 0) (Some (cuda focus)))) s)
    as (Hthread & _ & _ & Hemit).
  destruct (focusOnFrame B (Some (mkFrame (Some 0) (Some (cuda focus)))) s)
    as [[u|e] s1]; simpl in Hthread, Hemit.
  - unfold get, ret, setFocus, modify, emit, invalidateAreas, invalidateState. simpl.
    rewrite Hthread.
    destruct focus as [fb ft|fs fw fl];
      destruct (thread_focus (cudaThread s)) as [[cb ct|cs cw cl]|] eqn:Hcur; simpl.
    + right. eexists.
      destruct (uiFocusedFrame s1) as [ui|]; simpl;
        [destruct (isCudaFocus (types.focus ui))|]; simpl;
        rewrite Hemit, <- !app_assoc, skipn_app, skipn_all, Nat.sub_diag;
        (split; [reflexivity|]); (split; [reflexivity|]); split; reflexivity.
    + left. eexists. rewrite Hthread, Hcur, Hemit, skipn_app, skipn_all, Nat.sub_diag.
      split; reflexivity.
    + left. eexists. rewrite Hthread, Hcur, Hemit, skipn_app, skipn_all, Nat.sub_diag.
      split; reflexivity.
    + left. eexists. rewrite Hthread, Hcur, Hemit, skipn_app, skipn_all, Nat.sub_diag.
      split; reflexivity.
    + right. eexists.
      destruct (uiFocusedFrame s1) as [ui|]; simpl;
        [destruct (isCudaFocus (types.focus ui))|]; simpl;
        rewrite Hemit, <- !app_assoc, skipn_app, skipn_all, Nat.sub_diag;
        (split; [reflexivity|]); (split; [reflexivity|]); split; reflexivity.
    + left. eexists. rewrite Hthread, Hcur, Hemit, skipn_app, skipn_all, Nat.sub_diag.
      split; reflexivity.
  - unfold get, emit, modify. simpl.
    pose proof (focusOnFrame_same B
                  (uiFocusedFrame (set_emitted (emitted s1 ++ [SendErrorResponse 1 e]) s1))
                  (set_emitted (emitted s1 ++ [SendErrorResponse 1 e]) s1))
      as (Hthread2 & _ & _ & Hemit2).
    simpl in Hthread2, Hemit2.
    destruct (focusOnFrame B (uiFocusedFrame s1)
                (set_emitted (emitted s1 ++ [SendErrorResponse 1 e]) s1)) as [r s2].
    simpl in *. left. exists e.
    rewrite Hemit2, Hemit, skipn_app, skipn_all, Nat.sub_diag, Hthread2, Hthread.
    split; reflexivity.
Qed.

(** ** Making up for the instructions missing at the beginning *)

Section DisassembleDeficitFacts.

Variable AsmInsns : Type.
Variable onDataDisassemble : list Cmd -> Result AsmInsns.
Variable flattenDisassembledInstructions :
  AsmInsns -> list DisassembledInstruction -> Z -> list DisassembledInstruction.

Lemma disassembleBackward_returns (instructions : list DisassembledInstruction)
      (address : string) (step : Z) (s : Session) :
  exists result,
    fst (disassembleBackward onDataDisassemble flattenDisassembledInstructions
                             instructions address step s) = Ok result.
Proof.
  rewrite disassembleBackward_unfold.
  destruct (tryBackward_effect AsmInsns onDataDisassemble address step
              numberOfBackwardDisassembleSteps 1%nat s) as [k [_ [_ [_ Hres]]]].
  destruct (tryBackward onDataDisassemble address step 1 numberOfBackwardDisassembleSteps s)
    as [[[r|]|e] s1]; cbn [fst] in Hres; [| |contradiction].
  - clear Hres. cbv zeta.
    destruct (lastAddress (flattenDisassembledInstructions r instructions 0)).
    + destruct (onDataDisassemble _); eexists; reflexivity.
    + eexists; reflexivity.
  - eexists; reflexivity.
Qed.

Lemma disassembleDeficit_step (fuel : nat) (first : DisassembledInstruction)
      (rest : list DisassembledInstruction) (deficit step : Z) (s : Session) :
  0 < deficit ->
  disassembleDeficit onDataDisassemble flattenDisassembledInstructions
                     (S fuel) (first :: rest) deficit step s
  = match disassembleBackward onDataDisassemble flattenDisassembledInstructions
                              [] (address first) step s with
    | (Ok prior, s1) =>
        if Nat.eqb (List.length prior) 0
        then bind (newArrayFill deficit dummyInstruction)
                  (fun dummies => ret (dummies ++ first :: rest)) s1
        else if Z.of_nat (List.length prior) <=? deficit
        then disassembleDeficit onDataDisassemble flattenDisassembledInstructions
                                fuel (prior ++ first :: rest)
                                (deficit - Z.of_nat (List.length prior)) step s1
        else (Ok (sliceLast deficit prior ++ first :: rest), s1)
    | (Throw e, s1) => (Throw e, s1)
    end.
Proof.
  intros Hpos. cbn [disassembleDeficit].
  replace (deficit <=? 0) with false by (symmetry; apply Z.leb_gt; exact Hpos).
  unfold bind at 1.
  destruct (disassembleBackward _ _ _ _ _ s) as [[prior|e] s1]; [|reflexivity].
  destruct (Nat.eqb (List.length prior) 0); [reflexivity|].
  destruct (Z.of_nat (List.length prior) <=? deficit); reflexivity.
Qed.

(** X25. The loop of the disassemble request that makes up for
    instructions missing before the first one always ends, after at
    most as many turns as instructions are missing, and puts exactly the
    missing number of instructions in front of the instructions at
    hand, which stay as they are. *)
Theorem disassembleDeficit_prepends_the_deficit :
  forall (fuel : nat) (instructions : list DisassembledInstruction)
         (instructionDeficit backwardDisassembleStepSize : Z) (s : Session),
    instructions <> [] ->
    0 <= instructionDeficit < 2 ^ 32 ->
    (Z.to_nat instructionDeficit <= fuel)%nat ->
    exists prior,
      fst (disassembleDeficit onDataDisassemble flattenDisassembledInstructions
                              fuel instructions instructionDeficit
                              backwardDisassembleStepSize s)
      = Ok (prior ++ instructions)
      /\ Z.of_nat (List.length prior) = instructionDeficit.
Proof.
  induction fuel as [|fuel IH]; intros instructions deficit step s Hne Hrange Hfuel.
  - assert (deficit = 0) by lia. subst deficit. exists []. split; reflexivity.
  - destruct (Z.eq_dec deficit 0) as [->|Hnz].
    { exists []. split; reflexivity. }
    destruct instructions as [|first rest]; [congruence|].
    rewrite disassembleDeficit_step by lia.
    destruct (disassembleBackward_returns [] (address first) step s) as [prior Hprior].
    destruct (disassembleBackward onDataDisassemble flattenDisassembledInstructions
                                  [] (address first) step s) as [r s1].
    cbn [fst] in Hprior. subst r.
    destruct (Nat.eqb (List.length prior) 0) eqn:Hempty.
    + unfold bind, newArrayFill.
      replace ((0 <=? deficit) && (deficit <? 2 ^ 32)) with true
        by (symmetry; apply andb_true_iff; split; [apply Z.leb_le|apply Z.ltb_lt]; lia).
      unfold ret. cbn [fst].
      exists (repeat dummyInstruction (Z.to_nat deficit)). split; [reflexivity|].
      rewrite repeat_length. lia.
    + apply Nat.eqb_neq in Hempty.
      destruct (Z.of_nat (List.length prior) <=? deficit) eqn:Hle.
      * apply Z.leb_le in Hle.
        destruct (IH (prior ++ first :: rest) (deficit - Z.of_nat (List.length prior))
                     step s1) as [more [Hmore Hlen]].
        { destruct prior; discriminate. }
        { lia. }
        { lia. }
        exists (more ++ prior). rewrite <- app_assoc. split; [exact Hmore|].
        rewrite length_app. lia.
      * apply Z.leb_gt in Hle. cbn [fst].
        exists (sliceLast deficit prior). split; [reflexivity|].
        unfold sliceLast. rewrite length_skipn. lia.
Qed.

End DisassembleDeficitFacts.

Lemma disassembleDeficit_prepends_the_deficit_witness :
  exists prior,
    fst (disassembleDeficit (fun _ => Throw "Cannot access memory") (fun (_ : unit) l _ => l)
                            2 [mkInstruction "0x10" None "NOP"] 2 64 newSession)
    = Ok (prior ++ [mkInstruction "0x10" None "NOP"])
    /\ Z.of_nat (List.length prior) = 2.
Proof.
  apply (disassembleDeficit_prepends_the_deficit unit
           (fun _ => Throw "Cannot access memory") (fun (_ : unit) l _ => l)
           2 [mkInstruction "0x10" None "NOP"] 2 64 newSession).
  - discriminate.
  - lia.
  - simpl. lia.
Defined.

Example disassembleDeficit_dummies :
  fst (disassembleDeficit (fun _ => Throw "Cannot access memory") (fun (_ : unit) l _ => l)
                          2 [mkInstruction "0x10" None "NOP"] 2 64 newSession)
  = Ok [dummyInstruction; dummyInstruction; mkInstruction "0x10" None "NOP"].
Proof. reflexivity. Qed.
